(** * trafilatura content hashing: a shallow embedding of [hashing.py]

    The development follows [src/trafilatura/hashing.py]: the [Simhash]
    class (Charikar fingerprints), [generate_bow_hash],
    [generate_hash_filename] and [content_fingerprint], together with the
    Python built-ins they call ([str.split], [str.strip], [int], [hex],
    [bin], [hashlib.blake2b], [base64.urlsafe_b64encode], [re.findall]).

    Conventions.
    - A Python [str] is a list of code points ([Z]); [bytes] is a list of
      [Byte.byte].
    - A Python [int] is a [Z].
    - A call that may raise returns in [res]: [Ret v] or [Raise e]. *)

From Stdlib Require Import ZArith List Lia Bool Permutation String Ascii QArith.
From Stdlib Require Import Qround Qpower Qreduction.
From Stdlib.Strings Require Import Byte.
Import ListNotations.
Open Scope Z_scope.

(** ** Exceptions and results *)

Inductive exn : Type :=
| ValueError
| UnicodeEncodeError
| ZeroDivisionError.

Inductive res (A : Type) : Type :=
| Ret (a : A)
| Raise (e : exn).

Arguments Ret {A} a.
Arguments Raise {A} e.

Definition bind {A B : Type} (m : res A) (k : A -> res B) : res B :=
  match m with
  | Ret a => k a
  | Raise e => Raise e
  end.

Notation "x <- m ;; k" := (bind m (fun x => k))
  (at level 61, m at next level, right associativity).

(** [for x in xs: acc = body(acc, x)] where the body may raise. *)
Fixpoint for_each {A S : Type} (body : S -> A -> res S) (xs : list A) (acc : S)
  : res S :=
  match xs with
  | [] => Ret acc
  | x :: xs' => acc' <- body acc x ;; for_each body xs' acc'
  end.

(** ** Python values *)

Definition pystr : Type := list Z.
Definition bytes : Type := list byte.

(** An ASCII literal as a Python string. *)
Definition lit (s : string) : pystr :=
  map (fun a => Z.of_N (N_of_ascii a)) (list_ascii_of_string s).

Inductive pyval : Type :=
| PyNone
| PyBool (b : bool)
| PyInt (n : Z)
| PyStr (s : pystr)
| PyBytes (b : bytes)
| PyObject (id : nat).

Definition byte_of_Z (z : Z) : byte :=
  match Byte.of_N (Z.to_N (z mod 256)) with
  | Some b => b
  | None => x00
  end.

Definition Z_of_byte (b : byte) : Z := Z.of_N (Byte.to_N b).

(** [range(n)]: empty when [n <= 0]. *)
Definition range (n : Z) : list Z := map Z.of_nat (seq 0 (Z.to_nat n)).

Definition in_range (lo hi c : Z) : bool := (lo <=? c) && (c <=? hi).

Definition mem (c : Z) (cs : list Z) : bool := existsb (Z.eqb c) cs.

(** [len(x)] as an [int]. *)
Definition len {A : Type} (l : list A) : Z := Z.of_nat (List.length l).

(** ** Characters *)

(** [str.isspace] on one character (the Unicode White_Space code points
    plus the four ASCII separators U+001C..U+001F). *)
Definition uc_isspace (c : Z) : bool :=
  in_range 9 13 c || in_range 28 32 c || (c =? 0x85) || (c =? 0xA0)
  || (c =? 0x1680) || in_range 0x2000 0x200A c || (c =? 0x2028)
  || (c =? 0x2029) || (c =? 0x202F) || (c =? 0x205F) || (c =? 0x3000).

(** C's [isspace] in the "C" locale, CPython's [Py_ISSPACE]. *)
Definition c_isspace (c : Z) : bool := in_range 9 13 c || (c =? 32).

(** A code point that UTF-8 can encode: not a surrogate, at most U+10FFFF. *)
Definition is_scalar (c : Z) : bool :=
  in_range 0 0xD7FF c || in_range 0xE000 0x10FFFF c.

(** [string.punctuation]: the 32 ASCII punctuation characters. *)
Definition punctuation : pystr :=
  [33; 34; 35; 36; 37; 38; 39; 40; 41; 42; 43; 44; 45; 46; 47;
   58; 59; 60; 61; 62; 63; 64;
   91; 92; 93; 94; 95; 96;
   123; 124; 125; 126].

(** The part of the Unicode character database the module consults through
    [str.isalnum], [str.isdigit], [int] and [str.lower].  The tables are
    Python's ([unicodedata]); the three laws hold of every Unicode version:
    alphanumeric characters are encodable and are not white space, and a
    decimal digit has a value from 0 to 9. *)
Class UnicodeData : Type := {
  uc_isalnum : Z -> bool;
  uc_isdigit : Z -> bool;
  uc_decimal : Z -> option Z;
  uc_lower : pystr -> pystr;
  uc_alnum_scalar : forall c, uc_isalnum c = true -> is_scalar c = true;
  uc_alnum_not_space : forall c, uc_isalnum c = true -> uc_isspace c = false;
  uc_decimal_range : forall c d, uc_decimal c = Some d -> 0 <= d <= 9
}.

(** ** Strings *)

Fixpoint dropwhile {A : Type} (p : A -> bool) (l : list A) : list A :=
  match l with
  | [] => []
  | x :: l' => if p x then dropwhile p l' else l
  end.

(** [s.strip(chars)] *)
Definition strip (chars : pystr) (s : pystr) : pystr :=
  let inset c := mem c chars in
  rev (dropwhile inset (rev (dropwhile inset s))).

(** [s.strip()] *)
Definition strip_ws (s : pystr) : pystr :=
  rev (dropwhile uc_isspace (rev (dropwhile uc_isspace s))).

(** [s.split()]: the maximal runs of non-space characters, in order.
    [word] holds the current run, reversed. *)
Fixpoint split_from (word : pystr) (s : pystr) : list pystr :=
  match s with
  | [] => match word with [] => [] | _ :: _ => [rev word] end
  | c :: s' =>
      if uc_isspace c
      then match word with
           | [] => split_from [] s'
           | _ :: _ => rev word :: split_from [] s'
           end
      else split_from (c :: word) s'
  end.

Definition split (s : pystr) : list pystr := split_from [] s.

(** [sep.join(words)] *)
Fixpoint join (sep : pystr) (words : list pystr) : pystr :=
  match words with
  | [] => []
  | [w] => w
  | w :: ws => w ++ sep ++ join sep ws
  end.

(** [s.count(c)] for a one-character [c]. *)
Definition count (c : Z) (s : pystr) : Z :=
  Z.of_nat (List.length (filter (Z.eqb c) s)).

(** [s.encode()]: UTF-8; a surrogate cannot be encoded. *)
Definition utf8_char (c : Z) : list byte :=
  if c <? 0x80 then [byte_of_Z c]
  else if c <? 0x800 then
    [byte_of_Z (0xC0 + Z.shiftr c 6); byte_of_Z (0x80 + Z.land c 0x3F)]
  else if c <? 0x10000 then
    [byte_of_Z (0xE0 + Z.shiftr c 12);
     byte_of_Z (0x80 + Z.land (Z.shiftr c 6) 0x3F);
     byte_of_Z (0x80 + Z.land c 0x3F)]
  else
    [byte_of_Z (0xF0 + Z.shiftr c 18);
     byte_of_Z (0x80 + Z.land (Z.shiftr c 12) 0x3F);
     byte_of_Z (0x80 + Z.land (Z.shiftr c 6) 0x3F);
     byte_of_Z (0x80 + Z.land c 0x3F)].

Fixpoint encode (s : pystr) : res bytes :=
  match s with
  | [] => Ret []
  | c :: s' =>
      if is_scalar c
      then (rest <- encode s' ;; Ret (utf8_char c ++ rest))
      else Raise UnicodeEncodeError
  end.

(** ** Integers and their textual forms *)

(** The digit character of [d] (0..35), lower case. *)
Definition digit_char (d : Z) : Z := if d <? 10 then 48 + d else 87 + d.

(** Digits of [n > 0] in [base], most significant first, in front of [acc]. *)
Fixpoint digits_from (base : Z) (fuel : nat) (n : Z) (acc : pystr) : pystr :=
  match fuel with
  | O => acc
  | S fuel' =>
      let acc' := digit_char (n mod base) :: acc in
      if n / base =? 0 then acc' else digits_from base fuel' (n / base) acc'
  end.

(** The digits of [n >= 0]; [0] is the single digit ["0"]. *)
Definition digits (base : Z) (n : Z) : pystr :=
  digits_from base (S (Z.to_nat (Z.log2 n))) n [].

Definition sign_prefix (n : Z) : pystr := if n <? 0 then lit "-" else [].

(** [sys.get_int_max_str_digits()]: by default CPython refuses to write an
    [int] of more than 4300 digits in decimal. *)
Definition int_max_str_digits : Z := 4300.

(** [str(n)] for an [int]. *)
Definition str_int (n : Z) : res pystr :=
  let ds := digits 10 (Z.abs n) in
  if int_max_str_digits <? len ds then Raise ValueError
  else Ret (sign_prefix n ++ ds).

(** [hex(n)] and [bin(n)]; the limit does not apply to these bases. *)
Definition hex (n : Z) : pystr := sign_prefix n ++ lit "0x" ++ digits 16 (Z.abs n).
Definition bin (n : Z) : pystr := sign_prefix n ++ lit "0b" ++ digits 2 (Z.abs n).

(** ** The quotient of two integers *)

(** The integer nearest to [x], the even one of two that are as near. *)
Definition round_half_even (x : Q) : Z :=
  let f := Qfloor x in
  match Qcompare (x - inject_Z f) (1 # 2) with
  | Lt => f
  | Gt => f + 1
  | Eq => if Z.even f then f else f + 1
  end.

(** The exponent of the [float] nearest to [x > 0]: the [e] with
    [2^e <= x < 2^(e+1)], found one below or at the difference of the
    bit lengths, and [-1022] for the subnormal numbers. *)
Definition float_exponent (x : Q) : Z :=
  let k := Z.log2 (Qnum x) - Z.log2 (Zpos (Qden x)) in
  Z.max (-1022) (if Qle_bool (2 ^ k) x then k else k - 1).

(** The [float] (IEEE 754 binary64, 53 bits) nearest to [x > 0], as the
    rational it is. *)
Definition nearest_float (x : Q) : Q :=
  let e := float_exponent x in
  (inject_Z (round_half_even (x * 2 ^ (52 - e))) * 2 ^ (e - 52))%Q.

(** [a / b] for two [int]s, [b] other than zero: CPython rounds the exact
    quotient to the nearest [float], ties to even.  (From [2^1024] on the
    quotient is no [float] and Python raises [OverflowError]; the one
    caller divides by the length a number that is the length less a count
    of bits, which is far from that.) *)
Definition true_divide (a b : Z) : Q :=
  if a =? 0 then 0%Q
  else Qred (inject_Z (Z.sgn a * Z.sgn b)
             * nearest_float (Z.abs a # Z.to_pos (Z.abs b))).

(** CPython's [_PyLong_DigitValue]. *)
Definition digit_value (c : Z) : option Z :=
  if in_range 48 57 c then Some (c - 48)
  else if in_range 97 122 c then Some (c - 87)
  else if in_range 65 90 c then Some (c - 55)
  else None.

Section WithUnicode.
Context {U : UnicodeData}.

(** [int(s, base)] first maps the string to ASCII: white space becomes a
    blank, a decimal digit of any script its ASCII digit, any other
    non-ASCII character a question mark. *)
Definition to_ascii (c : Z) : Z :=
  if c <? 127 then c
  else if uc_isspace c then 32
  else match uc_decimal c with
       | Some d => 48 + d
       | None => 63
       end.

(** The digit loop of [PyLong_FromString]: digits below [base], single
    underscores between them.  [prev_us]: the previous character was an
    underscore; [seen]: a digit was read.  Returns the value, [seen] and
    the unread rest, or [None] on a doubled or trailing underscore. *)
Fixpoint digit_loop (base : Z) (prev_us seen : bool) (acc : Z) (s : pystr)
  : option (Z * bool * pystr) :=
  let stop := if prev_us then None else Some (acc, seen, s) in
  match s with
  | [] => stop
  | c :: s' =>
      if c =? 95 then
        if prev_us then None else digit_loop base true seen acc s'
      else
        match digit_value c with
        | Some d =>
            if d <? base then digit_loop base false true (acc * base + d) s'
            else stop
        | None => stop
        end
  end.

(** An optional sign. *)
Definition take_sign (s : pystr) : Z * pystr :=
  match s with
  | c :: s' =>
      if c =? 43 then (1, s') else if c =? 45 then (-1, s') else (1, s)
  | [] => (1, s)
  end.

(** In base 16 a prefix [0x] or [0X] is skipped, and one underscore after
    it. *)
Definition skip_prefix (base : Z) (s : pystr) : pystr :=
  match s with
  | c :: x :: s' =>
      if (c =? 48) && (base =? 16) && ((x =? 120) || (x =? 88))
      then match s' with
           | u :: s'' => if u =? 95 then s'' else s'
           | [] => s'
           end
      else s
  | _ => s
  end.

Definition starts_with (c : Z) (s : pystr) : bool :=
  match s with
  | x :: _ => x =? c
  | [] => false
  end.

(** [int(s, base)] for [base] 10 or 16; [None] stands for [ValueError].
    (The limit on the length of decimal literals, 4300 digits by default,
    is left out: the module parses base 10 only up to 22 characters.) *)
Definition parse_int (base : Z) (s : pystr) : option Z :=
  let s := dropwhile c_isspace (map to_ascii s) in
  let '(sign, s) := take_sign s in
  let s := skip_prefix base s in
  if starts_with 95 s then None
  else
    match digit_loop base false false 0 s with
    | Some (v, true, rest) =>
        match dropwhile c_isspace rest with
        | [] => Some (sign * v)
        | _ :: _ => None
        end
    | _ => None
    end.

(** [s.isdigit()], [s.isalnum()]: every character, and at least one. *)
Definition isdigit (s : pystr) : bool :=
  negb (Nat.eqb (List.length s) 0) && forallb uc_isdigit s.

Definition isalnum (s : pystr) : bool :=
  negb (Nat.eqb (List.length s) 0) && forallb uc_isalnum s.

End WithUnicode.

(** ** [hashlib.blake2b] (RFC 7693, unkeyed, sequential mode) *)

Module Blake2b.

Definition w64 (x : Z) : Z := x mod 2 ^ 64.

Definition rotr64 (x n : Z) : Z :=
  Z.lor (Z.shiftr x n) (w64 (Z.shiftl x (64 - n))).

Definition IV : list Z :=
  [0x6a09e667f3bcc908; 0xbb67ae8584caa73b; 0x3c6ef372fe94f82b;
   0xa54ff53a5f1d36f1; 0x510e527fade682d1; 0x9b05688c2b3e6c1f;
   0x1f83d9abfb41bd6b; 0x5be0cd19137e2179].

Definition SIGMA : list (list nat) :=
  [[0; 1; 2; 3; 4; 5; 6; 7; 8; 9; 10; 11; 12; 13; 14; 15];
   [14; 10; 4; 8; 9; 15; 13; 6; 1; 12; 0; 2; 11; 7; 5; 3];
   [11; 8; 12; 0; 5; 2; 15; 13; 10; 14; 3; 6; 7; 1; 9; 4];
   [7; 9; 3; 1; 13; 12; 11; 14; 2; 6; 5; 10; 4; 0; 15; 8];
   [9; 0; 5; 7; 2; 4; 10; 15; 14; 1; 11; 12; 6; 8; 3; 13];
   [2; 12; 6; 10; 0; 11; 8; 3; 4; 13; 7; 5; 15; 14; 1; 9];
   [12; 5; 1; 15; 14; 13; 4; 10; 0; 7; 6; 3; 9; 2; 8; 11];
   [13; 11; 7; 14; 12; 1; 3; 9; 5; 0; 15; 4; 8; 6; 2; 10];
   [6; 15; 14; 9; 11; 3; 0; 8; 12; 2; 13; 7; 1; 4; 10; 5];
   [10; 2; 8; 4; 7; 6; 1; 5; 15; 11; 9; 14; 3; 12; 13; 0]]%nat.

(** The twelve rounds use the schedules 0..9, then 0 and 1 again. *)
Definition schedule : list (list nat) := SIGMA ++ firstn 2 SIGMA.

Definition upd (i : nat) (x : Z) (v : list Z) : list Z :=
  firstn i v ++ x :: skipn (S i) v.

Definition G (v : list Z) (a b c d : nat) (x y : Z) : list Z :=
  let va := nth a v 0 in let vb := nth b v 0 in
  let vc := nth c v 0 in let vd := nth d v 0 in
  let va := w64 (va + vb + x) in
  let vd := rotr64 (Z.lxor vd va) 32 in
  let vc := w64 (vc + vd) in
  let vb := rotr64 (Z.lxor vb vc) 24 in
  let va := w64 (va + vb + y) in
  let vd := rotr64 (Z.lxor vd va) 16 in
  let vc := w64 (vc + vd) in
  let vb := rotr64 (Z.lxor vb vc) 63 in
  upd d vd (upd c vc (upd b vb (upd a va v))).

Definition round (m : list Z) (v : list Z) (s : list nat) : list Z :=
  let w k := nth (nth k s 0%nat) m 0 in
  let v := G v 0 4 8 12 (w 0%nat) (w 1%nat) in
  let v := G v 1 5 9 13 (w 2%nat) (w 3%nat) in
  let v := G v 2 6 10 14 (w 4%nat) (w 5%nat) in
  let v := G v 3 7 11 15 (w 6%nat) (w 7%nat) in
  let v := G v 0 5 10 15 (w 8%nat) (w 9%nat) in
  let v := G v 1 6 11 12 (w 10%nat) (w 11%nat) in
  let v := G v 2 7 8 13 (w 12%nat) (w 13%nat) in
  G v 3 4 9 14 (w 14%nat) (w 15%nat).

(** The compression function [F]: chaining value [h], message words [m],
    byte counter [t], final-block flag. *)
Definition compress (h m : list Z) (t : Z) (final : bool) : list Z :=
  let v := h ++ IV in
  let v := upd 12 (Z.lxor (nth 12 v 0) (w64 t)) v in
  let v := upd 13 (Z.lxor (nth 13 v 0) (w64 (Z.shiftr t 64))) v in
  let v := if final then upd 14 (Z.lxor (nth 14 v 0) (2 ^ 64 - 1)) v else v in
  let v := fold_left (round m) schedule v in
  map (fun i => Z.lxor (nth i h 0) (Z.lxor (nth i v 0) (nth (i + 8) v 0)))
      (seq 0 8).

(** Little-endian words. *)
Definition word_of_bytes (bs : bytes) : Z :=
  fold_right (fun b acc => Z_of_byte b + 256 * acc) 0 bs.

Definition bytes_of_word (w : Z) : bytes :=
  map (fun k => byte_of_Z (Z.shiftr w (8 * Z.of_nat k))) (seq 0 8).

(** The sixteen words of a block, zero-padded to 128 bytes. *)
Definition block_words (block : bytes) : list Z :=
  let padded := block ++ repeat x00 (128 - List.length block) in
  map (fun k => word_of_bytes (firstn 8 (skipn (8 * k) padded))) (seq 0 16).

(** Absorb the message; the last block, possibly empty or partial, is the
    final one. *)
Fixpoint absorb (fuel : nat) (h : list Z) (t : Z) (data : bytes) : list Z :=
  match fuel with
  | O => h
  | S fuel' =>
      if (List.length data <=? 128)%nat
      then compress h (block_words data) (t + Z.of_nat (List.length data)) true
      else absorb fuel'
             (compress h (block_words (firstn 128 data)) (t + 128) false)
             (t + 128) (skipn 128 data)
  end.

Definition state (data : bytes) (digest_size : Z) : list Z :=
  let h0 := upd 0 (Z.lxor (nth 0 IV 0) (Z.lxor 0x01010000 digest_size)) IV in
  absorb (S (List.length data)) h0 0 data.

(** [blake2b(data, digest_size=n).digest()] *)
Definition digest (data : bytes) (digest_size : Z) : res bytes :=
  if in_range 1 64 digest_size
  then Ret (firstn (Z.to_nat digest_size)
              (List.concat (map bytes_of_word (state data digest_size))))
  else Raise ValueError.

End Blake2b.

(** [int.from_bytes(b, "big")] *)
Definition from_bytes_big (b : bytes) : Z :=
  fold_left (fun acc x => 256 * acc + Z_of_byte x) b 0.

(** [base64.urlsafe_b64encode(b).decode()]: the alphabet [A-Za-z0-9-_],
    padded with [=]. *)
Definition b64_char (i : Z) : Z :=
  if i <? 26 then 65 + i
  else if i <? 52 then 97 + (i - 26)
  else if i <? 62 then 48 + (i - 52)
  else if i =? 62 then 45
  else 95.

Fixpoint urlsafe_b64encode (b : bytes) : pystr :=
  match b with
  | [] => []
  | [x] =>
      let n := Z_of_byte x in
      [b64_char (Z.shiftr n 2); b64_char (Z.shiftl (Z.land n 3) 4); 61; 61]
  | [x; y] =>
      let n := Z_of_byte x in
      let m := Z_of_byte y in
      [b64_char (Z.shiftr n 2);
       b64_char (Z.lor (Z.shiftl (Z.land n 3) 4) (Z.shiftr m 4));
       b64_char (Z.shiftl (Z.land m 15) 2); 61]
  | x :: y :: z :: rest =>
      let n := Z_of_byte x in
      let m := Z_of_byte y in
      let k := Z_of_byte z in
      b64_char (Z.shiftr n 2)
      :: b64_char (Z.lor (Z.shiftl (Z.land n 3) 4) (Z.shiftr m 4))
      :: b64_char (Z.lor (Z.shiftl (Z.land m 15) 2) (Z.shiftr k 6))
      :: b64_char (Z.land k 63)
      :: urlsafe_b64encode rest
  end.

(** [list(map(add, xs, ys))]: stops with the shorter list. *)
Fixpoint map2 {A B C : Type} (f : A -> B -> C) (xs : list A) (ys : list B)
  : list C :=
  match xs, ys with
  | x :: xs', y :: ys' => f x y :: map2 f xs' ys'
  | _, _ => []
  end.

(** [sum(xs)] *)
Definition sum (xs : list Z) : Z := fold_left Z.add xs 0.

(** * The module [hashing.py] *)

Section Hashing.
Context {U : UnicodeData}.

(** A character of the class [[\w-]]: [\w] on a [str] pattern is an
    alphanumeric character or the underscore. *)
Definition word_char (c : Z) : bool := uc_isalnum c || (c =? 95) || (c =? 45).

(** [re.findall(r"[\w-]{3,}", s)]: the greedy quantifier takes a whole run
    of class characters, so the matches are the maximal runs of length at
    least three.  [run] holds the current run, reversed. *)
Definition emit (run : pystr) : list pystr :=
  if 3 <=? len run then [rev run] else [].

Fixpoint findall_from (run : pystr) (s : pystr) : list pystr :=
  match s with
  | [] => emit run
  | c :: s' =>
      if word_char c then findall_from (c :: run) s'
      else emit run ++ findall_from [] s'
  end.

Definition findall_words (s : pystr) : list pystr := findall_from [] s.

(** ** class Simhash *)

Record Simhash : Type := { hash : Z; length : Z }.

(** The [for i in range(4, -1, -1)] loop of [_sample_tokens];
    [len(sample) >= self.length / 2] compares an [int] with the quotient,
    a [float] that is exact for every length below [2^53], that is
    [2 * len(sample) >= self.length]. *)
Fixpoint sample_loop (length : Z) (tokens : list pystr) (thresholds : list Z)
  (sample : list pystr) : list pystr :=
  match thresholds with
  | [] => sample
  | i :: thresholds' =>
      let sample := filter (fun t => i <? len t) tokens in
      if length <=? 2 * len sample then sample
      else sample_loop length tokens thresholds' sample
  end.

Definition _sample_tokens (length : Z) (inputstring : pystr) : list pystr :=
  let tokens := filter isalnum (map (strip punctuation) (split inputstring)) in
  sample_loop length tokens [4; 3; 2; 1; 0] [].

Definition _hash (s : pystr) : res Z :=
  b <- encode s ;;
  d <- Blake2b.digest b 8 ;;
  Ret (from_bytes_big d).

(** The [lru_cache] only memoises: the list it returns is never mutated. *)
Definition _vector_to_add (length : Z) (token : pystr) : res (list Z) :=
  the_hash <- _hash token ;;
  Ret (map (fun i => if negb (Z.land the_hash (Z.shiftl 1 i) =? 0) then 1 else -1)
         (range length)).

Definition create_hash (length : Z) (inputstring : pystr) : res Z :=
  vector <- for_each
              (fun vector token =>
                 v <- _vector_to_add length token ;; Ret (map2 Z.add vector v))
              (_sample_tokens length inputstring)
              (repeat 0 (Z.to_nat length)) ;;
  Ret (sum (map (fun i => Z.shiftl 1 i)
              (filter (fun i => 0 <=? nth (Z.to_nat i) vector 0) (range length)))).

Definition to_hex (self : Simhash) : pystr := skipn 2 (hex (hash self)).

(** [int(inputhash, 16)], [None] on [ValueError]; the only caller passes a
    [str]. *)
Definition _hash_to_int (inputhash : pystr) : option Z := parse_int 16 inputhash.

(** [validate] does not read [self].  A [bool] is an [int] whose [str] is
    ["True"] or ["False"], never 16 characters long. *)
Definition validate (inputhash : pyval) : res (option Z) :=
  match inputhash with
  | PyInt n =>
      s <- str_int n ;;
      if len s =? 16 then Ret (Some n) else Ret None
  | PyStr s =>
      if isdigit s && (18 <=? len s) && (len s <=? 22)
      then match parse_int 10 s with
           | Some n => Ret (Some n)
           | None => Raise ValueError
           end
      else Ret (_hash_to_int s)
  | PyNone | PyBool _ | PyBytes _ | PyObject _ => Ret None
  end.

(** [self.hash = self.validate(existing_hash) or self.create_hash(inputstring)]:
    [None] and [0] are both false. *)
Definition __init__ (inputstring : pystr) (length : Z) (existing_hash : pyval)
  : res Simhash :=
  validated <- validate existing_hash ;;
  h <- match validated with
       | Some n => if n =? 0 then create_hash length inputstring else Ret n
       | None => create_hash length inputstring
       end ;;
  Ret {| hash := h; length := length |}.

Definition hamming_distance (self other_hash : Simhash) : Z :=
  count 49 (bin (Z.lxor (hash self) (hash other_hash))).

(** The result is a [float], given as the rational it is. *)
Definition similarity (self other_hash : Simhash) : res Q :=
  if length self =? 0 then Raise ZeroDivisionError
  else Ret (true_divide (length self - hamming_distance self other_hash)
              (length self)).

(** ** Module-level functions *)

Definition generate_bow_hash (string : pystr) (length : Z) : res bytes :=
  let words := findall_words (uc_lower string) in
  let teststring := strip_ws (join (lit " ") words) in
  b <- encode teststring ;;
  Blake2b.digest b length.

Definition generate_hash_filename (content : pystr) : res pystr :=
  d <- generate_bow_hash content 12 ;;
  Ret (urlsafe_b64encode d).

Definition content_fingerprint (content : pystr) : res pystr :=
  h <- __init__ content 64 PyNone ;;
  Ret (to_hex h).

End Hashing.

(** ** The character tables below U+0100

    Python's tables restricted to Latin-1, for running the functions on
    concrete strings of that range; outside of it no character is
    alphanumeric or a digit and [lower] changes nothing. *)
Module Latin1.

Definition isalnum (c : Z) : bool :=
  in_range 48 57 c || in_range 65 90 c || in_range 97 122 c
  || (c =? 0xAA) || (c =? 0xB2) || (c =? 0xB3) || (c =? 0xB5) || (c =? 0xB9)
  || (c =? 0xBA) || in_range 0xBC 0xBE c || in_range 0xC0 0xD6 c
  || in_range 0xD8 0xF6 c || in_range 0xF8 0xFF c.

Definition isdigit (c : Z) : bool :=
  in_range 48 57 c || (c =? 0xB2) || (c =? 0xB3) || (c =? 0xB9).

Definition decimal (c : Z) : option Z :=
  if in_range 48 57 c then Some (c - 48) else None.

Definition lower_char (c : Z) : Z :=
  if in_range 65 90 c || (in_range 0xC0 0xDE c && negb (c =? 0xD7))
  then c + 32 else c.

Definition lower (s : pystr) : pystr := map lower_char s.

End Latin1.

(** * The URL store and the download buffer *)

Module UrlStore.

Open Scope string_scope.

(** Modelled from the spec: [add_to_compressed_dict] and
    [load_download_buffer] live in [trafilatura.downloads], on top of
    [courlan.UrlStore], outside of the sources at hand; only their test
    [test_queue] is.  The model follows sections 3 and 4.5 of the spec and
    its glossary: a store maps an origin (scheme and host, with the port)
    to the ordered sequence of its pending paths and a last-access time
    stamp, unset at first; a URL is normalised in its scheme and host,
    which are read without regard to case; a URL without a recognised
    scheme ([http://], [https://]) or without a host is dropped; a URL is
    stored once, by its normalised form.  Times are in milliseconds. *)
Record bucket : Type := { pending : list string; last_access : option Z }.

Definition store : Type := list (string * bucket).

Definition origins (s : store) : list string := map fst s.

(** Upper-case ASCII letters in lower case. *)
Definition lower_ascii (c : ascii) : ascii :=
  let n := nat_of_ascii c in
  if (65 <=? n)%nat && (n <=? 90)%nat then ascii_of_nat (n + 32) else c.

Fixpoint lower (s : string) : string :=
  match s with
  | EmptyString => EmptyString
  | String c s' => String (lower_ascii c) (lower s')
  end.

(** The host (with the port) ends at the first [/], [?] or [#]. *)
Fixpoint split_host (s : string) : string * string :=
  match s with
  | EmptyString => (EmptyString, EmptyString)
  | String c s' =>
      if Ascii.eqb c "/" || Ascii.eqb c "?" || Ascii.eqb c "#"
      then (EmptyString, s)
      else let (host, rest) := split_host s' in (String c host, rest)
  end.

(** The rest of [u] after the scheme [p], if [u] starts with it in
    whatever case. *)
Definition after_scheme (p u : string) : option string :=
  if String.eqb (lower (String.substring 0 (String.length p) u)) p
  then Some (String.substring (String.length p)
               (String.length u - String.length p) u)
  else None.

(** The origin and the path of a URL in normal form; [None] for a URL
    that is dropped.  An empty path is the path [/]. *)
Definition split_url (u : string) : option (string * string) :=
  let with_scheme scheme :=
    match after_scheme scheme u with
    | Some rest =>
        let (host, path) := split_host rest in
        if String.eqb host "" then None
        else Some (scheme ++ lower host,
                   if String.eqb path "" then "/" else path)
    | None => None
    end in
  match with_scheme "https://" with
  | Some r => Some r
  | None => with_scheme "http://"
  end.

(** The origin of a URL that is kept. *)
Definition origin_of (u : string) : option string :=
  option_map fst (split_url u).

(** The URLs of a list that are on the origin [o]. *)
Definition on_origin (o : string) (urls : list string) : list string :=
  filter (fun u => match origin_of u with
                   | Some o' => String.eqb o' o
                   | None => false
                   end) urls.

Fixpoint add_url (origin path : string) (s : store) : store :=
  match s with
  | [] => [(origin, {| pending := [path]; last_access := None |})]
  | (o, b) :: s' =>
      if String.eqb o origin
      then (o, if existsb (String.eqb path) (pending b) then b
               else {| pending := (pending b ++ [path])%list;
                       last_access := last_access b |}) :: s'
      else (o, b) :: add_url origin path s'
  end.

(** Modelled from the spec: [add_to_store(urls)] of section 4.5 drops the
    URLs it cannot normalise, stores a URL once and partitions by
    origin. *)
Definition add_to_store (urls : list string) : store :=
  fold_left (fun s u =>
               match split_url u with
               | Some (origin, path) => add_url origin path s
               | None => s
               end) urls [].

(** An origin may be visited when it was never visited or at least the
    politeness interval ago. *)
Definition rested (now interval : Z) (b : bucket) : bool :=
  match last_access b with
  | None => true
  | Some t => (interval <=? now - t)%Z
  end.

(** Modelled from the spec: [load_buffer(store, politeness_interval)] of
    section 4.5 at time [now] gives one pending URL of every origin that
    may be visited, and the store in which these origins were accessed
    now. *)
Fixpoint load_buffer (now interval : Z) (s : store)
  : list (string * string) * store :=
  match s with
  | [] => ([], [])
  | (o, b) :: s' =>
      let (batch, rest) := load_buffer now interval s' in
      match pending b with
      | p :: ps =>
          if rested now interval b
          then ((o, p) :: batch,
                (o, {| pending := ps; last_access := Some now |}) :: rest)
          else (batch, (o, b) :: rest)
      | [] => (batch, (o, b) :: rest)
      end
  end.

(** The batches of successive calls, each with its time and interval. *)
Fixpoint batches (calls : list (Z * Z)) (s : store)
  : list (list (string * string)) :=
  match calls with
  | [] => []
  | (now, interval) :: calls' =>
      let (batch, s') := load_buffer now interval s in
      batch :: batches calls' s'
  end.

(** A store nobody has read from yet: every origin has a pending URL and
    no time stamp. *)
Definition fresh (s : store) : Prop :=
  Forall (fun ob => pending (snd ob) <> [] /\ last_access (snd ob) = None) s.

(** The input of [test_queue]:
    [f'https://test{i}.org/{j}' for i in range(1, 7) for j in range(1, 4)]. *)
Definition inputurls : list string :=
  flat_map (fun i => map (fun j => "https://test" ++ i ++ ".org/" ++ j)
                       ["1"; "2"; "3"])
    ["1"; "2"; "3"; "4"; "5"; "6"].

End UrlStore.

(** * Decompression *)

Module Decode.

(** [handle_compressed_file] lives in [trafilatura.utils], outside of
    the sources at hand; only its test [test_decode] is.  After sections
    4.4, 6 and 7 of the spec the routine tries the decoders the runtime
    has (gzip and deflate, brotli and zstd when installed); input that
    none of them accepts is returned unchanged, and nothing is raised.
    The test also passes a [str]: what is not [bytes] is returned as it
    is.  The decoders of gzip and deflate are [gzip.decompress] and
    [zlib.decompress] of Python, after RFC 1952, 1950 and 1951; those of
    brotli and zstd are left to the caller. *)

(** A decoder answers [None] where the library raises. *)
Record codec : Type := { name : string; decompress : bytes -> option bytes }.

Fixpoint first_success (codecs : list codec) (b : bytes) : option bytes :=
  match codecs with
  | [] => None
  | c :: codecs' =>
      match decompress c b with
      | Some out => Some out
      | None => first_success codecs' b
      end
  end.

(** *** Deflate (RFC 1951), as zlib inflates it *)

(** The bits of the stream, the lowest bit of a byte first. *)
Definition bits_of_byte (b : byte) : list bool :=
  map (Z.testbit (Z_of_byte b)) (range 8).

Definition bits_of (bs : bytes) : list bool := flat_map bits_of_byte bs.

(** A number of [n] bits, lowest bit first. *)
Fixpoint read_bits (n : nat) (s : list bool) : option (Z * list bool) :=
  match n with
  | O => Some (0, s)
  | S n' =>
      match s with
      | [] => None
      | b :: s' =>
          match read_bits n' s' with
          | Some (v, rest) => Some ((if b then 1 else 0) + 2 * v, rest)
          | None => None
          end
      end
  end.

(** A canonical Huffman code: the symbols of code length 1, 2, ..., 15,
    each list in increasing order. *)
Definition huffman : Type := list (list Z).

Definition table (lens : list Z) : huffman :=
  map (fun l => filter (fun sym => nth (Z.to_nat sym) lens 0 =? l)
                  (range (len lens)))
    (map Z.of_nat (seq 1 15)).

(** The code space left after the codes of each length; [None] when the
    lengths ask for more codes than there are. *)
Fixpoint code_space (space : Z) (h : huffman) : option Z :=
  match h with
  | [] => Some space
  | syms :: h' =>
      let space' := 2 * space - len syms in
      if space' <? 0 then None else code_space space' h'
  end.

(** zlib accepts a set of code lengths that uses the code space exactly,
    a set without any code, and (but for the code of the code lengths) a
    single code of one bit. *)
Definition valid_table (for_lengths : bool) (h : huffman) : bool :=
  match code_space 1 h with
  | None => false
  | Some space =>
      (space =? 0)
      || forallb (fun syms => len syms =? 0) h
      || (negb for_lengths
          && match h with
             | [_] :: rest => forallb (fun syms => len syms =? 0) rest
             | _ => false
             end)
  end.

(** One symbol: the bits are read until they are the code of a symbol,
    shorter codes first. *)
Fixpoint decode_symbol (h : huffman) (code first : Z) (s : list bool)
  : option (Z * list bool) :=
  match h with
  | [] => None
  | syms :: h' =>
      match s with
      | [] => None
      | b :: s' =>
          let code := code + (if b then 1 else 0) in
          let count := len syms in
          if code - count <? first
          then Some (nth (Z.to_nat (code - first)) syms 0, s')
          else decode_symbol h' (2 * code) (2 * (first + count)) s'
      end
  end.

Definition length_base : list Z :=
  [3; 4; 5; 6; 7; 8; 9; 10; 11; 13; 15; 17; 19; 23; 27; 31; 35; 43; 51; 59;
   67; 83; 99; 115; 131; 163; 195; 227; 258].
Definition length_extra : list nat :=
  [0; 0; 0; 0; 0; 0; 0; 0; 1; 1; 1; 1; 2; 2; 2; 2; 3; 3; 3; 3; 4; 4; 4; 4;
   5; 5; 5; 5; 0]%nat.
Definition distance_base : list Z :=
  [1; 2; 3; 4; 5; 7; 9; 13; 17; 25; 33; 49; 65; 97; 129; 193; 257; 385; 513;
   769; 1025; 1537; 2049; 3073; 4097; 6145; 8193; 12289; 16385; 24577].
Definition distance_extra : list nat :=
  [0; 0; 0; 0; 1; 1; 2; 2; 3; 3; 4; 4; 5; 5; 6; 6; 7; 7; 8; 8; 9; 9; 10; 10;
   11; 11; 12; 12; 13; 13]%nat.

(** [n] bytes copied from [d] bytes back; [out] is the output so far, the
    last byte first. *)
Fixpoint copy_back (n : nat) (d : nat) (out : bytes) : bytes :=
  match n with
  | O => out
  | S n' => copy_back n' d (nth (d - 1) out "000"%byte :: out)
  end.

(** The symbols of a block with the codes [lit] and [dist], up to the
    end-of-block symbol 256. *)
Fixpoint inflate_codes (fuel : nat) (lit dist : huffman) (s : list bool)
  (out : bytes) : option (list bool * bytes) :=
  match fuel with
  | O => None
  | S fuel' =>
      match decode_symbol lit 0 0 s with
      | None => None
      | Some (sym, s1) =>
          if sym <? 256
          then inflate_codes fuel' lit dist s1 (byte_of_Z sym :: out)
          else if sym =? 256 then Some (s1, out)
          else if 285 <? sym then None
          else
            let i := Z.to_nat (sym - 257) in
            match read_bits (nth i length_extra O) s1 with
            | None => None
            | Some (extra, s2) =>
                let size := nth i length_base 0 + extra in
                match decode_symbol dist 0 0 s2 with
                | None => None
                | Some (dsym, s3) =>
                    if 29 <? dsym then None
                    else
                      let j := Z.to_nat dsym in
                      match read_bits (nth j distance_extra O) s3 with
                      | None => None
                      | Some (dextra, s4) =>
                          let d := nth j distance_base 0 + dextra in
                          if len out <? d then None
                          else inflate_codes fuel' lit dist s4
                                 (copy_back (Z.to_nat size) (Z.to_nat d) out)
                      end
                end
            end
      end
  end.

(** The fixed codes of block type 1. *)
Definition fixed_lit : huffman :=
  table (repeat 8 144 ++ repeat 9 112 ++ repeat 7 24 ++ repeat 8 8).
Definition fixed_dist : huffman := table (repeat 5 30).

(** A stored block: the rest of the byte is skipped, then come the size,
    its complement and the bytes. *)
Definition stored_block (s : list bool) (out : bytes)
  : option (list bool * bytes) :=
  let s := skipn (Nat.modulo (List.length s) 8) s in
  match read_bits 16 s with
  | None => None
  | Some (size, s1) =>
      match read_bits 16 s1 with
      | None => None
      | Some (nsize, s2) =>
          if negb (size + nsize =? 0xFFFF) then None
          else if len s2 <? 8 * size then None
          else
            let fix take (n : nat) (s : list bool) (out : bytes) :=
              match n with
              | O => Some (s, out)
              | S n' =>
                  match read_bits 8 s with
                  | Some (v, s') => take n' s' (byte_of_Z v :: out)
                  | None => None
                  end
              end in
            take (Z.to_nat size) s2 out
      end
  end.

(** The order in which a dynamic block gives the lengths of the code of
    the code lengths. *)
Definition length_order : list nat :=
  [16; 17; 18; 0; 8; 7; 9; 6; 10; 5; 11; 4; 12; 3; 13; 2; 14; 1; 15]%nat.

Fixpoint read_code_lengths (n : nat) (order : list nat) (s : list bool)
  (lens : list Z) : option (list Z * list bool) :=
  match n, order with
  | O, _ => Some (lens, s)
  | S n', i :: order' =>
      match read_bits 3 s with
      | Some (v, s') =>
          read_code_lengths n' order' s'
            (firstn i lens ++ v :: skipn (S i) lens)
      | None => None
      end
  | S _, [] => None
  end.

(** The code lengths of the two codes of a dynamic block, [total] of
    them, with the repeat symbols 16, 17 and 18; [lens] holds the lengths
    read so far, the last first. *)
Fixpoint read_lengths (fuel : nat) (h : huffman) (total : Z) (s : list bool)
  (lens : list Z) : option (list Z * list bool) :=
  if total <=? len lens then Some (rev lens, s)
  else
    match fuel with
    | O => None
    | S fuel' =>
        match decode_symbol h 0 0 s with
        | None => None
        | Some (sym, s1) =>
            if sym <? 16 then read_lengths fuel' h total s1 (sym :: lens)
            else
              let '(bits, base, value) :=
                if sym =? 16 then (2%nat, 3, hd (-1) lens)
                else if sym =? 17 then (3%nat, 3, 0)
                else (7%nat, 11, 0) in
              if value <? 0 then None
              else
                match read_bits bits s1 with
                | None => None
                | Some (extra, s2) =>
                    let n := base + extra in
                    if total <? len lens + n then None
                    else read_lengths fuel' h total s2
                           (repeat value (Z.to_nat n) ++ lens)
                end
        end
    end.

(** The two codes of a dynamic block. *)
Definition dynamic_tables (s : list bool)
  : option (huffman * huffman * list bool) :=
  match read_bits 5 s with
  | None => None
  | Some (hlit, s1) =>
      match read_bits 5 s1 with
      | None => None
      | Some (hdist, s2) =>
          match read_bits 4 s2 with
          | None => None
          | Some (hclen, s3) =>
              let nlen := hlit + 257 in
              let ndist := hdist + 1 in
              if (286 <? nlen) || (30 <? ndist) then None
              else
                match read_code_lengths (Z.to_nat (hclen + 4)) length_order s3
                        (repeat 0 19) with
                | None => None
                | Some (cl, s4) =>
                    let h := table cl in
                    if negb (valid_table true h) then None
                    else
                      match read_lengths (S (List.length s4)) h (nlen + ndist)
                              s4 [] with
                      | None => None
                      | Some (lens, s5) =>
                          let ll := firstn (Z.to_nat nlen) lens in
                          let dl := skipn (Z.to_nat nlen) lens in
                          if nth 256 ll 0 =? 0 then None
                          else if negb (valid_table false (table ll)) then None
                          else if negb (valid_table false (table dl)) then None
                          else Some (table ll, table dl, s5)
                      end
                end
          end
      end
  end.

(** The blocks of a stream, up to the one marked as the last. *)
Fixpoint inflate_blocks (fuel : nat) (s : list bool) (out : bytes)
  : option (list bool * bytes) :=
  match fuel with
  | O => None
  | S fuel' =>
      match read_bits 3 s with
      | None => None
      | Some (header, s1) =>
          let final := Z.testbit header 0 in
          let block :=
            match Z.shiftr header 1 with
            | 0 => stored_block s1 out
            | 1 => inflate_codes (S (List.length s1)) fixed_lit fixed_dist s1 out
            | 2 =>
                match dynamic_tables s1 with
                | Some (lit, dist, s2) =>
                    inflate_codes (S (List.length s2)) lit dist s2 out
                | None => None
                end
            | _ => None
            end in
          match block with
          | None => None
          | Some (s2, out2) =>
              if final then Some (s2, out2) else inflate_blocks fuel' s2 out2
          end
      end
  end.

(** A raw deflate stream at the head of [bs]: the data and the bytes
    that follow the stream. *)
Definition inflate (bs : bytes) : option (bytes * bytes) :=
  let s := bits_of bs in
  match inflate_blocks (S (List.length s)) s [] with
  | Some (rest, out) =>
      Some (rev out, skipn (List.length bs - Nat.div (List.length rest) 8) bs)
  | None => None
  end.

(** *** gzip (RFC 1952), as [gzip.decompress] reads it *)

Definition crc32_step (c : Z) : Z :=
  if Z.testbit c 0 then Z.lxor (Z.shiftr c 1) 0xEDB88320 else Z.shiftr c 1.

Definition crc32_byte (c : Z) (b : byte) : Z :=
  Nat.iter 8 crc32_step (Z.lxor c (Z_of_byte b)).

Definition crc32 (bs : bytes) : Z :=
  Z.lxor (fold_left crc32_byte bs 0xFFFFFFFF) 0xFFFFFFFF.

(** A little-endian number. *)
Definition word_le (bs : bytes) : Z :=
  fold_right (fun b acc => Z_of_byte b + 256 * acc) 0 bs.

Fixpoint skip_zero_terminated (bs : bytes) : bytes :=
  match bs with
  | [] => []
  | b :: bs' => if Z_of_byte b =? 0 then bs' else skip_zero_terminated bs'
  end.

(** The magic number of a gzip member. *)
Definition gzip_magic (bs : bytes) : bool :=
  match bs with
  | id1 :: id2 :: _ => (Z_of_byte id1 =? 0x1f) && (Z_of_byte id2 =? 0x8b)
  | _ => false
  end.

(** The bytes after the header of a member: ten bytes, then the extra
    field, the name, the comment and the header check sum that the flags
    announce. *)
Definition gzip_header (bs : bytes) : option bytes :=
  if negb (gzip_magic bs) then None
  else
    match bs with
    | _ :: _ :: cm :: flg :: _ :: _ :: _ :: _ :: _ :: _ :: rest =>
        if negb (Z_of_byte cm =? 8) then None
        else
          let flag := Z_of_byte flg in
          let after_extra :=
            if Z.testbit flag 2
            then match rest with
                 | l0 :: l1 :: r =>
                     if len r <? word_le [l0; l1] then None
                     else Some (skipn (Z.to_nat (word_le [l0; l1])) r)
                 | _ => None
                 end
            else Some rest in
          match after_extra with
          | None => None
          | Some r1 =>
              let r2 := if Z.testbit flag 3 then skip_zero_terminated r1 else r1 in
              let r3 := if Z.testbit flag 4 then skip_zero_terminated r2 else r2 in
              if Z.testbit flag 1
              then match r3 with
                   | _ :: _ :: r => Some r
                   | _ => None
                   end
              else Some r3
          end
    | _ => None
    end.

(** The members of a gzip file, one after the other, with zero bytes
    between them. *)
Fixpoint gunzip_members (fuel : nat) (data : bytes) (acc : bytes)
  : option bytes :=
  match data, fuel with
  | [], _ => Some acc
  | _, O => None
  | _, S fuel' =>
      match gzip_header data with
      | None => None
      | Some body =>
          match inflate body with
          | None => None
          | Some (out, unused) =>
              if len unused <? 8 then None
              else if negb (word_le (firstn 4 unused) =? crc32 out) then None
              else if negb (word_le (firstn 4 (skipn 4 unused))
                            =? len out mod 2 ^ 32) then None
              else gunzip_members fuel'
                     (dropwhile (fun b => Z_of_byte b =? 0) (skipn 8 unused))
                     (acc ++ out)
          end
      end
  end.

(** [gzip.decompress(data)] *)
Definition gunzip (data : bytes) : option bytes :=
  gunzip_members (S (List.length data)) data [].

(** *** zlib (RFC 1950), as [zlib.decompress] reads it *)

Definition adler32 (bs : bytes) : Z :=
  let '(a, b) :=
    fold_left (fun '(a, b) x =>
                 let a' := (a + Z_of_byte x) mod 65521 in
                 (a', (b + a') mod 65521))
      bs (1, 0) in
  65536 * b + a.

(** The two bytes of the header: a check value, the method 8 (deflate), a
    window of at most 32 KiB and no preset dictionary. *)
Definition zlib_header (bs : bytes) : bool :=
  match bs with
  | cmf :: flg :: _ =>
      ((256 * Z_of_byte cmf + Z_of_byte flg) mod 31 =? 0)
      && (Z.land (Z_of_byte cmf) 15 =? 8)
      && (Z.shiftr (Z_of_byte cmf) 4 <=? 7)
      && negb (Z.testbit (Z_of_byte flg) 5)
  | _ => false
  end.

(** [zlib.decompress(data)]: what follows the stream is ignored. *)
Definition zlib_decompress (data : bytes) : option bytes :=
  if negb (zlib_header data) then None
  else
    match inflate (skipn 2 data) with
    | None => None
    | Some (out, unused) =>
        if len unused <? 4 then None
        else if word_le (rev (firstn 4 unused)) =? adler32 out then Some out
        else None
    end.

Definition gzip : codec := {| name := "gzip"; decompress := gunzip |}.
Definition deflate : codec := {| name := "deflate"; decompress := zlib_decompress |}.

(** Modelled from the spec: the decoders are tried in turn, gzip and
    deflate, which every runtime has, then those of [optional] (brotli,
    zstd); the first that accepts the input gives the result; input that
    no decoder accepts, and input that is not [bytes], is returned
    unchanged. *)
Definition handle_compressed_file (optional : list codec) (filecontent : pyval)
  : pyval :=
  match filecontent with
  | PyBytes b =>
      match first_success (gzip :: deflate :: optional) b with
      | Some out => PyBytes out
      | None => filecontent
      end
  | _ => filecontent
  end.

Definition of_list (l : list Z) : bytes := map byte_of_Z l.

(** The page of [test_decode], and what [gzip.compress] (with the time
    stamp 0) and [zlib.compress] make of it. *)
Definition html : bytes :=
  of_list [60; 104; 116; 109; 108; 62; 60; 104; 101; 97; 100; 47; 62; 60; 98;
           111; 100; 121; 62; 60; 100; 105; 118; 62; 65; 66; 67; 60; 47; 100;
           105; 118; 62; 60; 47; 98; 111; 100; 121; 62; 60; 47; 104; 116; 109;
           108; 62].

Definition html_deflated : bytes :=
  of_list [179; 201; 40; 201; 205; 177; 179; 201; 72; 77; 76; 209; 183; 179;
           73; 202; 79; 169; 180; 179; 73; 201; 44; 179; 115; 116; 114; 182;
           209; 7; 49; 108; 244; 33; 130; 250; 96; 133; 0].

Definition html_gz : bytes :=
  of_list [31; 139; 8; 0; 0; 0; 0; 0; 2; 3] ++ html_deflated
  ++ of_list [161; 228; 128; 251; 47; 0; 0; 0].

Definition html_zlib : bytes :=
  of_list [120; 156] ++ html_deflated ++ of_list [123; 189; 15; 183].

End Decode.

(** * Vocabulary of the statements *)

(** The value of a digit, [0] for another character. *)
Definition dval (c : Z) : Z :=
  match digit_value c with Some d => d | None => 0 end.

(** The value of a digit string, most significant digit first. *)
Definition value (base : Z) (ds : pystr) : Z :=
  fold_left (fun a c => a * base + dval c) ds 0.

(** A digit character below [base], as [hex], [bin] and [str] write
    them. *)
Definition is_digit_of (base : Z) (c : Z) : Prop :=
  exists d, 0 <= d < base /\ c = digit_char d.

(** The integer whose bit [i] is [p i] for [i < n]: the sum that ends
    [create_hash], over [range(n)]. *)
Definition bits_value (n : nat) (p : Z -> bool) : Z :=
  sum (map (fun i => Z.shiftl 1 i) (filter p (map Z.of_nat (seq 0 n)))).

(** The characters of the URL-safe alphabet. *)
Definition urlsafe_char (c : Z) : bool :=
  in_range 65 90 c || in_range 97 122 c || in_range 48 57 c
  || (c =? 45) || (c =? 95).

(** The number of positions [i] in [range(k)] at which [p] holds. *)
Definition count_positions (k : Z) (p : Z -> bool) : Z := len (filter p (range k)).

(** The sum of the [fuel] lowest binary digits of [n]. *)
Fixpoint ones (fuel : nat) (n : Z) : Z :=
  match fuel with
  | O => 0
  | S fuel' => n mod 2 + ones fuel' (n / 2)
  end.

Section Vocabulary.
Context {U : UnicodeData}.

(** The sub-hash as a number ([0] where [_hash] raises). *)
Definition token_hash (t : pystr) : Z :=
  match _hash t with Ret h => h | Raise _ => 0 end.

(** The contribution of a sub-hash [h] at bit position [i]. *)
Definition vote (h i : Z) : Z := if Z.testbit h i then 1 else -1.

(** The aggregate at position [i] over a list of tokens. *)
Definition aggregate (tokens : list pystr) (i : Z) : Z :=
  fold_right Z.add 0 (map (fun t => vote (token_hash t) i) tokens).

(** The tokens [_sample_tokens] keeps before the length filter. *)
Definition kept_tokens (s : pystr) : list pystr :=
  filter isalnum (map (strip punctuation) (split s)).

(** The sample at threshold [i]: the kept tokens longer than [i]. *)
Definition longer_than (i : Z) (tokens : list pystr) : list pystr :=
  filter (fun t => i <? len t) tokens.

(** The sampler as the specification words it: the threshold is a
    minimum token length, from 4 down to 0, so a token of length [i]
    passes threshold [i]. *)
Fixpoint worded_loop (L : Z) (tokens : list pystr) (minimums : list Z)
  (sample : list pystr) : list pystr :=
  match minimums with
  | [] => sample
  | i :: minimums' =>
      let sample := filter (fun t => i <=? len t) tokens in
      if L <=? 2 * len sample then sample
      else worded_loop L tokens minimums' sample
  end.

Definition sample_tokens_as_worded (L : Z) (s : pystr) : list pystr :=
  worded_loop L (kept_tokens s) [4; 3; 2; 1; 0] [].

(** A match of [[\w-]{3,}]. *)
Definition is_word (w : pystr) : Prop :=
  3 <= len w /\ forallb word_char w = true.

End Vocabulary.

(** * Properties *)

Ltac unfold_ranges :=
  unfold in_range, uc_isspace, c_isspace, is_scalar in *;
  repeat match goal with
    | H : _ || _ = true |- _ => apply orb_true_iff in H; destruct H
    | H : _ && _ = true |- _ => apply andb_true_iff in H; destruct H
    | H : (_ <=? _) = true |- _ => apply Z.leb_le in H
    | H : (_ <? _) = true |- _ => apply Z.ltb_lt in H
    | H : (_ =? _) = true |- _ => apply Z.eqb_eq in H
    end.

Ltac decide_ranges :=
  repeat match goal with
    | |- _ || _ = false => apply orb_false_iff; split
    | |- _ && _ = false => apply andb_false_iff
    | |- (_ =? _) = false => apply Z.eqb_neq; lia
    end.

Lemma latin1_alnum_below_256 c : Latin1.isalnum c = true -> 48 <= c <= 255.
Proof. unfold Latin1.isalnum. intros H. unfold_ranges; lia. Qed.

Lemma latin1_alnum_scalar c : Latin1.isalnum c = true -> is_scalar c = true.
Proof.
  intros H. apply latin1_alnum_below_256 in H. unfold is_scalar, in_range.
  apply orb_true_iff. left. apply andb_true_iff. split; apply Z.leb_le; lia.
Qed.

Lemma latin1_alnum_not_space c :
  Latin1.isalnum c = true -> uc_isspace c = false.
Proof.
  unfold Latin1.isalnum. intros H. unfold uc_isspace, in_range.
  unfold_ranges; decide_ranges;
    try (right; apply Z.leb_gt; lia); try (left; apply Z.leb_gt; lia).
Qed.

Lemma latin1_decimal_range c d : Latin1.decimal c = Some d -> 0 <= d <= 9.
Proof.
  unfold Latin1.decimal. destruct (in_range 48 57 c) eqn:E; [|discriminate].
  intros [= <-]. unfold_ranges. lia.
Qed.

Definition latin1 : UnicodeData := {|
  uc_isalnum := Latin1.isalnum;
  uc_isdigit := Latin1.isdigit;
  uc_decimal := Latin1.decimal;
  uc_lower := Latin1.lower;
  uc_alnum_scalar := latin1_alnum_scalar;
  uc_alnum_not_space := latin1_alnum_not_space;
  uc_decimal_range := latin1_decimal_range
|}.

(** ** Digits *)

Lemma digit_value_char d : 0 <= d < 36 -> digit_value (digit_char d) = Some d.
Proof.
  intros Hd. unfold digit_value, digit_char, in_range.
  destruct (d <? 10) eqn:E.
  - apply Z.ltb_lt in E.
    replace ((48 <=? 48 + d) && (48 + d <=? 57)) with true
      by (symmetry; apply andb_true_iff; split; apply Z.leb_le; lia).
    f_equal. lia.
  - apply Z.ltb_ge in E.
    replace ((48 <=? 87 + d) && (87 + d <=? 57)) with false
      by (symmetry; apply andb_false_iff; right; apply Z.leb_gt; lia).
    replace ((97 <=? 87 + d) && (87 + d <=? 122)) with true
      by (symmetry; apply andb_true_iff; split; apply Z.leb_le; lia).
    f_equal. lia.
Qed.

Lemma fold_value_acc base ds a :
  fold_left (fun a c => a * base + dval c) ds a
  = a * base ^ len ds + value base ds.
Proof.
  unfold value, len. revert a. induction ds as [|c ds IH]; intros a.
  - simpl. lia.
  - cbn [fold_left List.length]. rewrite IH. rewrite (IH (0 * base + dval c)).
    rewrite Nat2Z.inj_succ, Z.pow_succ_r by lia. ring.
Qed.

Lemma value_app base ds1 ds2 :
  value base (ds1 ++ ds2) = value base ds1 * base ^ len ds2 + value base ds2.
Proof.
  unfold value at 1. rewrite fold_left_app. fold (value base ds1).
  apply fold_value_acc.
Qed.

Lemma len_app {A} (l1 l2 : list A) : len (l1 ++ l2) = len l1 + len l2.
Proof. unfold len. rewrite length_app. lia. Qed.

Lemma len_nonneg {A} (l : list A) : 0 <= len l.
Proof. unfold len. lia. Qed.

(** With enough fuel, [digits_from] puts in front of [acc] the positional
    notation of [n]: valid digits, of value [n], without leading zero. *)
Lemma digits_from_spec base (Hb : 2 <= base <= 36) fuel :
  forall n acc, fuel <> O -> 0 <= n < base ^ Z.of_nat fuel ->
  exists ds, digits_from base fuel n acc = ds ++ acc
             /\ 1 <= len ds
             /\ Forall (is_digit_of base) ds
             /\ value base ds = n
             /\ (0 < n -> base ^ (len ds - 1) <= n)
             /\ n < base ^ len ds.
Proof.
  induction fuel as [|fuel IH]; intros n acc Hfuel Hn.
  - congruence.
  - cbn [digits_from].
    assert (Hmod : 0 <= n mod base < base) by (apply Z.mod_pos_bound; lia).
    assert (Hdiv : n = base * (n / base) + n mod base)
      by (apply Z.div_mod; lia).
    destruct (n / base =? 0) eqn:E.
    + apply Z.eqb_eq in E. exists [digit_char (n mod base)].
      assert (Hv : value base [digit_char (n mod base)] = n).
      { unfold value, dval. simpl. rewrite digit_value_char by lia. lia. }
      change (len [digit_char (n mod base)]) with 1.
      rewrite Z.sub_diag, Z.pow_0_r, Z.pow_1_r.
      split; [reflexivity|]. split; [lia|]. split.
      { constructor; [|constructor]. exists (n mod base). split; [lia|reflexivity]. }
      split; [assumption|]. split; lia.
    + apply Z.eqb_neq in E.
      assert (Hq : 0 < n / base).
      { assert (0 <= n / base) by (apply Z.div_pos; lia). lia. }
      assert (Hlt : n / base < base ^ Z.of_nat fuel).
      { apply Z.div_lt_upper_bound; [lia|].
        rewrite Nat2Z.inj_succ, Z.pow_succ_r in Hn by lia. lia. }
      destruct (IH (n / base) (digit_char (n mod base) :: acc)) as
        (ds & Heq & Hlen & Hall & Hval & Hlow & Hup);
        [intros ->; simpl in Hlt; lia|lia|].
      exists (ds ++ [digit_char (n mod base)]).
      rewrite Heq, <- app_assoc. split; [reflexivity|].
      rewrite len_app. change (len [digit_char (n mod base)]) with 1.
      split; [lia|]. split.
      { apply Forall_app. split; [assumption|]. constructor; [|constructor].
        exists (n mod base). split; [lia|reflexivity]. }
      split.
      { rewrite value_app, Hval.
        change (len [digit_char (n mod base)]) with 1. rewrite Z.pow_1_r.
        unfold value, dval. cbn [fold_left].
        rewrite digit_value_char by lia. lia. }
      replace (len ds + 1 - 1) with (Z.succ (len ds - 1)) by lia.
      replace (len ds + 1) with (Z.succ (len ds)) by lia.
      rewrite !Z.pow_succ_r by lia. specialize (Hlow Hq). split; [intros _|]; nia.
Qed.

Lemma digits_spec base (Hb : 2 <= base <= 36) n :
  0 <= n ->
  1 <= len (digits base n)
  /\ Forall (is_digit_of base) (digits base n)
  /\ value base (digits base n) = n
  /\ (0 < n -> base ^ (len (digits base n) - 1) <= n)
  /\ n < base ^ len (digits base n).
Proof.
  intros Hn. unfold digits.
  destruct (digits_from_spec base Hb (S (Z.to_nat (Z.log2 n))) n [])
    as (ds & Heq & H); [discriminate| |rewrite Heq, app_nil_r; exact H].
  split; [assumption|].
  destruct (Z.eq_dec n 0) as [->|Hne].
  - simpl. lia.
  - assert (Hlog : n < 2 ^ Z.succ (Z.log2 n)) by (apply Z.log2_spec; lia).
    assert (0 <= Z.log2 n) by apply Z.log2_nonneg.
    rewrite Nat2Z.inj_succ, Z2Nat.id by assumption.
    eapply Z.lt_le_trans; [exact Hlog|].
    apply Z.pow_le_mono_l. lia.
Qed.

Lemma digit_char_bounds base c :
  base <= 16 -> is_digit_of base c -> 48 <= c <= 57 \/ 97 <= c <= 102.
Proof.
  intros Hb (d & Hd & ->). unfold digit_char.
  destruct (d <? 10) eqn:E; [apply Z.ltb_lt in E | apply Z.ltb_ge in E]; lia.
Qed.

Lemma is_digit_of_value base c :
  base <= 36 -> is_digit_of base c ->
  exists d, digit_value c = Some d /\ 0 <= d < base.
Proof.
  intros Hb (d & Hd & ->). exists d. split; [|assumption].
  apply digit_value_char. lia.
Qed.

(** ** Parsing integers *)

Section Parsing.
Context {U : UnicodeData}.

(** On a string of digits the digit loop reads everything. *)
Lemma digit_loop_digits base ds :
  base <= 16 -> Forall (is_digit_of base) ds ->
  forall seen acc,
    digit_loop base false seen acc ds
    = Some (fold_left (fun a c => a * base + dval c) ds acc,
            seen || negb (Nat.eqb (List.length ds) 0), []).
Proof.
  intros Hb Hall. induction Hall as [|c ds Hc Hall IH]; intros seen acc.
  - simpl. rewrite orb_false_r. reflexivity.
  - cbn [digit_loop fold_left List.length Nat.eqb negb].
    destruct (digit_char_bounds base c Hb Hc) as [Hr|Hr];
      (replace (c =? 95) with false by (symmetry; apply Z.eqb_neq; lia));
      destruct (is_digit_of_value base c ltac:(lia) Hc) as (d & Hd & Hlt);
      unfold dval; rewrite Hd;
      (replace (d <? base) with true by (symmetry; apply Z.ltb_lt; lia));
      rewrite IH; rewrite orb_true_r; destruct ds; reflexivity.
Qed.

(** A non-empty string whose characters [int] reads as digits below
    [base] parses to its positional value. *)
Lemma parse_int_digits base s :
  2 <= base <= 16 -> s <> [] ->
  Forall (is_digit_of base) (map to_ascii s) ->
  parse_int base s = Some (value base (map to_ascii s)).
Proof.
  intros Hb Hne Hall. unfold parse_int.
  destruct (map to_ascii s) as [|c ds] eqn:Hs.
  { destruct s; [congruence|discriminate]. }
  assert (Hc : 48 <= c <= 57 \/ 97 <= c <= 102).
  { inversion Hall; subst. eapply digit_char_bounds; [|eassumption]. lia. }
  cbn [dropwhile]. unfold c_isspace, in_range.
  replace ((9 <=? c) && (c <=? 13) || (c =? 32)) with false.
  2:{ symmetry. apply orb_false_iff. split;
      [apply andb_false_iff; right; apply Z.leb_gt; lia | apply Z.eqb_neq; lia]. }
  unfold take_sign.
  replace (c =? 43) with false by (symmetry; apply Z.eqb_neq; lia).
  replace (c =? 45) with false by (symmetry; apply Z.eqb_neq; lia).
  assert (Hpre : skip_prefix base (c :: ds) = c :: ds).
  { unfold skip_prefix. destruct ds as [|x ds']; [reflexivity|].
    assert (Hx : 48 <= x <= 57 \/ 97 <= x <= 102).
    { inversion Hall as [|? ? _ Hall']; subst. inversion Hall'; subst.
      eapply digit_char_bounds; [|eassumption]. lia. }
    replace ((x =? 120) || (x =? 88)) with false.
    - rewrite andb_false_r. reflexivity.
    - symmetry. apply orb_false_iff. split; apply Z.eqb_neq; lia. }
  rewrite Hpre. unfold starts_with.
  replace (c =? 95) with false by (symmetry; apply Z.eqb_neq; lia).
  rewrite digit_loop_digits by (assumption || lia).
  cbn [List.length Nat.eqb negb orb dropwhile]. f_equal. unfold value. lia.
Qed.

(** [int(s, 16)] reads back what [hex] wrote, and [int(s)] what [str] wrote. *)
Lemma to_ascii_digits base n :
  2 <= base <= 16 -> 0 <= n ->
  map to_ascii (digits base n) = digits base n.
Proof.
  intros Hb Hn. destruct (digits_spec base ltac:(lia) n Hn) as (_ & Hall & _).
  induction Hall as [|c ds Hc Hall IH]; [reflexivity|].
  cbn [map]. rewrite IH. f_equal. unfold to_ascii.
  destruct (digit_char_bounds base c ltac:(lia) Hc);
    (replace (c <? 127) with true by (symmetry; apply Z.ltb_lt; lia)); reflexivity.
Qed.

Lemma parse_int_of_digits base n :
  2 <= base <= 16 -> 0 <= n -> parse_int base (digits base n) = Some n.
Proof.
  intros Hb Hn.
  destruct (digits_spec base ltac:(lia) n Hn) as (Hlen & Hall & Hval & _).
  rewrite parse_int_digits; try assumption.
  - rewrite to_ascii_digits by assumption. rewrite Hval. reflexivity.
  - intros E. rewrite E in Hlen. unfold len in Hlen. simpl in Hlen. lia.
  - rewrite to_ascii_digits by assumption. assumption.
Qed.

End Parsing.

(** ** Bits *)

Lemma land_bit_testbit h i :
  0 <= i -> negb (Z.land h (Z.shiftl 1 i) =? 0) = Z.testbit h i.
Proof.
  intros Hi. rewrite Z.shiftl_1_l.
  destruct (Z.testbit h i) eqn:E.
  - assert (Hb : Z.testbit (Z.land h (2 ^ i)) i = true).
    { rewrite Z.land_spec, E, Z.pow2_bits_true by assumption. reflexivity. }
    destruct (Z.land h (2 ^ i) =? 0) eqn:E0; [|reflexivity].
    apply Z.eqb_eq in E0. rewrite E0, Z.bits_0 in Hb. discriminate.
  - assert (H0 : Z.land h (2 ^ i) = 0).
    { apply Z.bits_inj'. intros m Hm. rewrite Z.land_spec, Z.bits_0.
      rewrite Z.pow2_bits_eqb by assumption.
      destruct (Z.eqb_spec i m) as [->|]; [rewrite E|]; [reflexivity|].
      apply andb_false_r. }
    rewrite H0. reflexivity.
Qed.

Lemma fold_add_acc xs a : fold_left Z.add xs a = a + sum xs.
Proof.
  unfold sum. revert a. induction xs as [|x xs IH]; intros a.
  - simpl. lia.
  - cbn [fold_left]. rewrite IH, (IH (0 + x)). lia.
Qed.

Lemma sum_app xs ys : sum (xs ++ ys) = sum xs + sum ys.
Proof. unfold sum at 1. rewrite fold_left_app, fold_add_acc. reflexivity. Qed.

Lemma bits_value_succ n p :
  bits_value (S n) p
  = bits_value n p + (if p (Z.of_nat n) then 2 ^ Z.of_nat n else 0).
Proof.
  unfold bits_value. rewrite seq_S, map_app, filter_app, map_app, sum_app.
  f_equal. cbn [map filter Nat.add].
  destruct (p (Z.of_nat n)); [|reflexivity].
  cbn [map]. unfold sum. cbn [fold_left]. rewrite Z.shiftl_1_l. lia.
Qed.

Lemma bits_value_bound n p : 0 <= bits_value n p < 2 ^ Z.of_nat n.
Proof.
  induction n as [|n IH].
  - unfold bits_value, sum. simpl. lia.
  - rewrite bits_value_succ, Nat2Z.inj_succ, Z.pow_succ_r by lia.
    destruct (p (Z.of_nat n)); lia.
Qed.

Lemma bits_value_testbit n p j :
  0 <= j < Z.of_nat n -> Z.testbit (bits_value n p) j = p j.
Proof.
  induction n as [|n IH]; intros Hj; [lia|].
  rewrite bits_value_succ.
  pose proof (bits_value_bound n p) as Hbound.
  set (b := if p (Z.of_nat n) then 1 else 0).
  replace (if p (Z.of_nat n) then 2 ^ Z.of_nat n else 0)
    with (b * 2 ^ Z.of_nat n) by (unfold b; destruct (p (Z.of_nat n)); lia).
  assert (Hpow : 0 < 2 ^ Z.of_nat n) by (apply Z.pow_pos_nonneg; lia).
  destruct (Z.eq_dec j (Z.of_nat n)) as [->|Hne].
  - transitivity
      (Z.testbit ((bits_value n p + b * 2 ^ Z.of_nat n) / 2 ^ Z.of_nat n) 0).
    { rewrite Z.div_pow2_bits by lia. reflexivity. }
    rewrite Z.div_add, Z.div_small by lia.
    unfold b. destruct (p (Z.of_nat n)); reflexivity.
  - rewrite <- (Z.mod_pow2_bits_low _ (Z.of_nat n)) by lia.
    rewrite Z.mod_add, Z.mod_small by lia. apply IH. lia.
Qed.

Lemma bits_value_ext n p q :
  (forall i, 0 <= i < Z.of_nat n -> p i = q i) ->
  bits_value n p = bits_value n q.
Proof.
  intros H. unfold bits_value. f_equal. f_equal. apply filter_ext_in.
  intros i Hi. apply in_map_iff in Hi. destruct Hi as (k & <- & Hk).
  apply in_seq in Hk. apply H. lia.
Qed.

Lemma bits_value_all_ones n : bits_value n (fun _ => true) = 2 ^ Z.of_nat n - 1.
Proof.
  induction n as [|n IH].
  - reflexivity.
  - rewrite bits_value_succ, IH, Nat2Z.inj_succ, Z.pow_succ_r by lia. lia.
Qed.

(** ** The digest *)

Lemma compress_length h m t final : List.length (Blake2b.compress h m t final) = 8%nat.
Proof. unfold Blake2b.compress. rewrite length_map, length_seq. reflexivity. Qed.

Lemma absorb_length fuel :
  forall h t data, List.length h = 8%nat ->
                   List.length (Blake2b.absorb fuel h t data) = 8%nat.
Proof.
  induction fuel as [|fuel IH]; intros h t data Hh; [exact Hh|].
  cbn [Blake2b.absorb]. destruct (List.length data <=? 128)%nat.
  - apply compress_length.
  - apply IH. apply compress_length.
Qed.

Lemma state_length data n : List.length (Blake2b.state data n) = 8%nat.
Proof. unfold Blake2b.state. apply absorb_length. reflexivity. Qed.

Lemma concat_words_length ws :
  List.length (List.concat (map Blake2b.bytes_of_word ws))
  = (8 * List.length ws)%nat.
Proof.
  induction ws as [|w ws IH]; [reflexivity|].
  cbn [map List.concat List.length]. rewrite length_app, IH.
  unfold Blake2b.bytes_of_word. rewrite length_map, length_seq. lia.
Qed.

(** A digest size from 1 to 64 yields that many bytes. *)
Lemma digest_length data n :
  1 <= n <= 64 ->
  exists d, Blake2b.digest data n = Ret d /\ len d = n.
Proof.
  intros Hn. unfold Blake2b.digest, in_range.
  replace ((1 <=? n) && (n <=? 64)) with true
    by (symmetry; apply andb_true_iff; split; apply Z.leb_le; lia).
  eexists. split; [reflexivity|].
  unfold len. rewrite length_firstn, concat_words_length, state_length. lia.
Qed.

Lemma digest_invalid_size data n :
  n < 1 \/ 64 < n -> Blake2b.digest data n = Raise ValueError.
Proof.
  intros Hn. unfold Blake2b.digest, in_range.
  replace ((1 <=? n) && (n <=? 64)) with false; [reflexivity|].
  symmetry. apply andb_false_iff.
  destruct Hn; [left|right]; apply Z.leb_gt; lia.
Qed.

Lemma Z_of_byte_bound b : 0 <= Z_of_byte b < 256.
Proof.
  unfold Z_of_byte. pose proof (Byte.to_N_bounded b). lia.
Qed.

Lemma from_bytes_big_acc d a :
  fold_left (fun acc x => 256 * acc + Z_of_byte x) d a
  = a * 256 ^ len d + from_bytes_big d.
Proof.
  unfold from_bytes_big, len. revert a.
  induction d as [|x d IH]; intros a.
  - simpl. lia.
  - cbn [fold_left List.length]. rewrite IH, (IH (256 * 0 + Z_of_byte x)).
    rewrite Nat2Z.inj_succ, Z.pow_succ_r by lia. ring.
Qed.

Lemma from_bytes_big_bound d : 0 <= from_bytes_big d < 256 ^ len d.
Proof.
  induction d as [|x d IH].
  - unfold from_bytes_big, len. simpl. lia.
  - unfold from_bytes_big. cbn [fold_left]. rewrite from_bytes_big_acc.
    pose proof (Z_of_byte_bound x) as Hx.
    unfold len in *. cbn [List.length]. rewrite Nat2Z.inj_succ, Z.pow_succ_r by lia.
    assert (0 < 256 ^ Z.of_nat (List.length d)) by (apply Z.pow_pos_nonneg; lia).
    nia.
Qed.

(** ** Tokens and sub-hashes *)

Section Fingerprint.
Context {U : UnicodeData}.

Lemma encode_scalars s :
  forallb is_scalar s = true -> exists b, encode s = Ret b.
Proof.
  induction s as [|c s IH]; intros H.
  - exists []. reflexivity.
  - cbn [forallb] in H. apply andb_true_iff in H. destruct H as [Hc Hs].
    destruct (IH Hs) as (b & Hb). cbn [encode]. rewrite Hc, Hb.
    eexists. reflexivity.
Qed.

Lemma forallb_impl {A} (p q : A -> bool) l :
  (forall x, p x = true -> q x = true) ->
  forallb p l = true -> forallb q l = true.
Proof.
  intros Hpq H. apply forallb_forall. intros x Hx.
  apply Hpq. eapply forallb_forall in H; eassumption.
Qed.

Lemma isalnum_chars t : isalnum t = true -> forallb uc_isalnum t = true.
Proof. unfold isalnum. intros H. apply andb_true_iff in H. apply H. Qed.

Lemma isalnum_nonempty t : isalnum t = true -> 1 <= len t.
Proof.
  unfold isalnum, len. intros H. apply andb_true_iff in H.
  destruct H as [H _]. destruct t; [discriminate|]. cbn [List.length]. lia.
Qed.

(** The sub-hash of an alphanumeric token exists: 64 bits, unsigned. *)
Lemma _hash_alnum t :
  isalnum t = true -> exists h, _hash t = Ret h /\ 0 <= h < 2 ^ 64.
Proof.
  intros Ht. unfold _hash.
  destruct (encode_scalars t) as (b & Hb).
  { eapply forallb_impl; [apply uc_alnum_scalar|]. apply isalnum_chars, Ht. }
  destruct (digest_length b 8 ltac:(lia)) as (d & Hd & Hlen).
  rewrite Hb. cbn [bind]. rewrite Hd. cbn [bind].
  eexists. split; [reflexivity|].
  pose proof (from_bytes_big_bound d) as H. rewrite Hlen in H.
  change (256 ^ 8) with (2 ^ 64) in H. exact H.
Qed.

Lemma _hash_token_hash t : isalnum t = true -> _hash t = Ret (token_hash t).
Proof.
  intros Ht. destruct (_hash_alnum t Ht) as (h & Hh & _).
  unfold token_hash. rewrite Hh. reflexivity.
Qed.

Lemma in_range_list L i : In i (range L) <-> 0 <= i < L.
Proof.
  unfold range. rewrite in_map_iff. split.
  - intros (k & <- & Hk). apply in_seq in Hk. lia.
  - intros Hi. exists (Z.to_nat i). split; [lia|]. apply in_seq. lia.
Qed.

Lemma _vector_to_add_votes L t :
  isalnum t = true ->
  _vector_to_add L t = Ret (map (vote (token_hash t)) (range L)).
Proof.
  intros Ht. unfold _vector_to_add. rewrite (_hash_token_hash t Ht). cbn [bind].
  f_equal. apply map_ext_in. intros i Hi. apply in_range_list in Hi.
  rewrite land_bit_testbit by lia. reflexivity.
Qed.

Lemma map2_map {A} (f g : A -> Z) l :
  map2 Z.add (map f l) (map g l) = map (fun i => f i + g i) l.
Proof. induction l as [|x l IH]; [reflexivity|]. cbn [map map2]. rewrite IH. reflexivity. Qed.

(** The loop of [create_hash] adds up the votes of the tokens. *)
Lemma votes_loop L tokens :
  Forall (fun t => isalnum t = true) tokens ->
  forall f,
    for_each (fun vector token =>
                v <- _vector_to_add L token ;; Ret (map2 Z.add vector v))
      tokens (map f (range L))
    = Ret (map (fun i => f i + aggregate tokens i) (range L)).
Proof.
  intros Hall. induction Hall as [|t tokens Ht Hall IH]; intros f.
  - cbn [for_each]. f_equal. apply map_ext. intros i. unfold aggregate. simpl. lia.
  - cbn [for_each]. rewrite (_vector_to_add_votes L t Ht). cbn [bind].
    rewrite map2_map, IH. f_equal. apply map_ext. intros i.
    unfold aggregate. cbn [map fold_right]. lia.
Qed.

Lemma repeat_map_const {A} (c : Z) (l : list A) :
  repeat c (List.length l) = map (fun _ => c) l.
Proof. induction l as [|x l IH]; [reflexivity|]. cbn [List.length repeat map]. rewrite IH. reflexivity. Qed.

Lemma range_length L : List.length (range L) = Z.to_nat L.
Proof. unfold range. rewrite length_map, length_seq. reflexivity. Qed.

Lemma nth_map_range (F : Z -> Z) L i :
  0 <= i < L -> nth (Z.to_nat i) (map F (range L)) 0 = F i.
Proof.
  intros Hi. unfold range. rewrite map_map.
  rewrite (nth_indep _ 0 (F (Z.of_nat 0%nat))) by (rewrite length_map, length_seq; lia).
  rewrite (map_nth (fun k => F (Z.of_nat k)) (seq 0 (Z.to_nat L)) 0%nat).
  rewrite seq_nth by lia. f_equal. lia.
Qed.

End Fingerprint.

Section CreateHash.
Context {U : UnicodeData}.

Lemma sample_loop_in L tokens thresholds :
  forall sample t,
    In t (sample_loop L tokens thresholds sample) -> In t tokens \/ In t sample.
Proof.
  induction thresholds as [|i ths IH]; intros sample t Ht.
  - right. exact Ht.
  - cbn [sample_loop] in Ht.
    destruct (L <=? 2 * len (filter (fun t0 => i <? len t0) tokens)).
    + left. apply filter_In in Ht. apply Ht.
    + apply IH in Ht. destruct Ht as [Ht|Ht]; [left; exact Ht|].
      left. apply filter_In in Ht. apply Ht.
Qed.

(** Every sampled token passed [isalnum]. *)
Lemma _sample_tokens_alnum L s :
  Forall (fun t => isalnum t = true) (_sample_tokens L s).
Proof.
  apply Forall_forall. intros t Ht. unfold _sample_tokens in Ht.
  apply sample_loop_in in Ht. destruct Ht as [Ht|[]].
  apply filter_In in Ht. apply Ht.
Qed.

(** [create_hash] returns, and its value has bit [i] set exactly where
    the aggregate of the sampled tokens is not negative. *)
Lemma create_hash_spec L s :
  create_hash L s
  = Ret (bits_value (Z.to_nat L)
           (fun i => 0 <=? aggregate (_sample_tokens L s) i)).
Proof.
  unfold create_hash.
  replace (repeat 0 (Z.to_nat L)) with (map (fun _ : Z => 0) (range L))
    by (rewrite <- repeat_map_const, range_length; reflexivity).
  rewrite (votes_loop L _ (_sample_tokens_alnum L s)). cbn [bind].
  f_equal. unfold bits_value. fold (range L). f_equal. f_equal.
  apply filter_ext_in. intros i Hi. apply in_range_list in Hi.
  rewrite (nth_map_range (fun i => 0 + aggregate (_sample_tokens L s) i)) by lia.
  reflexivity.
Qed.

Lemma create_hash_range L s :
  0 <= L -> exists h, create_hash L s = Ret h /\ 0 <= h < 2 ^ L.
Proof.
  intros HL. rewrite create_hash_spec. eexists. split; [reflexivity|].
  pose proof (bits_value_bound (Z.to_nat L)
                (fun i => 0 <=? aggregate (_sample_tokens L s) i)) as H.
  rewrite Z2Nat.id in H by assumption. exact H.
Qed.

End CreateHash.

(** ** The constructor, [to_hex] and [validate] *)

Section RoundTrip.
Context {U : UnicodeData}.

Lemma validate_none : validate PyNone = Ret None.
Proof. reflexivity. Qed.

(** Without an existing hash the constructor stores [create_hash]. *)
Lemma init_fresh s L :
  __init__ s L PyNone
  = (h <- create_hash L s ;; Ret {| hash := h; length := L |}).
Proof. reflexivity. Qed.

Lemma to_hex_nonneg h L :
  0 <= h -> to_hex {| hash := h; length := L |} = digits 16 h.
Proof.
  intros Hh. unfold to_hex, hex, sign_prefix. cbn [hash].
  replace (h <? 0) with false by (symmetry; apply Z.ltb_ge; lia).
  rewrite Z.abs_eq by assumption. reflexivity.
Qed.

(** A value below [base ^ k] has at most [k] digits. *)
Lemma digits_len_le base n k :
  2 <= base <= 36 -> 0 <= n < base ^ k -> 1 <= k -> len (digits base n) <= k.
Proof.
  intros Hb Hn Hk.
  destruct (digits_spec base Hb n ltac:(lia)) as (Hlen & _ & _ & Hlow & _).
  destruct (Z.eq_dec n 0) as [->|Hne].
  - unfold digits, len. simpl. lia.
  - destruct (Z_le_gt_dec (len (digits base n)) k) as [|Hgt]; [assumption|].
    exfalso. assert (base ^ k <= base ^ (len (digits base n) - 1))
      by (apply Z.pow_le_mono_r; lia).
    specialize (Hlow ltac:(lia)). lia.
Qed.

(** A string shorter than 18 characters is read as hexadecimal. *)
Lemma validate_short s :
  len s < 18 -> validate (PyStr s) = Ret (_hash_to_int s).
Proof.
  intros Hs. cbn [validate].
  replace (18 <=? len s) with false by (symmetry; apply Z.leb_gt; lia).
  rewrite andb_false_r. reflexivity.
Qed.

Lemma validate_hex_digits n :
  0 <= n < 2 ^ 64 -> validate (PyStr (digits 16 n)) = Ret (Some n).
Proof.
  intros Hn. rewrite validate_short.
  - unfold _hash_to_int. rewrite parse_int_of_digits by lia. reflexivity.
  - pose proof (digits_len_le 16 n 16 ltac:(lia)) as H.
    change (16 ^ 16) with (2 ^ 64) in H. specialize (H Hn ltac:(lia)). lia.
Qed.

End RoundTrip.

(** C1. For every fingerprint [h] that the constructor builds from an
    input string with the default length 64, [validate(to_hex(h))] returns
    [h.hash]. *)
Theorem validate_to_hex_roundtrip :
  forall (U : UnicodeData) (inputstring : pystr),
  exists h : Simhash,
    __init__ inputstring 64 PyNone = Ret h
    /\ validate (PyStr (to_hex h)) = Ret (Some (hash h)).
Proof.
  intros U s. rewrite init_fresh.
  destruct (create_hash_range 64 s ltac:(lia)) as (v & Hv & Hrange).
  rewrite Hv. cbn [bind]. eexists. split; [reflexivity|].
  rewrite to_hex_nonneg by lia. cbn [hash].
  apply validate_hex_digits. exact Hrange.
Qed.

(** C9. When no token is sampled (the empty string, a text without any
    alphanumeric token) [create_hash] returns the all-ones pattern
    [2^length - 1] of the length, the empty pattern [0] for a length below
    zero; [content_fingerprint("")] is ["ffffffffffffffff"]. *)
Theorem create_hash_without_tokens :
  forall (U : UnicodeData),
    (forall length s,
        0 <= length -> _sample_tokens length s = [] ->
        create_hash length s = Ret (2 ^ length - 1))
    /\ (forall length s,
           _sample_tokens length s = [] ->
           create_hash length s = Ret (2 ^ Z.max 0 length - 1))
    /\ (forall length s,
           (forall t, In t (split s) -> isalnum (strip punctuation t) = false) ->
           _sample_tokens length s = [])
    /\ (forall length, _sample_tokens length [] = [])
    /\ content_fingerprint [] = Ret (lit "ffffffffffffffff").
Proof.
  intros U.
  assert (Hany : forall length s,
             _sample_tokens length s = [] ->
             create_hash length s = Ret (2 ^ Z.max 0 length - 1)).
  { intros L s Hs. rewrite create_hash_spec, Hs. f_equal.
    rewrite (bits_value_ext _ _ (fun _ => true)) by (intros i _; reflexivity).
    rewrite bits_value_all_ones. f_equal. f_equal. lia. }
  assert (Hones : forall length s,
             0 <= length -> _sample_tokens length s = [] ->
             create_hash length s = Ret (2 ^ length - 1)).
  { intros L s HL Hs. rewrite (Hany L s Hs), Z.max_r by exact HL.
    reflexivity. }
  assert (Hnone : forall length s,
             (forall t, In t (split s) -> isalnum (strip punctuation t) = false) ->
             _sample_tokens length s = []).
  { intros L s Hs. unfold _sample_tokens.
    replace (filter isalnum (map (strip punctuation) (split s))) with (@nil pystr).
    - cbn. repeat (destruct (L <=? 0); [reflexivity|]). reflexivity.
    - symmetry. induction (split s) as [|t ts IH]; [reflexivity|].
      cbn [map filter]. rewrite (Hs t (or_introl eq_refl)).
      apply IH. intros t' Ht'. apply Hs. right. exact Ht'. }
  split; [exact Hones|]. split; [exact Hany|]. split; [exact Hnone|]. split.
  - intros L. apply Hnone. intros t [].
  - unfold content_fingerprint. rewrite init_fresh.
    rewrite (Hones 64 []) by (lia || (apply Hnone; intros t [])).
    cbn [bind]. rewrite to_hex_nonneg by lia. vm_compute. reflexivity.
Qed.

(** The theorem at a text made of punctuation only. *)
Lemma create_hash_without_tokens_witness :
  @_sample_tokens latin1 64 (lit "... -- !?") = []
  /\ @create_hash latin1 64 (lit "... -- !?") = Ret (2 ^ 64 - 1).
Proof.
  assert (H : @_sample_tokens latin1 64 (lit "... -- !?") = [])
    by (vm_compute; reflexivity).
  split; [exact H|].
  apply (proj1 (create_hash_without_tokens latin1)); [lia | exact H].
Defined.

(** C10. An existing hash whose validated value is [0] is dropped by the
    [or] of the constructor: the fingerprint is the one computed from the
    input string, as without an existing hash; this is so for ["0"]. *)
Theorem init_discards_zero_hash :
  forall (U : UnicodeData),
    (forall inputstring length existing_hash,
        validate existing_hash = Ret (Some 0) ->
        __init__ inputstring length existing_hash
        = __init__ inputstring length PyNone)
    /\ validate (PyStr (lit "0")) = Ret (Some 0)
    /\ (forall inputstring length,
           exists h,
             create_hash length inputstring = Ret h
             /\ __init__ inputstring length (PyStr (lit "0"))
                = Ret {| hash := h; length := length |}).
Proof.
  intros U.
  assert (Hzero : validate (PyStr (lit "0")) = Ret (Some 0)).
  { rewrite validate_short by (vm_compute; reflexivity).
    unfold _hash_to_int. change (lit "0") with (digits 16 0).
    rewrite parse_int_of_digits by lia. reflexivity. }
  assert (Hdrop : forall s L e,
             validate e = Ret (Some 0) -> __init__ s L e = __init__ s L PyNone).
  { intros s L e He. unfold __init__. rewrite He. reflexivity. }
  split; [exact Hdrop|]. split; [exact Hzero|].
  intros s L. rewrite (Hdrop s L _ Hzero), init_fresh.
  rewrite create_hash_spec. cbn [bind]. eexists. split; reflexivity.
Qed.

(** The theorem at the decimal form of zero, eighteen digits long. *)
Lemma init_discards_zero_hash_witness :
  @validate latin1 (PyStr (lit "000000000000000000")) = Ret (Some 0)
  /\ @__init__ latin1 (lit "some text") 64 (PyStr (lit "000000000000000000"))
     = @__init__ latin1 (lit "some text") 64 PyNone.
Proof.
  assert (H : @validate latin1 (PyStr (lit "000000000000000000")) = Ret (Some 0))
    by (vm_compute; reflexivity).
  split; [exact H|].
  apply (proj1 (init_discards_zero_hash latin1)). exact H.
Defined.

(** ** Hamming distance *)

Lemma count_app c s1 s2 : count c (s1 ++ s2) = count c s1 + count c s2.
Proof. unfold count. rewrite filter_app, length_app. lia. Qed.

Lemma count_bounds c s : 0 <= count c s <= len s.
Proof. unfold count, len. pose proof (filter_length_le (Z.eqb c) s). lia. Qed.

(** Only the binary digits of [bin(x)] can be ones. *)
Lemma count_bin x : count 49 (bin x) = count 49 (digits 2 (Z.abs x)).
Proof.
  unfold bin, sign_prefix. rewrite !count_app.
  destruct (x <? 0); reflexivity.
Qed.

Lemma binary_digit c : is_digit_of 2 c -> c = 48 \/ c = 49.
Proof.
  intros (d & Hd & ->). assert (d = 0 \/ d = 1) as [->| ->] by lia; auto.
Qed.

Lemma value_cons base c ds :
  value base (c :: ds) = dval c * base ^ len ds + value base ds.
Proof.
  unfold value at 1. cbn [fold_left]. rewrite fold_value_acc. f_equal.
Qed.

Lemma no_ones_value ds :
  Forall (is_digit_of 2) ds -> count 49 ds = 0 -> value 2 ds = 0.
Proof.
  intros Hall. induction Hall as [|c ds Hc Hall IH]; intros Hcount.
  - reflexivity.
  - change (c :: ds) with ([c] ++ ds) in Hcount. rewrite count_app in Hcount.
    pose proof (count_bounds 49 ds) as Hds.
    pose proof (count_bounds 49 [c]) as Hc1.
    rewrite value_cons, IH by lia.
    destruct (binary_digit c Hc) as [-> | ->].
    + reflexivity.
    + exfalso. change (count 49 [49]) with 1 in *. lia.
Qed.

Lemma popcount_zero n : 0 <= n -> (count 49 (digits 2 n) = 0 <-> n = 0).
Proof.
  intros Hn. destruct (digits_spec 2 ltac:(lia) n Hn) as (_ & Hall & Hval & _).
  split.
  - intros H. rewrite <- Hval. apply no_ones_value; assumption.
  - intros ->. reflexivity.
Qed.

Lemma popcount_le n k :
  0 <= n < 2 ^ k -> 1 <= k -> count 49 (digits 2 n) <= k.
Proof.
  intros Hn Hk. pose proof (count_bounds 49 (digits 2 n)).
  pose proof (digits_len_le 2 n k ltac:(lia) Hn Hk). lia.
Qed.

Lemma lxor_range a b k :
  0 <= k -> 0 <= a < 2 ^ k -> 0 <= b < 2 ^ k -> 0 <= Z.lxor a b < 2 ^ k.
Proof.
  intros Hk Ha Hb.
  assert (H0 : 0 <= Z.lxor a b) by (apply Z.lxor_nonneg; lia).
  split; [exact H0|].
  destruct (Z.eq_dec (Z.lxor a b) 0) as [E|E].
  - rewrite E. apply Z.pow_pos_nonneg; lia.
  - apply Z.log2_lt_pow2; [lia|].
    pose proof (Z.log2_lxor a b ltac:(lia) ltac:(lia)) as Hlog.
    assert (Hk0 : 0 < k).
    { destruct (Z.eq_dec k 0) as [->|]; [|lia]. exfalso.
      change (2 ^ 0) with 1 in *.
      assert (a = 0) by lia. assert (b = 0) by lia. subst. apply E. reflexivity. }
    assert (Hlog2 : forall c, 0 <= c < 2 ^ k -> Z.log2 c < k).
    { intros c Hc. destruct (Z.eq_dec c 0) as [->|]; [exact Hk0|].
      apply Z.log2_lt_pow2; lia. }
    pose proof (Hlog2 a Ha). pose proof (Hlog2 b Hb). lia.
Qed.

(** ** The quotient as a float *)

Lemma pow2_pos k : (0 < 2 ^ k)%Q.
Proof. apply Qpower_0_lt. reflexivity. Qed.

Lemma pow2_add a b : (2 ^ (a + b) == 2 ^ a * 2 ^ b)%Q.
Proof. apply Qpower_plus. discriminate. Qed.

Lemma pow2_le a b : a <= b -> (2 ^ a <= 2 ^ b)%Q.
Proof. intros H. apply Qpower_le_compat_l; [exact H|discriminate]. Qed.

Lemma pow2_Z k : 0 <= k -> (2 ^ k == inject_Z (2 ^ k))%Q.
Proof. intros H. symmetry. apply (Zpower_Qpower 2 k H). Qed.

(** [round_half_even] stays between the integers around its argument. *)
Lemma round_half_even_cases x :
  round_half_even x = Qfloor x
  \/ (round_half_even x = Qfloor x + 1 /\ (1 # 2 <= x - inject_Z (Qfloor x))%Q).
Proof.
  unfold round_half_even.
  destruct (Qcompare_spec (x - inject_Z (Qfloor x)) (1 # 2)) as [E|E|E].
  - destruct (Z.even (Qfloor x)); [left; reflexivity|right].
    split; [reflexivity|]. rewrite E. apply Qle_refl.
  - left. reflexivity.
  - right. split; [reflexivity|apply Qlt_le_weak, E].
Qed.

Lemma round_half_even_ge x k : (inject_Z k <= x)%Q -> k <= round_half_even x.
Proof.
  intros H. apply Qfloor_resp_le in H. rewrite Qfloor_Z in H.
  destruct (round_half_even_cases x) as [E|[E _]]; lia.
Qed.

Lemma round_half_even_le x k : (x <= inject_Z k)%Q -> round_half_even x <= k.
Proof.
  intros H. pose proof (Qfloor_resp_le _ _ H) as Hf. rewrite Qfloor_Z in Hf.
  destruct (round_half_even_cases x) as [E|[E Hhalf]]; [lia|].
  destruct (Z.eq_dec (Qfloor x) k) as [Ek|]; [exfalso|lia].
  rewrite Ek in Hhalf.
  assert (Hc : (1 # 2 <= 0)%Q).
  { eapply Qle_trans; [exact Hhalf|].
    apply (Qplus_le_l _ _ (inject_Z k)). ring_simplify. exact H. }
  revert Hc. unfold Qle. simpl. lia.
Qed.

(** The difference of the bit lengths is the exponent or one above. *)
Lemma log2_ratio x :
  (0 < x)%Q ->
  let k := Z.log2 (Qnum x) - Z.log2 (Zpos (Qden x)) in
  (2 ^ (k - 1) <= x /\ x < 2 ^ (k + 1))%Q.
Proof.
  intros Hx k. destruct x as [n d]. cbn [Qnum Qden] in k.
  assert (Hn : 0 < n) by (revert Hx; unfold Qlt; simpl; lia).
  pose proof (Z.log2_spec n Hn) as [Hn1 Hn2].
  pose proof (Z.log2_spec (Zpos d) ltac:(lia)) as [Hd1 Hd2].
  pose proof (Z.log2_nonneg n) as Hln.
  pose proof (Z.log2_nonneg (Zpos d)) as Hld.
  set (ln := Z.log2 n) in *. set (ld := Z.log2 (Zpos d)) in *.
  split.
  - apply (Qmult_le_r _ _ (2 ^ (ld + 1))); [apply pow2_pos|].
    rewrite <- pow2_add. replace (k - 1 + (ld + 1)) with ln by (unfold k; lia).
    rewrite !pow2_Z by lia. rewrite <- Z.add_1_r in *.
    unfold Qle, Qmult, inject_Z. cbn [Qnum Qden]. nia.
  - apply (Qmult_lt_r _ _ (2 ^ ld)); [apply pow2_pos|].
    rewrite <- pow2_add. replace (k + 1 + ld) with (ln + 1) by (unfold k; lia).
    rewrite !pow2_Z by lia. rewrite <- Z.add_1_r in *.
    unfold Qlt, Qmult, inject_Z. cbn [Qnum Qden]. nia.
Qed.

Lemma float_exponent_upper x :
  (0 < x)%Q -> (x < 2 ^ (float_exponent x + 1))%Q.
Proof.
  intros Hx. destruct (log2_ratio x Hx) as [_ Hup]. unfold float_exponent.
  set (k := Z.log2 (Qnum x) - Z.log2 (Zpos (Qden x))) in *.
  destruct (Qle_bool (2 ^ k) x) eqn:E.
  - eapply Qlt_le_trans; [exact Hup|]. apply pow2_le. lia.
  - assert (Hlt : (x < 2 ^ k)%Q).
    { apply Qnot_le_lt. intros H. apply Qle_bool_iff in H. congruence. }
    eapply Qlt_le_trans; [exact Hlt|]. apply pow2_le. lia.
Qed.

Lemma float_exponent_lower x :
  (0 < x)%Q -> (2 ^ (-1022) <= x)%Q -> (2 ^ float_exponent x <= x)%Q.
Proof.
  intros Hx Hmin. destruct (log2_ratio x Hx) as [Hlow _]. unfold float_exponent.
  set (k := Z.log2 (Qnum x) - Z.log2 (Zpos (Qden x))) in *.
  destruct (Qle_bool (2 ^ k) x) eqn:E.
  - apply Qle_bool_iff in E.
    destruct (Z.max_spec (-1022) k) as [[_ ->]|[_ ->]]; assumption.
  - destruct (Z.max_spec (-1022) (k - 1)) as [[_ ->]|[_ ->]]; assumption.
Qed.

Lemma float_exponent_spec x :
  (0 < x)%Q ->
  exists e0, float_exponent x = Z.max (-1022) e0
             /\ (2 ^ e0 <= x)%Q /\ (x < 2 ^ (e0 + 1))%Q.
Proof.
  intros Hx. destruct (log2_ratio x Hx) as [Hlow Hup]. unfold float_exponent.
  set (k := Z.log2 (Qnum x) - Z.log2 (Zpos (Qden x))) in *.
  destruct (Qle_bool (2 ^ k) x) eqn:E.
  - exists k. apply Qle_bool_iff in E. auto.
  - exists (k - 1). split; [reflexivity|]. split; [exact Hlow|].
    replace (k - 1 + 1) with k by lia.
    apply Qnot_le_lt. intros H. apply Qle_bool_iff in H. congruence.
Qed.

Lemma pow2_lt_inv a b : (2 ^ a < 2 ^ b)%Q -> a < b.
Proof. intros H. apply (Qpower_lt_compat_l_inv 2); [exact H|reflexivity]. Qed.

(** The scaled number is below [2^53], the mantissa at most [2^53]. *)
Lemma mantissa_upper x :
  (0 < x)%Q ->
  0 <= round_half_even (x * 2 ^ (52 - float_exponent x)) <= 2 ^ 53.
Proof.
  intros Hx. pose proof (float_exponent_upper x Hx) as Hup.
  set (e := float_exponent x) in *. split.
  - apply round_half_even_ge. change (inject_Z 0) with 0%Q.
    apply Qmult_le_0_compat; apply Qlt_le_weak; [exact Hx|apply pow2_pos].
  - apply round_half_even_le.
    assert (E : (inject_Z (2 ^ 53) == 2 ^ (e + 1) * 2 ^ (52 - e))%Q).
    { rewrite <- pow2_add, <- (pow2_Z 53) by lia.
      replace (e + 1 + (52 - e)) with 53 by lia. reflexivity. }
    rewrite E.
    apply Qmult_le_compat_r; apply Qlt_le_weak; [exact Hup|apply pow2_pos].
Qed.

Lemma mantissa_lower x :
  (0 < x)%Q -> (2 ^ (-1022) <= x)%Q ->
  2 ^ 52 <= round_half_even (x * 2 ^ (52 - float_exponent x)).
Proof.
  intros Hx Hmin. pose proof (float_exponent_lower x Hx Hmin) as Hlow.
  set (e := float_exponent x) in *.
  apply round_half_even_ge.
  assert (E : (inject_Z (2 ^ 52) == 2 ^ e * 2 ^ (52 - e))%Q).
  { rewrite <- pow2_add, <- (pow2_Z 52) by lia.
    replace (e + (52 - e)) with 52 by lia. reflexivity. }
  rewrite E.
  apply Qmult_le_compat_r; [exact Hlow|apply Qlt_le_weak, pow2_pos].
Qed.

Lemma nearest_float_nonneg x : (0 < x)%Q -> (0 <= nearest_float x)%Q.
Proof.
  intros Hx. unfold nearest_float.
  apply Qmult_le_0_compat; [|apply Qlt_le_weak, pow2_pos].
  change 0%Q with (inject_Z 0). rewrite <- Zle_Qle. apply mantissa_upper, Hx.
Qed.

Lemma nearest_float_pos x :
  (0 < x)%Q -> (2 ^ (-1022) <= x)%Q -> (0 < nearest_float x)%Q.
Proof.
  intros Hx Hmin. unfold nearest_float.
  apply Qmult_lt_0_compat; [|apply pow2_pos].
  change 0%Q with (inject_Z 0). rewrite <- Zlt_Qlt.
  pose proof (mantissa_lower x Hx Hmin). lia.
Qed.

(** A number below the exponent's power rounds to at most that power. *)
Lemma nearest_float_le_pow x :
  (0 < x)%Q -> (nearest_float x <= 2 ^ (float_exponent x + 1))%Q.
Proof.
  intros Hx. unfold nearest_float.
  pose proof (mantissa_upper x Hx) as [_ Hm].
  set (e := float_exponent x) in *.
  replace (e + 1) with (53 + (e - 52)) by lia. rewrite pow2_add.
  apply Qmult_le_compat_r; [|apply Qlt_le_weak, pow2_pos].
  rewrite (pow2_Z 53) by lia. rewrite <- Zle_Qle. exact Hm.
Qed.

Lemma float_exponent_below_one x :
  (0 < x)%Q -> (x < 1)%Q -> float_exponent x <= -1.
Proof.
  intros Hx H1. destruct (float_exponent_spec x Hx) as (e0 & -> & Hlow & _).
  assert (e0 < 0).
  { apply pow2_lt_inv. eapply Qle_lt_trans; [exact Hlow|exact H1]. }
  lia.
Qed.

Lemma nearest_float_one x : (x == 1)%Q -> (nearest_float x == 1)%Q.
Proof.
  intros Hx1. assert (Hx : (0 < x)%Q) by (rewrite Hx1; reflexivity).
  destruct (float_exponent_spec x Hx) as (e0 & He & Hlow & Hup).
  assert (e0 = 0).
  { rewrite Hx1 in Hlow, Hup.
    assert (e0 < 1) by (apply pow2_lt_inv; eapply Qle_lt_trans; [exact Hlow|reflexivity]).
    assert (0 < e0 + 1) by (apply pow2_lt_inv; exact Hup). lia. }
  subst e0. unfold nearest_float. rewrite He. change (Z.max (-1022) 0) with 0.
  assert (Hm : round_half_even (x * 2 ^ (52 - 0)) = 2 ^ 52).
  { apply Z.le_antisymm.
    - apply round_half_even_le. rewrite Hx1. vm_compute. discriminate.
    - apply round_half_even_ge. rewrite Hx1. vm_compute. discriminate. }
  rewrite Hm. reflexivity.
Qed.

Lemma nearest_float_le_one x :
  (0 < x)%Q -> (x <= 1)%Q -> (nearest_float x <= 1)%Q.
Proof.
  intros Hx H1. destruct (Qle_lt_or_eq _ _ H1) as [Hlt|Heq].
  - eapply Qle_trans; [apply nearest_float_le_pow, Hx|].
    change 1%Q with (2 ^ 0)%Q. apply pow2_le.
    pose proof (float_exponent_below_one x Hx Hlt). lia.
  - rewrite (nearest_float_one x Heq). apply Qle_refl.
Qed.

(** The quotient of two numbers of 53 bits, the first the smaller, is not
    rounded to 1. *)
Lemma nearest_float_below_one n d :
  0 < n -> n < Zpos d -> Zpos d <= 2 ^ 53 -> (nearest_float (n # d) < 1)%Q.
Proof.
  intros Hn Hnd Hd.
  assert (Hx : (0 < n # d)%Q) by (unfold Qlt; simpl; lia).
  assert (H1 : (n # d < 1)%Q) by (unfold Qlt; simpl; lia).
  pose proof (float_exponent_below_one _ Hx H1) as He.
  destruct (Z.eq_dec (float_exponent (n # d)) (-1)) as [E|E].
  - unfold nearest_float. rewrite E.
    assert (Hm : round_half_even ((n # d) * 2 ^ (52 - -1)) <= 2 ^ 53 - 1).
    { apply round_half_even_le. change (52 - -1) with 53.
      rewrite (pow2_Z 53) by lia.
      unfold Qle, Qmult, inject_Z. cbn [Qnum Qden]. nia. }
    apply Qlt_le_trans with (inject_Z (2 ^ 53) * 2 ^ (-1 - 52))%Q;
      [|vm_compute; discriminate].
    apply Qmult_lt_compat_r; [apply pow2_pos|]. rewrite <- Zlt_Qlt. lia.
  - eapply Qle_lt_trans; [apply nearest_float_le_pow, Hx|].
    apply Qle_lt_trans with (2 ^ (-1))%Q; [apply pow2_le; lia|reflexivity].
Qed.

Lemma ratio_normal n d :
  0 < n -> Zpos d <= 2 ^ 1022 -> (2 ^ (-1022) <= n # d)%Q.
Proof.
  intros Hn Hd. apply (Qmult_le_r _ _ (2 ^ 1022)); [apply pow2_pos|].
  rewrite <- pow2_add. change (-1022 + 1022) with 0.
  rewrite (pow2_Z 1022) by lia. change (2 ^ 0)%Q with 1%Q.
  unfold Qle, Qmult, inject_Z. cbn [Qnum Qden]. nia.
Qed.

Lemma true_divide_zero b : true_divide 0 b = 0%Q.
Proof. reflexivity. Qed.

Lemma true_divide_pos a b :
  0 < a -> 0 < b ->
  (true_divide a b == nearest_float (a # Z.to_pos b))%Q.
Proof.
  intros Ha Hb. unfold true_divide.
  replace (a =? 0) with false by (symmetry; apply Z.eqb_neq; lia).
  rewrite Qred_correct, Z.sgn_pos, Z.sgn_pos, !Z.abs_eq by lia.
  change (inject_Z (1 * 1)) with 1%Q. apply Qmult_1_l.
Qed.

Lemma true_divide_neg a b :
  a < 0 -> 0 < b ->
  (true_divide a b == - nearest_float (- a # Z.to_pos b))%Q.
Proof.
  intros Ha Hb. unfold true_divide.
  replace (a =? 0) with false by (symmetry; apply Z.eqb_neq; lia).
  rewrite Qred_correct, Z.sgn_neg, Z.sgn_pos, Z.abs_neq, Z.abs_eq by lia.
  change (inject_Z (-1 * 1)) with (- (1))%Q. ring.
Qed.

Lemma true_divide_same b : 0 < b -> (true_divide b b == 1)%Q.
Proof.
  intros Hb. rewrite true_divide_pos by lia. apply nearest_float_one.
  unfold Qeq. cbn [Qnum Qden]. rewrite Z2Pos.id by lia. lia.
Qed.

Lemma true_divide_unit a b :
  0 <= a <= b -> 0 < b -> (0 <= true_divide a b <= 1)%Q.
Proof.
  intros Ha Hb. destruct (Z.eq_dec a 0) as [->|Hne].
  - rewrite true_divide_zero. split; discriminate.
  - rewrite true_divide_pos by lia.
    assert (Hx : (0 < a # Z.to_pos b)%Q) by (unfold Qlt; simpl; lia).
    split; [apply nearest_float_nonneg, Hx|].
    apply nearest_float_le_one; [exact Hx|].
    unfold Qle. cbn [Qnum Qden]. rewrite Z2Pos.id by lia. lia.
Qed.

Lemma true_divide_below a b :
  0 < a < b -> b <= 2 ^ 53 -> (0 < true_divide a b < 1)%Q.
Proof.
  intros Ha Hb. rewrite true_divide_pos by lia.
  assert (Hp : Zpos (Z.to_pos b) = b) by (apply Z2Pos.id; lia).
  split.
  - apply nearest_float_pos; [unfold Qlt; simpl; lia|].
    apply ratio_normal; [lia|]. rewrite Hp.
    apply Z.le_trans with (2 ^ 53); [exact Hb|apply Z.pow_le_mono_r; lia].
  - apply nearest_float_below_one; rewrite ?Hp; lia.
Qed.

Lemma true_divide_negative a b :
  a < 0 -> 0 < b <= 2 ^ 53 -> (true_divide a b < 0)%Q.
Proof.
  intros Ha Hb. rewrite true_divide_neg by lia.
  assert (Hp : Zpos (Z.to_pos b) = b) by (apply Z2Pos.id; lia).
  assert (H : (0 < nearest_float (- a # Z.to_pos b))%Q).
  { apply nearest_float_pos; [unfold Qlt; simpl; lia|].
    apply ratio_normal; [lia|]. rewrite Hp.
    apply Z.le_trans with (2 ^ 53); [lia|apply Z.pow_le_mono_r; lia]. }
  apply (Qplus_lt_l _ _ (nearest_float (- a # Z.to_pos b))). ring_simplify.
  exact H.
Qed.

(** Where the quotient of a number by a length of 53 bits is 1 and where
    it is 0. *)
Lemma true_divide_ends n L :
  0 < L <= 2 ^ 53 -> n <= L ->
  ((true_divide n L == 1)%Q <-> n = L)
  /\ ((true_divide n L == 0)%Q <-> n = 0).
Proof.
  intros HL Hn.
  destruct (Z.lt_trichotomy n 0) as [Hneg|[->|Hpos]].
  - pose proof (true_divide_negative n L Hneg HL) as H.
    split; split; try lia; intros E; rewrite E in H; discriminate H.
  - rewrite true_divide_zero. split; split; try lia; try reflexivity.
    intros E. discriminate E.
  - destruct (Z.eq_dec n L) as [->|Hne].
    + pose proof (true_divide_same L ltac:(lia)) as H.
      split; split; try lia; try (intros _; exact H).
      intros E. rewrite H in E. discriminate E.
    + pose proof (true_divide_below n L ltac:(lia) ltac:(lia)) as [H0 H1].
      split; split; try lia; intros E; [rewrite E in H1|rewrite E in H0];
        [discriminate H1|discriminate H0].
Qed.

Section Distance.
Context {U : UnicodeData}.

Lemma hamming_distance_sym a b : hamming_distance a b = hamming_distance b a.
Proof. unfold hamming_distance. rewrite Z.lxor_comm. reflexivity. Qed.

Lemma hamming_distance_zero a b : hamming_distance a b = 0 <-> hash a = hash b.
Proof.
  unfold hamming_distance. rewrite count_bin.
  rewrite popcount_zero by apply Z.abs_nonneg.
  rewrite Z.abs_0_iff. apply Z.lxor_eq_0_iff.
Qed.

Lemma hamming_distance_bound a b k :
  1 <= k -> 0 <= hash a < 2 ^ k -> 0 <= hash b < 2 ^ k ->
  0 <= hamming_distance a b <= k.
Proof.
  intros Hk Ha Hb. unfold hamming_distance. rewrite count_bin.
  pose proof (lxor_range (hash a) (hash b) k ltac:(lia) Ha Hb) as Hx.
  rewrite Z.abs_eq by lia. split.
  - apply count_bounds.
  - apply popcount_le; assumption.
Qed.

End Distance.

(** Where the documented range holds.  [similarity(Simhash(X), Simhash(X))]
    is [1.0] for every input string [X]; [hamming_distance] is symmetric
    and is zero exactly when the two numeric hashes are equal; and for two
    fingerprints of the same positive length whose hashes are numbers of
    that many bits, as every hash computed from an input string is, the
    similarity is the float of [(length - distance) / length] and lies
    between 0 and 1. *)
Theorem similarity_of_fingerprints :
  forall (U : UnicodeData),
    (forall X, exists h q,
        __init__ X 64 PyNone = Ret h /\ similarity h h = Ret q /\ (q == 1)%Q)
    /\ (forall a b : Simhash, hamming_distance a b = hamming_distance b a)
    /\ (forall a b : Simhash, hamming_distance a b = 0 <-> hash a = hash b)
    /\ (forall a b : Simhash,
           length a = length b -> 0 < length a ->
           0 <= hash a < 2 ^ length a -> 0 <= hash b < 2 ^ length b ->
           0 <= hamming_distance a b <= length a
           /\ exists q,
               similarity a b = Ret q
               /\ q = true_divide (length a - hamming_distance a b) (length a)
               /\ (0 <= q <= 1)%Q)
    /\ (forall inputstring L,
           0 <= L ->
           exists h, __init__ inputstring L PyNone = Ret h
                     /\ length h = L /\ 0 <= hash h < 2 ^ L).
Proof.
  intros U. split; [|split; [|split; [|split]]].
  - intros X. rewrite init_fresh.
    destruct (create_hash_range 64 X ltac:(lia)) as (v & Hv & _).
    rewrite Hv. cbn [bind]. eexists. eexists. split; [reflexivity|].
    unfold similarity. cbn [length]. cbn [Z.eqb]. split; [reflexivity|].
    assert (Hd : hamming_distance {| hash := v; length := 64 |}
                   {| hash := v; length := 64 |} = 0)
      by (apply hamming_distance_zero; reflexivity).
    rewrite Hd. apply true_divide_same. lia.
  - apply hamming_distance_sym.
  - apply hamming_distance_zero.
  - intros a b Hlen Hpos Ha Hb. rewrite <- Hlen in Hb.
    pose proof (hamming_distance_bound a b (length a) ltac:(lia) Ha Hb) as Hd.
    split; [exact Hd|]. unfold similarity.
    replace (length a =? 0) with false by (symmetry; apply Z.eqb_neq; lia).
    eexists. split; [reflexivity|]. split; [reflexivity|].
    apply true_divide_unit; lia.
  - intros s L HL. rewrite init_fresh.
    destruct (create_hash_range L s HL) as (v & Hv & Hrange).
    rewrite Hv. cbn [bind]. eexists. split; [reflexivity|].
    split; [reflexivity|exact Hrange].
Qed.

(** The theorem at two 8-bit fingerprints, three bits apart. *)
Lemma similarity_of_fingerprints_witness :
  0 <= hamming_distance {| hash := 0xA5; length := 8 |}
         {| hash := 0xA2; length := 8 |} <= 8
  /\ exists q,
      similarity {| hash := 0xA5; length := 8 |} {| hash := 0xA2; length := 8 |}
      = Ret q
      /\ q = true_divide (8 - hamming_distance {| hash := 0xA5; length := 8 |}
                                 {| hash := 0xA2; length := 8 |}) 8
      /\ (0 <= q <= 1)%Q.
Proof.
  apply (proj1 (proj2 (proj2 (proj2 (similarity_of_fingerprints latin1))))
           {| hash := 0xA5; length := 8 |} {| hash := 0xA2; length := 8 |});
    cbn [hash length]; try reflexivity; split; (lia || reflexivity).
Defined.

(** C2. The docstring of [similarity] promises a float from 0.0 to 1.0,
    and so does the claim for two fingerprints of equal length; the code
    breaks it for a fingerprint restored from an existing hash wider than
    its length, which [validate] lets through and the constructor stores
    unchecked.  The 22-digit decimal string below is [2^73 - 2^64];
    against the fingerprint of the empty text, [2^64 - 1], both of length
    64, the distance is 73 and the similarity [-9/64 = -0.140625].  With
    length 0 the quotient raises [ZeroDivisionError]. *)
Lemma similarity_out_of_unit_interval :
  exists a b z : Simhash,
    @__init__ latin1 [] 64 (PyStr (lit "9426286221665580875776")) = Ret a
    /\ @__init__ latin1 [] 64 PyNone = Ret b
    /\ length a = length b
    /\ hamming_distance a b = 73
    /\ similarity a b = Ret (-9 # 64)%Q
    /\ @__init__ latin1 [] 0 PyNone = Ret z
    /\ similarity z z = Raise ZeroDivisionError.
Proof.
  exists {| hash := 2 ^ 73 - 2 ^ 64; length := 64 |}.
  exists {| hash := 2 ^ 64 - 1; length := 64 |}.
  exists {| hash := 0; length := 0 |}.
  repeat split; vm_compute; reflexivity.
Qed.

(** ** Order of the tokens *)

Lemma Permutation_filter_pred {A} (p : A -> bool) l l' :
  Permutation l l' -> Permutation (filter p l) (filter p l').
Proof.
  intros H. induction H as [|x l l' _ IH|x y l|l l' l'' _ IH1 _ IH2].
  - constructor.
  - cbn [filter]. destruct (p x); [constructor|]; exact IH.
  - cbn [filter]. destruct (p x), (p y); try reflexivity. constructor.
  - etransitivity; eassumption.
Qed.

Lemma total_permutation l l' :
  Permutation l l' -> fold_right Z.add 0 l = fold_right Z.add 0 l'.
Proof.
  intros H. induction H as [|x l l' _ IH|x y l|l l' l'' _ IH1 _ IH2];
    cbn [fold_right]; lia.
Qed.

Section Order.
Context {U : UnicodeData}.

Lemma sample_loop_permutation L thresholds :
  forall tokens tokens' sample sample',
    Permutation tokens tokens' -> Permutation sample sample' ->
    Permutation (sample_loop L tokens thresholds sample)
      (sample_loop L tokens' thresholds sample').
Proof.
  induction thresholds as [|i ths IH]; intros tokens tokens' sample sample' Ht Hs.
  - exact Hs.
  - cbn [sample_loop].
    pose proof (Permutation_filter_pred (fun t => i <? len t) _ _ Ht) as Hf.
    assert (Hlen : len (filter (fun t => i <? len t) tokens')
                   = len (filter (fun t => i <? len t) tokens))
      by (unfold len at 1 3; rewrite (Permutation_length Hf); reflexivity).
    rewrite Hlen.
    destruct (L <=? 2 * len (filter (fun t => i <? len t) tokens)).
    + exact Hf.
    + apply IH; assumption.
Qed.

Lemma _sample_tokens_permutation L s1 s2 :
  Permutation (split s1) (split s2) ->
  Permutation (_sample_tokens L s1) (_sample_tokens L s2).
Proof.
  intros H. unfold _sample_tokens. apply sample_loop_permutation.
  - apply Permutation_filter_pred, Permutation_map, H.
  - constructor.
Qed.

Lemma aggregate_permutation tokens tokens' i :
  Permutation tokens tokens' -> aggregate tokens i = aggregate tokens' i.
Proof.
  intros H. unfold aggregate. apply total_permutation, Permutation_map, H.
Qed.

End Order.

(** C3. For a sampled token, [_vector_to_add] has one component per bit
    position of the length: [+1] where that bit of the 8-byte blake2b
    digest, read as an unsigned integer, is set and [-1] elsewhere.
    [create_hash] sums these vectors and sets bit [i] of its result
    exactly when the aggregate at [i] is [>= 0].  The result is a function
    of the input and does not change under a permutation of the
    white-space separated tokens. *)
Theorem create_hash_charikar :
  forall (U : UnicodeData),
    (forall L s, Forall (fun t => isalnum t = true) (_sample_tokens L s))
    /\ (forall L token,
           isalnum token = true ->
           exists b d v,
             encode token = Ret b /\ Blake2b.digest b 8 = Ret d /\ len d = 8
             /\ _hash token = Ret (from_bytes_big d)
             /\ 0 <= from_bytes_big d < 2 ^ 64
             /\ token_hash token = from_bytes_big d
             /\ _vector_to_add L token = Ret v
             /\ len v = Z.max 0 L
             /\ forall i, 0 <= i < L ->
                  nth (Z.to_nat i) v 0
                  = if Z.testbit (from_bytes_big d) i then 1 else -1)
    /\ (forall L s,
           exists h,
             create_hash L s = Ret h
             /\ 0 <= h < 2 ^ Z.max 0 L
             /\ forall i, 0 <= i < L ->
                  Z.testbit h i
                  = (0 <=? fold_right Z.add 0
                             (map (fun t => if Z.testbit (token_hash t) i
                                            then 1 else -1)
                                (_sample_tokens L s))))
    /\ (forall L s1 s2,
           Permutation (split s1) (split s2) ->
           create_hash L s1 = create_hash L s2).
Proof.
  intros U. split; [|split; [|split]].
  - apply _sample_tokens_alnum.
  - intros L token Ht.
    destruct (encode_scalars token) as (b & Hb).
    { eapply forallb_impl; [apply uc_alnum_scalar|]. apply isalnum_chars, Ht. }
    destruct (digest_length b 8 ltac:(lia)) as (d & Hd & Hlen).
    assert (Hh : _hash token = Ret (from_bytes_big d)).
    { unfold _hash. rewrite Hb. cbn [bind]. rewrite Hd. reflexivity. }
    assert (Htok : token_hash token = from_bytes_big d).
    { unfold token_hash. rewrite Hh. reflexivity. }
    exists b, d, (map (vote (token_hash token)) (range L)).
    split; [exact Hb|]. split; [exact Hd|]. split; [exact Hlen|].
    split; [exact Hh|]. split.
    { pose proof (from_bytes_big_bound d) as H. rewrite Hlen in H.
      change (256 ^ 8) with (2 ^ 64) in H. exact H. }
    split; [exact Htok|]. split; [apply _vector_to_add_votes, Ht|]. split.
    { unfold len. rewrite length_map, range_length. lia. }
    intros i Hi. rewrite nth_map_range by exact Hi. rewrite Htok. reflexivity.
  - intros L s. rewrite create_hash_spec. eexists. split; [reflexivity|]. split.
    + pose proof (bits_value_bound (Z.to_nat L)
                    (fun i => 0 <=? aggregate (_sample_tokens L s) i)) as H.
      replace (Z.of_nat (Z.to_nat L)) with (Z.max 0 L) in H by lia. exact H.
    + intros i Hi. rewrite bits_value_testbit by lia. reflexivity.
  - intros L s1 s2 Hperm. rewrite !create_hash_spec. f_equal.
    apply bits_value_ext. intros i _. f_equal.
    apply aggregate_permutation, _sample_tokens_permutation, Hperm.
Qed.

(** The theorem at two orders of the same three tokens. *)
Lemma create_hash_charikar_witness :
  Permutation (split (lit "alpha beta gamma")) (split (lit "gamma alpha beta"))
  /\ @create_hash latin1 64 (lit "alpha beta gamma")
     = @create_hash latin1 64 (lit "gamma alpha beta").
Proof.
  assert (H : Permutation (split (lit "alpha beta gamma"))
                (split (lit "gamma alpha beta"))).
  { change (split (lit "alpha beta gamma"))
      with ([lit "alpha"; lit "beta"] ++ [lit "gamma"]).
    change (split (lit "gamma alpha beta"))
      with ([lit "gamma"] ++ [lit "alpha"; lit "beta"]).
    apply Permutation_app_comm. }
  split; [exact H|].
  apply (proj2 (proj2 (proj2 (create_hash_charikar latin1)))). exact H.
Defined.

(** ** The token sampler *)

Section Sampler.
Context {U : UnicodeData}.

Lemma kept_tokens_in s t :
  In t (kept_tokens s)
  <-> exists w, In w (split s) /\ t = strip punctuation w /\ isalnum t = true.
Proof.
  unfold kept_tokens. rewrite filter_In, in_map_iff. split.
  - intros ((w & <- & Hw) & Ht). exists w. auto.
  - intros (w & Hw & -> & Ht). split; [exists w; auto|exact Ht].
Qed.

Lemma longer_than_in i tokens t :
  In t (longer_than i tokens) <-> In t tokens /\ i < len t.
Proof. unfold longer_than. rewrite filter_In, Z.ltb_lt. reflexivity. Qed.

(** Kept tokens are not empty, so threshold 0 keeps them all. *)
Lemma longer_than_0 s : longer_than 0 (kept_tokens s) = kept_tokens s.
Proof.
  unfold longer_than. apply forallb_filter_id. apply forallb_forall.
  intros t Ht. apply kept_tokens_in in Ht. destruct Ht as (_ & _ & _ & Ht).
  apply Z.ltb_lt. pose proof (isalnum_nonempty t Ht). lia.
Qed.

Lemma _sample_tokens_unfold L s :
  _sample_tokens L s = sample_loop L (kept_tokens s) [4; 3; 2; 1; 0] [].
Proof. reflexivity. Qed.

Ltac split_thresholds L :=
  repeat match goal with
    | |- context [L <=? ?x] => destruct (Z.leb_spec L x)
    end.

Ltac name_samples tokens :=
  set (s4 := filter (fun t => 4 <? len t) tokens) in *;
  set (s3 := filter (fun t => 3 <? len t) tokens) in *;
  set (s2 := filter (fun t => 2 <? len t) tokens) in *;
  set (s1 := filter (fun t => 1 <? len t) tokens) in *;
  set (s0 := filter (fun t => 0 <? len t) tokens) in *;
  clearbody s4 s3 s2 s1 s0; unfold pystr in *.

(** The loop returns the sample of the largest threshold that reaches
    half the length. *)
Lemma sample_loop_first L tokens i :
  0 <= i <= 4 ->
  L <= 2 * len (longer_than i tokens) ->
  (forall j, i < j <= 4 -> 2 * len (longer_than j tokens) < L) ->
  sample_loop L tokens [4; 3; 2; 1; 0] [] = longer_than i tokens.
Proof.
  intros Hi Hreach Hbelow.
  pose proof (Hbelow 4). pose proof (Hbelow 3). pose proof (Hbelow 2).
  pose proof (Hbelow 1). clear Hbelow.
  unfold longer_than in *. cbn [sample_loop].
  assert (i = 0 \/ i = 1 \/ i = 2 \/ i = 3 \/ i = 4) as [->|[->|[->|[->| ->]]]]
    by lia;
    name_samples tokens; split_thresholds L; try reflexivity; exfalso; lia.
Qed.

Lemma sample_loop_none L tokens :
  (forall i, 0 <= i <= 4 -> 2 * len (longer_than i tokens) < L) ->
  sample_loop L tokens [4; 3; 2; 1; 0] [] = longer_than 0 tokens.
Proof.
  intros Hbelow.
  pose proof (Hbelow 4). pose proof (Hbelow 3). pose proof (Hbelow 2).
  pose proof (Hbelow 1). pose proof (Hbelow 0). clear Hbelow.
  unfold longer_than in *. cbn [sample_loop].
  name_samples tokens; split_thresholds L; try reflexivity; exfalso; lia.
Qed.

End Sampler.

(** C4 (amended). The sampler keeps the white-space separated tokens
    that are alphanumeric once punctuation is stripped from both ends
    (the stripped form is kept).  For the thresholds 4, 3, 2, 1, 0 in
    turn, the sample holds the kept tokens strictly longer than the
    threshold, so the minimum token length goes from 5 down to 1; the
    first sample with at least half the length in tokens (32 for length
    64) is returned, and the sample of threshold 0, all kept tokens,
    when none has. *)
Theorem _sample_tokens_thresholds :
  forall (U : UnicodeData) (L : Z) (s : pystr),
    (forall t, In t (kept_tokens s)
               <-> exists w, In w (split s) /\ t = strip punctuation w
                             /\ isalnum t = true)
    /\ (forall i t, In t (longer_than i (kept_tokens s))
                    <-> In t (kept_tokens s) /\ i + 1 <= len t)
    /\ (forall i,
           0 <= i <= 4 ->
           L <= 2 * len (longer_than i (kept_tokens s)) ->
           (forall j, i < j <= 4 ->
                      2 * len (longer_than j (kept_tokens s)) < L) ->
           _sample_tokens L s = longer_than i (kept_tokens s))
    /\ ((forall i, 0 <= i <= 4 ->
                   2 * len (longer_than i (kept_tokens s)) < L) ->
        _sample_tokens L s = kept_tokens s)
    /\ (L = 64 ->
        forall i, L <= 2 * len (longer_than i (kept_tokens s))
                  <-> 32 <= len (longer_than i (kept_tokens s))).
Proof.
  intros U L s. split; [|split; [|split; [|split]]].
  - apply kept_tokens_in.
  - intros i t. rewrite longer_than_in. split; intros [H1 H2]; split; auto; lia.
  - intros i Hi Hreach Hbelow. rewrite _sample_tokens_unfold.
    apply sample_loop_first; assumption.
  - intros Hbelow. rewrite _sample_tokens_unfold, sample_loop_none by assumption.
    apply longer_than_0.
  - intros -> i. lia.
Qed.

(** The theorem at a text of three long tokens and length 6: threshold 4
    already yields three tokens. *)
Lemma _sample_tokens_thresholds_witness :
  @_sample_tokens latin1 6 (lit "(fingerprint) of, several tokens.")
  = [lit "fingerprint"; lit "several"; lit "tokens"].
Proof.
  rewrite (proj1 (proj2 (proj2 (_sample_tokens_thresholds latin1 6
             (lit "(fingerprint) of, several tokens.")))) 4).
  - vm_compute. reflexivity.
  - lia.
  - vm_compute. discriminate.
  - intros j Hj. lia.
Defined.

(** C4 as stated fails: with 32 tokens of five characters and one of
    four, a minimum token length of 4 keeps all 33 tokens, while the code
    starts at tokens longer than 4 and returns the 32 long ones. *)
Lemma _sample_tokens_not_minimum_length :
  let text := join (lit " ") (repeat (lit "token") 32 ++ [lit "word"]) in
  @_sample_tokens latin1 64 text = repeat (lit "token") 32
  /\ @sample_tokens_as_worded latin1 64 text
     = repeat (lit "token") 32 ++ [lit "word"].
Proof. split; vm_compute; reflexivity. Qed.

(** ** The shapes [validate] accepts *)

(** A positive number has [k] digits exactly between [base^(k-1)] and
    [base^k]. *)
Lemma digits_len_iff base n k :
  2 <= base <= 36 -> 0 < n -> 1 <= k ->
  (len (digits base n) = k <-> base ^ (k - 1) <= n < base ^ k).
Proof.
  intros Hb Hn Hk.
  destruct (digits_spec base Hb n ltac:(lia)) as (Hlen & _ & _ & Hlow & Hup).
  specialize (Hlow Hn). split.
  - intros <-. lia.
  - intros [Hlo Hhi].
    destruct (Z.lt_trichotomy (len (digits base n)) k) as [Hlt|[Heq|Hgt]].
    + exfalso. assert (base ^ len (digits base n) <= base ^ (k - 1))
        by (apply Z.pow_le_mono_r; lia). lia.
    + exact Heq.
    + exfalso. assert (base ^ k <= base ^ (len (digits base n) - 1))
        by (apply Z.pow_le_mono_r; lia). lia.
Qed.

Lemma str_text_len n :
  len (sign_prefix n ++ digits 10 (Z.abs n))
  = (if n <? 0 then 1 else 0) + len (digits 10 (Z.abs n)).
Proof. unfold sign_prefix. rewrite len_app. destruct (n <? 0); reflexivity. Qed.

(** Sixteen characters: sixteen digits, or a minus sign and fifteen. *)
Lemma str_text_len_16 n :
  len (sign_prefix n ++ digits 10 (Z.abs n)) = 16
  <-> 10 ^ 15 <= n < 10 ^ 16 \/ - 10 ^ 15 < n <= - 10 ^ 14.
Proof.
  rewrite str_text_len.
  destruct (Z.ltb_spec n 0) as [Hneg|Hpos].
  - rewrite Z.abs_neq by lia.
    pose proof (digits_len_iff 10 (- n) 15 ltac:(lia) ltac:(lia) ltac:(lia)) as H.
    change (15 - 1) with 14 in H. split.
    + intros Hl. right. assert (Hl' : len (digits 10 (- n)) = 15) by lia.
      apply H in Hl'. lia.
    + intros [Hr|Hr]; [exfalso; lia|].
      assert (Hl' : len (digits 10 (- n)) = 15) by (apply H; lia). lia.
  - rewrite Z.abs_eq by lia.
    destruct (Z.eq_dec n 0) as [->|Hne].
    + split; [intros Hl; vm_compute in Hl; discriminate|].
      intros [Hr|Hr]; exfalso; lia.
    + pose proof (digits_len_iff 10 n 16 ltac:(lia) ltac:(lia) ltac:(lia)) as H.
      change (16 - 1) with 15 in H. split.
      * intros Hl. left. apply H. lia.
      * intros [Hr|Hr]; [|exfalso; lia]. apply H in Hr. lia.
Qed.

(** [str(n)] is the decimal notation up to 4300 digits and raises
    beyond. *)
Lemma str_int_small n :
  Z.abs n < 10 ^ int_max_str_digits ->
  str_int n = Ret (sign_prefix n ++ digits 10 (Z.abs n)).
Proof.
  intros Hn. unfold str_int.
  pose proof (digits_len_le 10 (Z.abs n) int_max_str_digits ltac:(lia)
                (conj (Z.abs_nonneg n) Hn) ltac:(unfold int_max_str_digits; lia)) as H.
  replace (int_max_str_digits <? len (digits 10 (Z.abs n))) with false
    by (symmetry; apply Z.ltb_ge; exact H).
  reflexivity.
Qed.

Lemma str_int_large n :
  10 ^ int_max_str_digits <= Z.abs n -> str_int n = Raise ValueError.
Proof.
  intros Hn. unfold str_int.
  destruct (digits_spec 10 ltac:(lia) (Z.abs n) (Z.abs_nonneg n))
    as (_ & _ & _ & _ & Hup).
  replace (int_max_str_digits <? len (digits 10 (Z.abs n))) with true;
    [reflexivity|].
  symmetry. apply Z.ltb_lt.
  destruct (Z_lt_le_dec int_max_str_digits (len (digits 10 (Z.abs n))))
    as [|Hle]; [assumption|exfalso].
  assert (10 ^ len (digits 10 (Z.abs n)) <= 10 ^ int_max_str_digits)
    by (apply Z.pow_le_mono_r; [lia|exact Hle]).
  lia.
Qed.

Lemma sixteen_digits_small n :
  10 ^ 15 <= n < 10 ^ 16 \/ - 10 ^ 15 < n <= - 10 ^ 14 ->
  Z.abs n < 10 ^ int_max_str_digits.
Proof.
  intros Hn.
  assert (10 ^ 16 <= 10 ^ int_max_str_digits)
    by (apply Z.pow_le_mono_r; unfold int_max_str_digits; lia).
  assert (10 ^ 14 < 10 ^ 16) by (apply Z.pow_lt_mono_r; lia).
  assert (10 ^ 15 < 10 ^ 16) by (apply Z.pow_lt_mono_r; lia).
  lia.
Qed.

Lemma ascii_digits_decimal l :
  forallb (in_range 48 57) l = true -> Forall (is_digit_of 10) l.
Proof.
  intros H. apply Forall_forall. intros c Hc.
  eapply forallb_forall in H; [|exact Hc]. unfold_ranges.
  exists (c - 48). split; [lia|]. unfold digit_char.
  replace (c - 48 <? 10) with true by (symmetry; apply Z.ltb_lt; lia). lia.
Qed.

(** C5 (amended). [validate] returns an [int] unchanged when its [str]
    is 16 characters long, that is a non-negative integer of 16 digits or
    a negative one of 15, and [None] for every other [int] that [str] can
    write (beyond 4300 digits [str] raises); a string of
    18 to 22 digits that [int] reads as decimal digits is parsed in base
    10; a string that is not made of 18 to 22 digits is parsed in base 16
    when [int(s, 16)] accepts it and gives [None] otherwise; [None], a
    [bool], [bytes] and any other object give [None]. *)
Theorem validate_shapes :
  forall (U : UnicodeData),
    (forall n, 10 ^ 15 <= n < 10 ^ 16 \/ - 10 ^ 15 < n <= - 10 ^ 14 ->
               validate (PyInt n) = Ret (Some n))
    /\ (forall n, ~ (10 ^ 15 <= n < 10 ^ 16 \/ - 10 ^ 15 < n <= - 10 ^ 14) ->
                  Z.abs n < 10 ^ 4300 ->
                  validate (PyInt n) = Ret None)
    /\ (forall n, 10 ^ 4300 <= Z.abs n ->
                  validate (PyInt n) = Raise ValueError)
    /\ (forall s,
           isdigit s = true -> 18 <= len s <= 22 ->
           Forall (is_digit_of 10) (map to_ascii s) ->
           validate (PyStr s) = Ret (Some (value 10 (map to_ascii s))))
    /\ (forall s,
           ~ (isdigit s = true /\ 18 <= len s <= 22) ->
           validate (PyStr s) = Ret (parse_int 16 s))
    /\ validate PyNone = Ret None
    /\ (forall b, validate (PyBool b) = Ret None)
    /\ (forall b, validate (PyBytes b) = Ret None)
    /\ (forall o, validate (PyObject o) = Ret None).
Proof.
  intros U. repeat split; try reflexivity.
  - intros n Hn. cbn [validate].
    rewrite str_int_small by (apply sixteen_digits_small, Hn). cbn [bind].
    apply str_text_len_16 in Hn. rewrite Hn. reflexivity.
  - intros n Hn Hsmall. cbn [validate].
    rewrite str_int_small by exact Hsmall. cbn [bind].
    destruct (Z.eqb_spec (len (sign_prefix n ++ digits 10 (Z.abs n))) 16)
      as [E|E]; [|reflexivity].
    exfalso. apply Hn, str_text_len_16, E.
  - intros n Hn. cbn [validate].
    rewrite str_int_large by exact Hn. reflexivity.
  - intros s Hd Hlen Hall. cbn [validate]. rewrite Hd.
    replace (18 <=? len s) with true by (symmetry; apply Z.leb_le; lia).
    replace (len s <=? 22) with true by (symmetry; apply Z.leb_le; lia).
    cbn [andb]. rewrite parse_int_digits; [reflexivity|lia| |exact Hall].
    intros ->. unfold len in Hlen. simpl in Hlen. lia.
  - intros s Hs. cbn [validate].
    destruct (isdigit s && (18 <=? len s) && (len s <=? 22)) eqn:E;
      [|reflexivity].
    exfalso. apply Hs. apply andb_true_iff in E. destruct E as [E E3].
    apply andb_true_iff in E. destruct E as [E1 E2].
    apply Z.leb_le in E2, E3. auto.
Qed.

(** The theorem at a negative integer of fifteen digits, at twenty
    decimal digits and at a hexadecimal string. *)
Lemma validate_shapes_witness :
  @validate latin1 (PyInt (-123456789012345)) = Ret (Some (-123456789012345))
  /\ @validate latin1 (PyInt 123456789012345) = Ret None
  /\ @validate latin1 (PyStr (lit "18446744073709551615"))
     = Ret (Some (@value 10 (map (@to_ascii latin1) (lit "18446744073709551615"))))
  /\ @validate latin1 (PyStr (lit "ffffffffffffffff"))
     = Ret (@parse_int latin1 16 (lit "ffffffffffffffff")).
Proof.
  destruct (validate_shapes latin1) as (Hint & Hnot & _ & Hdec & Hhex & _).
  split; [apply Hint; right; vm_compute; split; [reflexivity|discriminate]|].
  split; [apply Hnot;
          [intros [[H _]|[_ H]]; vm_compute in H; apply H; reflexivity
          |apply Z.lt_le_trans with (10 ^ 15); [reflexivity|];
           apply Z.pow_le_mono_r; lia]|].
  split.
  - apply Hdec; [reflexivity|split; discriminate|].
    apply ascii_digits_decimal. reflexivity.
  - apply Hhex. intros [H _]. vm_compute in H. discriminate.
Defined.

(** C5 as stated fails on negative integers: fifteen digits with a minus
    sign make sixteen characters and are accepted, sixteen digits with a
    minus sign are rejected. *)
Lemma validate_counts_characters :
  @validate latin1 (PyInt (-123456789012345)) = Ret (Some (-123456789012345))
  /\ @validate latin1 (PyInt (-1234567890123456)) = Ret None
  /\ str_int (-123456789012345) = Ret (lit "-123456789012345").
Proof. repeat split; vm_compute; reflexivity. Qed.

(** A digit need not be a decimal digit: eighteen superscript twos pass
    [isdigit], [int] refuses them, and the [ValueError] escapes
    [validate]. *)
Lemma validate_superscript_digits :
  @isdigit latin1 (repeat 0xB2 18) = true
  /\ @validate latin1 (PyStr (repeat 0xB2 18)) = Raise ValueError.
Proof. split; vm_compute; reflexivity. Qed.

(** ** The bag-of-words hash *)

Lemma lor_range a b k :
  0 <= k -> 0 <= a < 2 ^ k -> 0 <= b < 2 ^ k -> 0 <= Z.lor a b < 2 ^ k.
Proof.
  intros Hk Ha Hb.
  assert (H0 : 0 <= Z.lor a b) by (apply Z.lor_nonneg; lia).
  split; [exact H0|].
  destruct (Z.eq_dec (Z.lor a b) 0) as [E|E].
  - rewrite E. apply Z.pow_pos_nonneg; lia.
  - apply Z.log2_lt_pow2; [lia|].
    rewrite Z.log2_lor by lia.
    assert (Hk0 : 0 < k).
    { destruct (Z.eq_dec k 0) as [->|]; [|lia]. exfalso.
      change (2 ^ 0) with 1 in *.
      assert (a = 0) by lia. assert (b = 0) by lia. subst. apply E. reflexivity. }
    assert (Hlog2 : forall c, 0 <= c < 2 ^ k -> Z.log2 c < k).
    { intros c Hc. destruct (Z.eq_dec c 0) as [->|]; [exact Hk0|].
      apply Z.log2_lt_pow2; lia. }
    pose proof (Hlog2 a Ha). pose proof (Hlog2 b Hb). lia.
Qed.

Lemma b64_char_urlsafe i : 0 <= i < 64 -> urlsafe_char (b64_char i) = true.
Proof.
  intros Hi. unfold b64_char, urlsafe_char, in_range.
  destruct (Z.ltb_spec i 26); [|destruct (Z.ltb_spec i 52);
    [|destruct (Z.ltb_spec i 62); [|destruct (Z.eqb_spec i 62)]]].
  - replace ((65 <=? 65 + i) && (65 + i <=? 90)) with true; [reflexivity|].
    symmetry. apply andb_true_iff. split; apply Z.leb_le; lia.
  - replace ((97 <=? 97 + (i - 26)) && (97 + (i - 26) <=? 122)) with true;
      [rewrite orb_true_r; reflexivity|].
    symmetry. apply andb_true_iff. split; apply Z.leb_le; lia.
  - replace ((48 <=? 48 + (i - 52)) && (48 + (i - 52) <=? 57)) with true;
      [rewrite !orb_true_r; reflexivity|].
    symmetry. apply andb_true_iff. split; apply Z.leb_le; lia.
  - reflexivity.
  - reflexivity.
Qed.

(** The four sextets of three bytes. *)
Lemma sextets x y z :
  let n := Z_of_byte x in
  let m := Z_of_byte y in
  let k := Z_of_byte z in
  0 <= Z.shiftr n 2 < 64
  /\ 0 <= Z.lor (Z.shiftl (Z.land n 3) 4) (Z.shiftr m 4) < 64
  /\ 0 <= Z.lor (Z.shiftl (Z.land m 15) 2) (Z.shiftr k 6) < 64
  /\ 0 <= Z.land k 63 < 64.
Proof.
  intros n m k.
  pose proof (Z_of_byte_bound x) as Hn. pose proof (Z_of_byte_bound y) as Hm.
  pose proof (Z_of_byte_bound z) as Hk. fold n in Hn. fold m in Hm. fold k in Hk.
  assert (Hs : forall a s, 0 <= s -> Z.shiftr a s = a / 2 ^ s)
    by (intros; apply Z.shiftr_div_pow2; assumption).
  assert (Hl : forall a s, 0 <= s -> Z.shiftl a s = a * 2 ^ s)
    by (intros; apply Z.shiftl_mul_pow2; assumption).
  change 3 with (Z.ones 2). change 15 with (Z.ones 4). change 63 with (Z.ones 6).
  rewrite !Z.land_ones, !Hs, !Hl by lia.
  change (2 ^ 2) with 4. change (2 ^ 4) with 16. change (2 ^ 6) with 64.
  pose proof (Z.mod_pos_bound n 4 ltac:(lia)).
  pose proof (Z.mod_pos_bound m 16 ltac:(lia)).
  pose proof (Z.mod_pos_bound k 64 ltac:(lia)).
  assert (0 <= n / 4 < 64)
    by (split; [apply Z.div_pos; lia | apply Z.div_lt_upper_bound; lia]).
  assert (0 <= m / 16 < 16)
    by (split; [apply Z.div_pos; lia | apply Z.div_lt_upper_bound; lia]).
  assert (0 <= k / 64 < 4)
    by (split; [apply Z.div_pos; lia | apply Z.div_lt_upper_bound; lia]).
  split; [assumption|].
  split; [apply (lor_range (n mod 4 * 16) (m / 16) 6);
          change (2 ^ 6) with 64; lia|].
  split; [apply (lor_range (m mod 16 * 4) (k / 64) 6);
          change (2 ^ 6) with 64; lia|].
  assumption.
Qed.

(** Twelve bytes encode to sixteen characters of the alphabet, unpadded. *)
Lemma urlsafe_b64encode_12 d :
  len d = 12 ->
  len (urlsafe_b64encode d) = 16
  /\ forallb urlsafe_char (urlsafe_b64encode d) = true.
Proof.
  intros Hd. unfold len in Hd.
  do 12 (destruct d as [|? d]; [simpl in Hd; lia|]).
  destruct d; [|simpl in Hd; lia].
  cbn [urlsafe_b64encode]. split; [reflexivity|].
  cbn [forallb].
  repeat match goal with
    | |- context [urlsafe_char (b64_char ?e)] =>
        rewrite (b64_char_urlsafe e)
    end; try reflexivity;
    match goal with
    | |- 0 <= _ < 64 =>
        first [ apply (sextets b b0 b1) | apply (sextets b2 b3 b4)
              | apply (sextets b5 b6 b7) | apply (sextets b8 b9 b10) ]
    end.
Qed.

Lemma dropwhile_head {A} (p : A -> bool) l :
  match l with [] => True | x :: _ => p x = false end -> dropwhile p l = l.
Proof. destruct l as [|x l]; [reflexivity|]. cbn [dropwhile]. intros ->. reflexivity. Qed.

(** White space at neither end: [strip()] changes nothing. *)
Lemma strip_ws_clean s :
  match s with [] => True | x :: _ => uc_isspace x = false end ->
  match rev s with [] => True | x :: _ => uc_isspace x = false end ->
  strip_ws s = s.
Proof.
  intros Hhd Hlast. unfold strip_ws.
  rewrite (dropwhile_head uc_isspace s Hhd).
  rewrite (dropwhile_head uc_isspace (rev s) Hlast). apply rev_involutive.
Qed.

Section BagOfWords.
Context {U : UnicodeData}.

Lemma word_char_cases c :
  word_char c = true -> uc_isalnum c = true \/ c = 95 \/ c = 45.
Proof.
  unfold word_char. intros H.
  apply orb_true_iff in H. destruct H as [H|H]; [|right; right; apply Z.eqb_eq, H].
  apply orb_true_iff in H. destruct H as [H|H]; [left; exact H|].
  right; left; apply Z.eqb_eq, H.
Qed.

Lemma word_char_not_space c : word_char c = true -> uc_isspace c = false.
Proof.
  intros H. destruct (word_char_cases c H) as [Ha|[-> | ->]];
    [apply uc_alnum_not_space, Ha|reflexivity|reflexivity].
Qed.

Lemma word_char_scalar c : word_char c = true -> is_scalar c = true.
Proof.
  intros H. destruct (word_char_cases c H) as [Ha|[-> | ->]];
    [apply uc_alnum_scalar, Ha|reflexivity|reflexivity].
Qed.

Lemma blank_not_word_char : word_char 32 = false.
Proof.
  unfold word_char. destruct (uc_isalnum 32) eqn:E; [|reflexivity].
  apply uc_alnum_not_space in E. discriminate.
Qed.

Lemma forallb_rev {A} (p : A -> bool) l :
  forallb p l = true -> forallb p (rev l) = true.
Proof.
  intros H. apply forallb_forall. intros x Hx. apply in_rev in Hx.
  eapply forallb_forall in H; eassumption.
Qed.

Lemma len_rev {A} (l : list A) : len (rev l) = len l.
Proof. unfold len. rewrite length_rev. reflexivity. Qed.

Lemma emit_in run w :
  forallb word_char run = true -> In w (emit run) -> is_word w.
Proof.
  unfold emit. intros Hrun Hw.
  destruct (Z.leb_spec 3 (len run)) as [H3|H3]; [|destruct Hw].
  destruct Hw as [<-|[]]. split; [rewrite len_rev; exact H3|].
  apply forallb_rev, Hrun.
Qed.

(** Every match is a run of at least three class characters. *)
Lemma findall_from_words s :
  forall run w,
    forallb word_char run = true -> In w (findall_from run s) -> is_word w.
Proof.
  induction s as [|c s IH]; intros run w Hrun Hw.
  - eapply emit_in; eassumption.
  - cbn [findall_from] in Hw. destruct (word_char c) eqn:Hc.
    + apply (IH (c :: run)); [|exact Hw]. cbn [forallb]. rewrite Hc. exact Hrun.
    + apply in_app_or in Hw. destruct Hw as [Hw|Hw].
      * eapply emit_in; eassumption.
      * apply (IH []); [reflexivity|exact Hw].
Qed.

(** A run of class characters is consumed whole. *)
Lemma findall_from_run w :
  forallb word_char w = true ->
  forall run s, findall_from run (w ++ s) = findall_from (rev w ++ run) s.
Proof.
  induction w as [|c w IH]; intros Hw run s; [reflexivity|].
  cbn [forallb] in Hw. apply andb_true_iff in Hw. destruct Hw as [Hc Hw].
  cbn [app findall_from]. rewrite Hc, IH by exact Hw.
  cbn [rev]. rewrite <- app_assoc. reflexivity.
Qed.

(** The matches are the maximal runs of length at least three: a run
    followed by another character, and a run that ends the string. *)
Lemma findall_words_run_then w c s :
  forallb word_char w = true -> word_char c = false ->
  findall_words (w ++ c :: s)
  = (if 3 <=? len w then [w] else []) ++ findall_words s.
Proof.
  intros Hw Hc. unfold findall_words. rewrite findall_from_run by exact Hw.
  cbn [findall_from]. rewrite Hc, app_nil_r. unfold emit.
  rewrite len_rev, rev_involutive. reflexivity.
Qed.

Lemma findall_words_run w :
  forallb word_char w = true ->
  findall_words w = if 3 <=? len w then [w] else [].
Proof.
  intros Hw. unfold findall_words.
  rewrite <- (app_nil_r w) at 1. rewrite findall_from_run by exact Hw.
  cbn [findall_from]. unfold emit. rewrite app_nil_r, len_rev, rev_involutive.
  reflexivity.
Qed.

Lemma findall_words_sound s w : In w (findall_words s) -> is_word w.
Proof. apply findall_from_words. reflexivity. Qed.

Lemma is_word_cons w : is_word w -> exists c w', w = c :: w' /\ word_char c = true.
Proof.
  intros [Hlen Hall]. destruct w as [|c w'].
  - unfold len in Hlen. simpl in Hlen. lia.
  - exists c, w'. split; [reflexivity|].
    cbn [forallb] in Hall. apply andb_true_iff in Hall. apply Hall.
Qed.

Lemma is_word_rev w : is_word w -> is_word (rev w).
Proof. intros [Hlen Hall]. split; [rewrite len_rev; exact Hlen|apply forallb_rev, Hall]. Qed.

Lemma join_cons sep w ws :
  ws <> [] -> join sep (w :: ws) = w ++ sep ++ join sep ws.
Proof. destruct ws; [congruence|reflexivity]. Qed.

(** The joined words begin and end with a class character. *)
Lemma join_words_head ws :
  Forall is_word ws -> ws <> [] ->
  exists c rest, join (lit " ") ws = c :: rest /\ word_char c = true.
Proof.
  intros Hall Hne. destruct Hall as [|w ws Hw Hall]; [congruence|].
  destruct (is_word_cons w Hw) as (c & w' & -> & Hc).
  destruct ws as [|w2 ws].
  - exists c, w'. split; [reflexivity|exact Hc].
  - rewrite join_cons by discriminate. exists c. eexists.
    split; [reflexivity|exact Hc].
Qed.

Lemma join_words_last ws :
  Forall is_word ws -> ws <> [] ->
  exists c rest, rev (join (lit " ") ws) = c :: rest /\ word_char c = true.
Proof.
  intros Hall. induction Hall as [|w ws Hw Hall IH]; intros Hne; [congruence|].
  destruct ws as [|w2 ws].
  - cbn [join]. destruct (is_word_cons (rev w) (is_word_rev w Hw))
      as (c & r & Hr & Hc).
    exists c, r. split; assumption.
  - rewrite join_cons by discriminate. rewrite !rev_app_distr.
    destruct (IH ltac:(discriminate)) as (c & r & Hr & Hc).
    rewrite Hr. exists c. eexists. split; [reflexivity|exact Hc].
Qed.

Lemma strip_ws_join_words ws :
  Forall is_word ws -> strip_ws (join (lit " ") ws) = join (lit " ") ws.
Proof.
  intros Hall. destruct ws as [|w ws]; [reflexivity|].
  destruct (join_words_head (w :: ws) Hall ltac:(discriminate))
    as (c & r & Heq & Hc).
  destruct (join_words_last (w :: ws) Hall ltac:(discriminate))
    as (c' & r' & Heq' & Hc').
  apply strip_ws_clean.
  - rewrite Heq. apply word_char_not_space, Hc.
  - rewrite Heq'. apply word_char_not_space, Hc'.
Qed.

Lemma join_words_scalars ws :
  Forall is_word ws -> forallb is_scalar (join (lit " ") ws) = true.
Proof.
  intros Hall. induction Hall as [|w ws [_ Hw] Hall IH]; [reflexivity|].
  assert (Hsc : forallb is_scalar w = true)
    by (eapply forallb_impl; [apply word_char_scalar|exact Hw]).
  destruct ws as [|w2 ws]; [exact Hsc|].
  rewrite join_cons by discriminate. rewrite !forallb_app, Hsc, IH. reflexivity.
Qed.

Lemma findall_words_all s : Forall is_word (findall_words s).
Proof. apply Forall_forall. intros w. apply findall_words_sound. Qed.

End BagOfWords.

(** C8. [generate_bow_hash] lower-cases the text, takes the runs of at
    least three [[\w-]] characters, joins them with single blanks and
    returns the blake2b digest of the UTF-8 form of that string, of the
    required size (24 bytes when the caller gives none, any size from 1
    to 64); [generate_hash_filename] is the URL-safe base64 form of the
    12-byte digest, sixteen characters of [A-Za-z0-9-_], and a function of
    the content. *)
Theorem generate_bow_hash_digest :
  forall (U : UnicodeData),
    (forall s w, In w (findall_words s) ->
                 3 <= len w /\ forallb word_char w = true)
    /\ (forall w c s,
           forallb word_char w = true -> word_char c = false ->
           findall_words (w ++ c :: s)
           = (if 3 <=? len w then [w] else []) ++ findall_words s)
    /\ (forall w,
           forallb word_char w = true ->
           findall_words w = if 3 <=? len w then [w] else [])
    /\ (forall string length,
           1 <= length <= 64 ->
           exists b d,
             encode (join (lit " ") (findall_words (uc_lower string))) = Ret b
             /\ Blake2b.digest b length = Ret d
             /\ len d = length
             /\ generate_bow_hash string length = Ret d)
    /\ (forall string length,
           length < 1 \/ 64 < length ->
           generate_bow_hash string length = Raise ValueError)
    /\ (forall content,
           exists d,
             generate_bow_hash content 12 = Ret d
             /\ len d = 12
             /\ generate_hash_filename content = Ret (urlsafe_b64encode d)
             /\ len (urlsafe_b64encode d) = 16
             /\ forallb urlsafe_char (urlsafe_b64encode d) = true).
Proof.
  intros U.
  assert (Hbow : forall string length,
             exists b,
               encode (join (lit " ") (findall_words (uc_lower string))) = Ret b
               /\ generate_bow_hash string length = Blake2b.digest b length).
  { intros s n. unfold generate_bow_hash.
    rewrite strip_ws_join_words by apply findall_words_all.
    destruct (encode_scalars (join (lit " ") (findall_words (uc_lower s))))
      as (b & Hb); [apply join_words_scalars, findall_words_all|].
    exists b. rewrite Hb. split; reflexivity. }
  assert (Hsize : forall string length,
             1 <= length <= 64 ->
             exists b d,
               encode (join (lit " ") (findall_words (uc_lower string))) = Ret b
               /\ Blake2b.digest b length = Ret d
               /\ len d = length
               /\ generate_bow_hash string length = Ret d).
  { intros s n Hn. destruct (Hbow s n) as (b & Hb & Hg).
    destruct (digest_length b n Hn) as (d & Hd & Hlen).
    exists b, d. rewrite Hg. auto. }
  split; [apply findall_words_sound|].
  split; [apply findall_words_run_then|].
  split; [apply findall_words_run|].
  split; [exact Hsize|]. split.
  - intros s n Hn. destruct (Hbow s n) as (b & _ & ->).
    apply digest_invalid_size, Hn.
  - intros content. destruct (Hsize content 12 ltac:(lia)) as (b & d & _ & _ & Hlen & Hg).
    exists d. split; [exact Hg|]. split; [exact Hlen|].
    split; [unfold generate_hash_filename; rewrite Hg; reflexivity|].
    apply urlsafe_b64encode_12, Hlen.
Qed.

(** The theorem at a short text: the words are [hello world hello]. *)
Lemma generate_bow_hash_digest_witness :
  @findall_words latin1 (@uc_lower latin1 (lit "Hello, World! Hello to us"))
  = [lit "hello"; lit "world"; lit "hello"]
  /\ @generate_hash_filename latin1 (lit "Hello, World! Hello to us")
     = Ret (lit "opa2RoYTRp9_WraN")
  /\ exists b d,
      encode (join (lit " ")
                (@findall_words latin1
                   (@uc_lower latin1 (lit "Hello, World! Hello to us")))) = Ret b
      /\ Blake2b.digest b 24 = Ret d
      /\ len d = 24
      /\ @generate_bow_hash latin1 (lit "Hello, World! Hello to us") 24 = Ret d.
Proof.
  split; [vm_compute; reflexivity|]. split; [vm_compute; reflexivity|].
  apply (proj1 (proj2 (proj2 (proj2 (generate_bow_hash_digest latin1))))).
  lia.
Defined.


Section UrlStoreFacts.
Import UrlStore.

Lemma add_url_origins origin path s :
  origins (add_url origin path s)
  = if existsb (String.eqb origin) (origins s) then origins s
    else (origins s ++ [origin])%list.
Proof.
  induction s as [|[o b] s IH]; [reflexivity|].
  cbn [add_url origins map fst existsb] in *.
  rewrite (String.eqb_sym origin o).
  destruct (String.eqb o origin) eqn:E; [reflexivity|].
  cbn [map fst orb]. fold (origins (add_url origin path s)). rewrite IH.
  fold (origins s). destruct (existsb (String.eqb origin) (origins s)); reflexivity.
Qed.

Lemma add_url_nodup origin path s :
  NoDup (origins s) -> NoDup (origins (add_url origin path s)).
Proof.
  intros H. rewrite add_url_origins.
  destruct (existsb (String.eqb origin) (origins s)) eqn:E; [exact H|].
  apply NoDup_app; [exact H|repeat constructor; intros []|].
  intros x Hx [Heq|[]]. subst x.
  assert (existsb (String.eqb origin) (origins s) = true); [|congruence].
  apply existsb_exists. exists origin. split; [exact Hx|apply String.eqb_refl].
Qed.

(** The origins after [add_url]: those before, and the one added. *)
Lemma add_url_in origin path s o :
  In o (origins (add_url origin path s)) <-> In o (origins s) \/ o = origin.
Proof.
  rewrite add_url_origins.
  destruct (existsb (String.eqb origin) (origins s)) eqn:E.
  - apply existsb_exists in E. destruct E as (x & Hx & Ex).
    apply String.eqb_eq in Ex. subst x. split; [auto|].
    intros [H| ->]; assumption.
  - rewrite in_app_iff. cbn [In]. split.
    + intros [H|[H|[]]]; auto.
    + intros [H|H]; auto.
Qed.

Lemma add_url_fresh origin path s : fresh s -> fresh (add_url origin path s).
Proof.
  unfold fresh. intros H. induction H as [|[o b] s [Hp Hl] H IH].
  - repeat constructor. discriminate.
  - cbn [add_url]. destruct (String.eqb o origin).
    + constructor; [|exact H]. cbn [snd] in *.
      destruct (existsb (String.eqb path) (pending b)); [auto|].
      cbn [pending last_access]. split; [|exact Hl].
      intros E. apply app_eq_nil in E. destruct E. discriminate.
    + constructor; [auto|exact IH].
Qed.

Lemma add_to_store_invariant urls :
  forall s,
    fresh s -> NoDup (origins s) ->
    let s' := fold_left (fun s u =>
                           match split_url u with
                           | Some (origin, path) => add_url origin path s
                           | None => s
                           end) urls s in
    fresh s' /\ NoDup (origins s')
    /\ forall o, In o (origins s')
                 <-> In o (origins s)
                     \/ exists u, In u urls /\ origin_of u = Some o.
Proof.
  induction urls as [|u urls IH]; intros s Hf Hn.
  - cbn [fold_left]. split; [exact Hf|]. split; [exact Hn|].
    intros o. split; [auto|]. intros [H|(u & [] & _)]. exact H.
  - cbn [fold_left]. unfold origin_of.
    destruct (split_url u) as [[o' p]|] eqn:Eu.
    + destruct (IH (add_url o' p s) (add_url_fresh _ _ _ Hf)
                  (add_url_nodup _ _ _ Hn)) as (H1 & H2 & H3).
      split; [exact H1|]. split; [exact H2|]. intros o. rewrite H3, add_url_in.
      split.
      * intros [[H| ->]|(v & Hv & Ev)]; [auto| |right; exists v; cbn [In]; auto].
        right. exists u. rewrite Eu. split; [left; reflexivity|reflexivity].
      * intros [H|(v & [<-|Hv] & Ev)]; [auto| |right; exists v; auto].
        rewrite Eu in Ev. injection Ev as <-. auto.
    + destruct (IH s Hf Hn) as (H1 & H2 & H3).
      split; [exact H1|]. split; [exact H2|]. intros o. rewrite H3.
      split.
      * intros [H|(v & Hv & Ev)]; [auto|right; exists v; cbn [In]; auto].
      * intros [H|(v & [<-|Hv] & Ev)]; [auto| |right; exists v; auto].
        rewrite Eu in Ev. discriminate.
Qed.

Lemma add_to_store_fresh urls :
  fresh (add_to_store urls) /\ NoDup (origins (add_to_store urls))
  /\ forall o, In o (origins (add_to_store urls))
               <-> exists u, In u urls /\ origin_of u = Some o.
Proof.
  destruct (add_to_store_invariant urls [] ltac:(constructor) ltac:(constructor))
    as (H1 & H2 & H3).
  split; [exact H1|]. split; [exact H2|]. intros o. rewrite (H3 o).
  split; [intros [[]|H]; exact H|auto].
Qed.

(** A call keeps the origins of the store. *)
Lemma load_buffer_origins now interval s :
  origins (snd (load_buffer now interval s)) = origins s.
Proof.
  induction s as [|[o b] s IH]; [reflexivity|].
  cbn [load_buffer]. destruct (load_buffer now interval s) as [batch rest].
  cbn [snd] in IH.
  destruct (pending b) as [|p ps]; [|destruct (rested now interval b)];
    cbn [snd origins map fst]; fold (origins rest); fold (origins s);
    rewrite IH; reflexivity.
Qed.

(** A batch holds at most one URL of an origin of the store, in the
    order of the store. *)
Lemma load_buffer_batch now interval s :
  (List.length (fst (load_buffer now interval s)) <= List.length (origins s))%nat
  /\ incl (map fst (fst (load_buffer now interval s))) (origins s)
  /\ (NoDup (origins s) -> NoDup (map fst (fst (load_buffer now interval s)))).
Proof.
  induction s as [|[o b] s (IHlen & IHincl & IHnodup)].
  - cbn. split; [lia|]. split; [apply incl_refl|auto].
  - cbn [load_buffer]. destruct (load_buffer now interval s) as [batch rest].
    cbn [fst] in *. cbn [origins map fst List.length]. fold (origins s).
    assert (Hskip :
             (List.length batch <= S (List.length (origins s)))%nat
             /\ incl (map fst batch) (o :: origins s)
             /\ (NoDup (o :: origins s) -> NoDup (map fst batch))).
    { split; [lia|]. split; [apply incl_tl, IHincl|].
      intros Hn. apply IHnodup. inversion Hn; assumption. }
    destruct (pending b) as [|p ps]; [exact Hskip|].
    destruct (rested now interval b); [|exact Hskip].
    cbn [fst map List.length]. split; [lia|]. split.
    + apply incl_cons; [left; reflexivity|apply incl_tl, IHincl].
    + intros Hn. inversion Hn as [|? ? Hnotin Hn']; subst.
      constructor; [|apply IHnodup, Hn'].
      intros Hin. apply Hnotin, IHincl, Hin.
Qed.

(** From a fresh store every origin gives one URL and is accessed. *)
Lemma load_buffer_fresh now interval s :
  fresh s ->
  map fst (fst (load_buffer now interval s)) = origins s
  /\ Forall (fun ob => last_access (snd ob) = Some now)
       (snd (load_buffer now interval s)).
Proof.
  unfold fresh. intros H.
  induction H as [|[o b] s [Hp Hl] H [IH1 IH2]]; [split; [reflexivity|constructor]|].
  cbn [load_buffer]. destruct (load_buffer now interval s) as [batch rest].
  cbn [fst snd] in *. destruct (pending b) as [|p ps]; [congruence|].
  unfold rested. rewrite Hl. cbn [fst snd map origins]. fold (origins s).
  rewrite IH1. split; [reflexivity|]. constructor; [reflexivity|exact IH2].
Qed.

(** Where every origin was accessed less than the interval ago, the
    buffer is empty. *)
Lemma load_buffer_cooling now interval t s :
  now - t < interval ->
  Forall (fun ob => last_access (snd ob) = Some t) s ->
  fst (load_buffer now interval s) = [].
Proof.
  intros Ht H. induction H as [|[o b] s Hb H IH]; [reflexivity|].
  cbn [load_buffer]. destruct (load_buffer now interval s) as [batch rest].
  cbn [fst snd] in *. destruct (pending b) as [|p ps]; [exact IH|].
  unfold rested. rewrite Hb.
  replace (interval <=? now - t)%Z with false by (symmetry; apply Z.leb_gt; lia).
  exact IH.
Qed.

Lemma batches_bounded calls :
  forall s,
    NoDup (origins s) ->
    Forall (fun batch =>
              (List.length batch <= List.length (origins s))%nat
              /\ NoDup (map fst batch)
              /\ incl (map fst batch) (origins s))
      (batches calls s).
Proof.
  induction calls as [|[now interval] calls IH]; intros s Hn; [constructor|].
  cbn [batches].
  pose proof (load_buffer_batch now interval s) as (Hlen & Hincl & Hnd).
  pose proof (load_buffer_origins now interval s) as Ho.
  destruct (load_buffer now interval s) as [batch s']. cbn [fst snd] in *.
  constructor; [auto|].
  rewrite <- Ho. apply IH. rewrite Ho. exact Hn.
Qed.

(** Counting the URLs origin by origin. *)
Lemma list_sum_const {A} (f : A -> nat) (n : nat) l :
  (forall x, In x l -> f x = n) -> list_sum (map f l) = (n * List.length l)%nat.
Proof.
  induction l as [|x l IH]; intros H; [cbn; lia|].
  change (list_sum (map f (x :: l))) with (f x + list_sum (map f l))%nat.
  cbn [List.length]. rewrite (H x (or_introl eq_refl)), IH; [lia|].
  intros y Hy. apply H. right. exact Hy.
Qed.

Lemma list_sum_one (o : string) os :
  NoDup os -> In o os ->
  list_sum (map (fun o' => if String.eqb o o' then 1%nat else 0%nat) os) = 1%nat.
Proof.
  intros Hn. induction Hn as [|x os Hx Hn IH]; intros Hin; [destruct Hin|].
  change (list_sum (map ?f (x :: os))) with (f x + list_sum (map f os))%nat.
  cbv beta. destruct (String.eqb_spec o x) as [->|Hne].
  - rewrite (list_sum_const _ 0%nat); [lia|].
    intros y Hy. destruct (String.eqb_spec x y) as [->|]; [contradiction|reflexivity].
  - destruct Hin as [E|Hin]; [congruence|]. rewrite (IH Hin). reflexivity.
Qed.

Lemma list_sum_add {A} (f g : A -> nat) l :
  list_sum (map (fun x => f x + g x)%nat l)
  = (list_sum (map f l) + list_sum (map g l))%nat.
Proof.
  induction l as [|x l IH]; [reflexivity|].
  change (list_sum (map ?h (x :: l))) with (h x + list_sum (map h l))%nat.
  cbv beta. rewrite IH. lia.
Qed.

Lemma urls_by_origin urls os :
  NoDup os ->
  (forall u, In u urls -> exists o, origin_of u = Some o /\ In o os) ->
  List.length urls
  = list_sum (map (fun o => List.length (on_origin o urls)) os).
Proof.
  intros Hn. induction urls as [|u urls IH]; intros H.
  - cbn [List.length on_origin filter]. rewrite (list_sum_const _ 0%nat); [lia|].
    reflexivity.
  - destruct (H u (or_introl eq_refl)) as (o & Ho & Hin).
    cbn [List.length]. rewrite IH by (intros v Hv; apply H; right; exact Hv).
    rewrite (map_ext (fun x => List.length (on_origin x (u :: urls)))
               (fun x => ((if String.eqb o x then 1 else 0)
                          + List.length (on_origin x urls))%nat)).
    + rewrite list_sum_add, (list_sum_one o os Hn Hin). reflexivity.
    + intros x. unfold on_origin. cbn [filter]. rewrite Ho.
      destruct (String.eqb o x); reflexivity.
Qed.

End UrlStoreFacts.

(** The two calls of [test_queue]: at once with an interval of 5 s, and
    0.25 s later with an interval of 0.1 s; both buffers hold 6 URLs. *)
Lemma test_queue_buffers :
  map (@List.length _)
    (UrlStore.batches [(0, 5000); (250, 100)]
       (UrlStore.add_to_store UrlStore.inputurls))
  = [6%nat; 6%nat].
Proof. vm_compute. reflexivity. Qed.

(** C6. For every list of URLs that are three on each of six different
    origins (18 URLs, then), in whatever order and case of scheme and
    host, the store has these six origins and the first buffer of the
    freshly populated store holds exactly 6 entries, one per origin; a
    call less than its politeness interval later gives an empty buffer;
    and every buffer of a later call, whatever its time and interval,
    holds between 0 and 6 entries, at most one per origin. *)
Theorem download_buffer_sizes :
  forall (urls os : list string) (now interval : Z) (calls : list (Z * Z)),
    NoDup os -> List.length os = 6%nat ->
    (forall u, In u urls ->
               exists o, UrlStore.origin_of u = Some o /\ In o os) ->
    (forall o, In o os -> List.length (UrlStore.on_origin o urls) = 3%nat) ->
    let s := UrlStore.add_to_store urls in
    let first := UrlStore.load_buffer now interval s in
    List.length urls = 18%nat
    /\ Permutation (UrlStore.origins s) os
    /\ List.length (fst first) = 6%nat
    /\ Permutation (map fst (fst first)) os
    /\ (forall now' interval',
           now' - now < interval' ->
           fst (UrlStore.load_buffer now' interval' (snd first)) = [])
    /\ Forall (fun batch =>
                 (0 <= List.length batch <= 6)%nat
                 /\ NoDup (map fst batch)
                 /\ incl (map fst batch) os)
         (UrlStore.batches calls (snd first)).
Proof.
  intros urls os now interval calls Hnd Hlen Hin Hthree. cbv zeta.
  destruct (add_to_store_fresh urls) as (Hfresh & Hnodup & Horigins).
  destruct (load_buffer_fresh now interval _ Hfresh) as [Hfirst Haccessed].
  assert (Hperm : Permutation (UrlStore.origins (UrlStore.add_to_store urls)) os).
  { apply NoDup_Permutation; [exact Hnodup|exact Hnd|]. intros o.
    rewrite Horigins. split.
    - intros (u & Hu & Eu). destruct (Hin u Hu) as (o' & Eo' & Ho').
      congruence.
    - intros Ho. pose proof (Hthree o Ho) as H3.
      destruct (UrlStore.on_origin o urls) as [|u rest] eqn:E; [discriminate|].
      assert (Hu : In u (UrlStore.on_origin o urls)) by (rewrite E; left; reflexivity).
      unfold UrlStore.on_origin in Hu. apply filter_In in Hu.
      destruct Hu as [Hu Eu]. exists u. split; [exact Hu|].
      destruct (UrlStore.origin_of u) as [o'|]; [|discriminate].
      apply String.eqb_eq in Eu. congruence. }
  assert (Hsix : List.length (UrlStore.origins (UrlStore.add_to_store urls)) = 6%nat)
    by (rewrite (Permutation_length Hperm); exact Hlen).
  split.
  { rewrite (urls_by_origin urls os Hnd Hin), (list_sum_const _ 3%nat) by exact Hthree.
    rewrite Hlen. reflexivity. }
  split; [exact Hperm|]. split; [rewrite <- Hsix, <- Hfirst, length_map; reflexivity|].
  split; [rewrite Hfirst; exact Hperm|]. split.
  - intros now' interval' Hsoon.
    apply (load_buffer_cooling now' interval' now); assumption.
  - pose proof (batches_bounded calls
                  (snd (UrlStore.load_buffer now interval
                          (UrlStore.add_to_store urls)))) as Hb.
    rewrite load_buffer_origins in Hb. specialize (Hb Hnodup).
    eapply Forall_impl; [|exact Hb]. intros batch (Hl & Hn & Hi).
    split; [lia|]. split; [exact Hn|].
    intros o Ho. eapply Permutation_in; [exact Hperm|apply Hi, Ho].
Qed.

(** Checks that decide the hypotheses of the theorem on a given list. *)
Lemma origins_among_check urls os :
  forallb (fun u => match UrlStore.origin_of u with
                    | Some o => existsb (String.eqb o) os
                    | None => false
                    end) urls = true ->
  forall u, In u urls -> exists o, UrlStore.origin_of u = Some o /\ In o os.
Proof.
  intros H u Hu. eapply forallb_forall in H; [|exact Hu].
  destruct (UrlStore.origin_of u) as [o|]; [|discriminate].
  exists o. split; [reflexivity|]. apply existsb_exists in H.
  destruct H as (x & Hx & E). apply String.eqb_eq in E. subst x. exact Hx.
Qed.

Lemma three_each_check urls os :
  forallb (fun o => Nat.eqb (List.length (UrlStore.on_origin o urls)) 3) os
  = true ->
  forall o, In o os -> List.length (UrlStore.on_origin o urls) = 3%nat.
Proof.
  intros H o Ho. eapply forallb_forall in H; [|exact Ho].
  apply Nat.eqb_eq, H.
Qed.

Lemma nodup_check (os : list string) : nodup string_dec os = os -> NoDup os.
Proof. intros <-. apply NoDup_nodup. Qed.

(** The theorem at the 18 URLs of [test_queue], read at once and a quarter
    of a second later, and at a list of 18 URLs on six hosts in mixed
    case and order. *)
Lemma download_buffer_sizes_witness :
  (let first :=
     UrlStore.load_buffer 0 5000 (UrlStore.add_to_store UrlStore.inputurls) in
   List.length UrlStore.inputurls = 18%nat
   /\ List.length (fst first) = 6%nat
   /\ fst (UrlStore.load_buffer 250 5000 (snd first)) = []
   /\ List.length (fst (UrlStore.load_buffer 250 100 (snd first))) = 6%nat)
  /\ List.length
       (fst (UrlStore.load_buffer 0 5000
               (UrlStore.add_to_store
                  ["https://a.org/1"; "HTTPS://b.org/1"; "https://A.org/2";
                   "https://c.org/1"; "https://B.ORG/2"; "https://a.org/3";
                   "http://a.org/1"; "https://d.org"; "https://c.org/2";
                   "https://b.org/3"; "http://A.org/2"; "https://D.org/x";
                   "Http://a.org/3"; "https://e.org/1"; "https://E.org/2";
                   "https://c.org/3"; "https://e.org/3"; "https://d.org/y"
                  ]%string)))
     = 6%nat.
Proof.
  split.
  - destruct (download_buffer_sizes UrlStore.inputurls
                ["https://test1.org"; "https://test2.org"; "https://test3.org";
                 "https://test4.org"; "https://test5.org"; "https://test6.org"
                ]%string 0 5000 [])
      as (H18 & _ & H6 & _ & Hsoon & _).
    + apply nodup_check. reflexivity.
    + reflexivity.
    + apply origins_among_check. reflexivity.
    + apply three_each_check. reflexivity.
    + cbv zeta. split; [exact H18|]. split; [exact H6|].
      split; [apply Hsoon; reflexivity|]. vm_compute. reflexivity.
  - destruct (download_buffer_sizes
                ["https://a.org/1"; "HTTPS://b.org/1"; "https://A.org/2";
                 "https://c.org/1"; "https://B.ORG/2"; "https://a.org/3";
                 "http://a.org/1"; "https://d.org"; "https://c.org/2";
                 "https://b.org/3"; "http://A.org/2"; "https://D.org/x";
                 "Http://a.org/3"; "https://e.org/1"; "https://E.org/2";
                 "https://c.org/3"; "https://e.org/3"; "https://d.org/y"
                ]%string
                ["https://a.org"; "https://b.org"; "https://c.org";
                 "http://a.org"; "https://d.org"; "https://e.org"]%string
                0 5000 [])
      as (_ & _ & H6 & _).
    + apply nodup_check. reflexivity.
    + reflexivity.
    + apply origins_among_check. reflexivity.
    + apply three_each_check. reflexivity.
    + exact H6.
Defined.

Section DecodeFacts.
Import Decode.

Lemma first_success_none codecs b :
  (forall c, In c codecs -> decompress c b = None) ->
  first_success codecs b = None.
Proof.
  induction codecs as [|c codecs IH]; intros H; [reflexivity|].
  cbn [first_success]. rewrite (H c (or_introl eq_refl)).
  apply IH. intros c' Hc'. apply H. right. exact Hc'.
Qed.

Lemma first_success_some codecs b out :
  first_success codecs b = Some out ->
  exists c, In c codecs /\ decompress c b = Some out.
Proof.
  induction codecs as [|c codecs IH]; [discriminate|].
  cbn [first_success]. destruct (decompress c b) as [o|] eqn:E.
  - intros [= <-]. exists c. split; [left; reflexivity|exact E].
  - intros H. destruct (IH H) as (c' & Hin & Hc'). exists c'.
    split; [right; exact Hin|exact Hc'].
Qed.

(** Without the magic number there is no gzip member. *)
Lemma gunzip_without_magic b :
  b <> [] -> gzip_magic b = false -> gunzip b = None.
Proof.
  intros Hb Hm. unfold gunzip. destruct b as [|x b]; [congruence|].
  cbn [gunzip_members]. unfold gzip_header. rewrite Hm. reflexivity.
Qed.

(** A header has ten bytes. *)
Lemma gunzip_short b : b <> [] -> len b < 10 -> gunzip b = None.
Proof.
  intros Hb Hlen. unfold gunzip. destruct b as [|x b]; [congruence|].
  cbn [gunzip_members].
  replace (gzip_header (x :: b)) with (@None bytes); [reflexivity|].
  unfold gzip_header. destruct (negb (gzip_magic (x :: b))); [reflexivity|].
  unfold len in Hlen.
  do 9 (destruct b as [|? b]; [reflexivity|]).
  cbn [List.length] in Hlen. lia.
Qed.

Lemma zlib_without_header b : zlib_header b = false -> zlib_decompress b = None.
Proof. intros H. unfold zlib_decompress. rewrite H. reflexivity. Qed.

(** The two magic numbers are no zlib header: the check value fails. *)
Lemma gzip_magic_not_zlib b : gzip_magic b = true -> zlib_header b = false.
Proof.
  destruct b as [|x [|y b]]; try discriminate. cbn [gzip_magic zlib_header].
  intros H. apply andb_true_iff in H. destruct H as [Hx Hy].
  apply Z.eqb_eq in Hx, Hy. rewrite Hx, Hy. reflexivity.
Qed.

(** What is returned for [bytes] that no decoder accepts. *)
Lemma rejected_unchanged optional b :
  gunzip b = None -> zlib_decompress b = None ->
  (forall c, In c optional -> decompress c b = None) ->
  handle_compressed_file optional (PyBytes b) = PyBytes b.
Proof.
  intros Hg Hz Ho. cbn [handle_compressed_file].
  rewrite first_success_none; [reflexivity|].
  intros c [<-|[<-|Hc]]; [exact Hg|exact Hz|apply Ho, Hc].
Qed.

End DecodeFacts.

(** [test_decode] on the compressed page: both forms are decoded, the
    gzip form whatever its time stamp. *)
Lemma test_decode_page :
  forall optional m0 m1 m2 m3,
    Decode.handle_compressed_file optional
      (PyBytes (Decode.of_list [31; 139; 8; 0] ++ [m0; m1; m2; m3]
                ++ Decode.of_list [2; 3] ++ Decode.html_deflated
                ++ Decode.of_list [161; 228; 128; 251; 47; 0; 0; 0]))
    = PyBytes Decode.html
    /\ Decode.handle_compressed_file optional (PyBytes Decode.html_zlib)
       = PyBytes Decode.html.
Proof.
  intros optional m0 m1 m2 m3. split.
  - cbn [Decode.handle_compressed_file Decode.first_success Decode.decompress
           Decode.gzip].
    replace (Decode.gunzip _) with (Some Decode.html); [reflexivity|].
    vm_compute. reflexivity.
  - cbn [Decode.handle_compressed_file Decode.first_success Decode.decompress
           Decode.gzip Decode.deflate].
    replace (Decode.gunzip Decode.html_zlib) with (@None bytes)
      by (vm_compute; reflexivity).
    replace (Decode.zlib_decompress Decode.html_zlib) with (Some Decode.html)
      by (vm_compute; reflexivity).
    reflexivity.
Qed.

(** C7. [handle_compressed_file] returns its input unchanged when it is
    not [bytes] and when no decoder accepts it: not gzip, not deflate, nor
    any of the decoders the runtime has besides.  gzip and deflate refuse
    by their headers every input that begins with neither the gzip magic
    number nor a zlib header (plain input), every input of less than ten
    bytes that begins with the gzip magic number, and every input that
    begins with the zstd magic number; such input comes back as it is.
    What the routine returns otherwise is the output of a decoder that
    accepted the input.  Nothing is raised: a decoder's error is its
    answer [None]. *)
Theorem handle_compressed_file_unchanged :
  forall (optional : list Decode.codec),
    (forall s, Decode.handle_compressed_file optional (PyStr s) = PyStr s)
    /\ (forall b,
           Decode.gunzip b = None -> Decode.zlib_decompress b = None ->
           (forall c, In c optional -> Decode.decompress c b = None) ->
           Decode.handle_compressed_file optional (PyBytes b) = PyBytes b)
    /\ (forall b,
           Decode.gzip_magic b = false -> Decode.zlib_header b = false ->
           (forall c, In c optional -> Decode.decompress c b = None) ->
           Decode.handle_compressed_file optional (PyBytes b) = PyBytes b)
    /\ (forall b,
           Decode.gzip_magic b = true -> len b < 10 ->
           (forall c, In c optional -> Decode.decompress c b = None) ->
           Decode.handle_compressed_file optional (PyBytes b) = PyBytes b)
    /\ (forall rest,
           (forall c, In c optional ->
                      Decode.decompress c
                        (Decode.of_list [0x28; 0xb5; 0x2f; 0xfd] ++ rest)
                      = None) ->
           Decode.handle_compressed_file optional
             (PyBytes (Decode.of_list [0x28; 0xb5; 0x2f; 0xfd] ++ rest))
           = PyBytes (Decode.of_list [0x28; 0xb5; 0x2f; 0xfd] ++ rest))
    /\ (forall filecontent,
           Decode.handle_compressed_file optional filecontent = filecontent
           \/ exists b out c,
               filecontent = PyBytes b
               /\ In c (Decode.gzip :: Decode.deflate :: optional)
               /\ Decode.decompress c b = Some out
               /\ Decode.handle_compressed_file optional filecontent
                  = PyBytes out).
Proof.
  intros optional. split; [reflexivity|]. split; [apply rejected_unchanged|].
  split; [|split; [|split]].
  - intros b Hm Hz Ho. destruct b as [|x b]; [reflexivity|].
    apply rejected_unchanged;
      [apply gunzip_without_magic; [discriminate|exact Hm]
      |apply zlib_without_header, Hz|exact Ho].
  - intros b Hm Hlen Ho.
    apply rejected_unchanged;
      [apply gunzip_short; [intros ->; discriminate|exact Hlen]
      |apply zlib_without_header, gzip_magic_not_zlib, Hm|exact Ho].
  - intros rest Ho.
    apply rejected_unchanged;
      [apply gunzip_without_magic; [discriminate|reflexivity]
      |apply zlib_without_header; reflexivity|exact Ho].
  - intros [| | | |b|]; try (left; reflexivity).
    cbn [Decode.handle_compressed_file].
    destruct (Decode.first_success (Decode.gzip :: Decode.deflate :: optional) b)
      as [out|] eqn:E; [|left; reflexivity].
    right. destruct (first_success_some _ b out E) as (c & Hin & Hc).
    exists b, out, c. auto.
Qed.

(** The theorem at the two corrupt inputs of [test_decode] and at a line
    of text, in a runtime with gzip and deflate alone. *)
Lemma handle_compressed_file_unchanged_witness :
  Decode.handle_compressed_file []
    (PyBytes (Decode.of_list [0x1f; 0x8b; 0x08; 97; 98; 99]))
  = PyBytes (Decode.of_list [0x1f; 0x8b; 0x08; 97; 98; 99])
  /\ Decode.handle_compressed_file []
       (PyBytes (Decode.of_list [0x28; 0xb5; 0x2f; 0xfd] ++ Decode.of_list [97; 98; 99]))
     = PyBytes (Decode.of_list [0x28; 0xb5; 0x2f; 0xfd] ++ Decode.of_list [97; 98; 99])
  /\ Decode.handle_compressed_file [] (PyBytes Decode.html)
     = PyBytes Decode.html
  /\ Decode.handle_compressed_file [] (PyBytes Decode.html_gz)
     = PyBytes Decode.html.
Proof.
  destruct (handle_compressed_file_unchanged []) as (_ & _ & Hplain & Hgz & Hzstd & _).
  split; [|split; [|split]].
  - apply Hgz; [reflexivity|reflexivity|intros c []].
  - apply Hzstd. intros c [].
  - apply Hplain; [reflexivity|reflexivity|intros c []].
  - vm_compute. reflexivity.
Defined.

(** * Further properties of [hashing.py] *)

(** ** The distance counts the differing bits *)

Lemma ones_zero fuel : ones fuel 0 = 0.
Proof. induction fuel as [|fuel IH]; [reflexivity|]. cbn [ones]. rewrite Z.div_0_l, IH by lia. reflexivity. Qed.

Lemma count_cons c x s : count c (x :: s) = (if c =? x then 1 else 0) + count c s.
Proof.
  unfold count. cbn [filter]. destruct (c =? x); [cbn [List.length]|]; lia.
Qed.

(** The ones among the digits that [digits_from] writes are the low bits
    of [n]. *)
Lemma count_digits_from fuel :
  forall n acc,
    0 <= n ->
    count 49 (digits_from 2 fuel n acc) = count 49 acc + ones fuel n.
Proof.
  induction fuel as [|fuel IH]; intros n acc Hn.
  - cbn [digits_from ones]. lia.
  - cbn [digits_from ones].
    assert (Hmod : n mod 2 = 0 \/ n mod 2 = 1)
      by (pose proof (Z.mod_pos_bound n 2 ltac:(lia)); lia).
    assert (Hc : count 49 (digit_char (n mod 2) :: acc)
                 = count 49 acc + n mod 2).
    { rewrite count_cons. destruct Hmod as [E|E]; rewrite E.
      - change (49 =? digit_char 0) with false. cbv iota. lia.
      - change (49 =? digit_char 1) with true. cbv iota. lia. }
    destruct (n / 2 =? 0) eqn:E.
    + apply Z.eqb_eq in E. rewrite E, ones_zero, Hc. lia.
    + rewrite IH by (apply Z.div_pos; lia). rewrite Hc. lia.
Qed.

(** Bits above the size of [n] add nothing. *)
Lemma ones_small k :
  forall n j, 0 <= n < 2 ^ Z.of_nat k -> ones (k + j) n = ones k n.
Proof.
  induction k as [|k IH]; intros n j Hn.
  - cbn [Z.of_nat Z.pow] in Hn. assert (n = 0) by lia. subst.
    rewrite !ones_zero. reflexivity.
  - cbn [Nat.add ones]. f_equal. apply IH.
    rewrite Nat2Z.inj_succ, Z.pow_succ_r in Hn by lia.
    split; [apply Z.div_pos; lia|apply Z.div_lt_upper_bound; lia].
Qed.

Lemma ones_enough k k' n :
  0 <= n < 2 ^ Z.of_nat k -> 0 <= n < 2 ^ Z.of_nat k' -> ones k n = ones k' n.
Proof.
  intros Hk Hk'. destruct (Nat.le_ge_cases k k') as [Hle|Hle].
  - replace k' with (k + (k' - k))%nat by lia. symmetry. apply ones_small, Hk.
  - replace k with (k' + (k - k'))%nat by lia. apply ones_small, Hk'.
Qed.

Lemma range_succ k :
  range (Z.of_nat (S k)) = 0 :: map Z.succ (range (Z.of_nat k)).
Proof.
  unfold range. rewrite !Nat2Z.id. cbn [seq map].
  f_equal. rewrite <- seq_shift, !map_map. apply map_ext.
  intros i. lia.
Qed.

Lemma filter_map_len {A B} (p : B -> bool) (f : A -> B) l :
  len (filter p (map f l)) = len (filter (fun x => p (f x)) l).
Proof.
  unfold len. f_equal. induction l as [|x l IH]; [reflexivity|].
  cbn [map filter]. destruct (p (f x)); cbn [List.length]; rewrite IH; reflexivity.
Qed.

Lemma ones_count_positions k :
  forall n, ones k n = count_positions (Z.of_nat k) (Z.testbit n).
Proof.
  induction k as [|k IH]; intros n; [reflexivity|].
  cbn [ones]. unfold count_positions. rewrite range_succ. cbn [filter].
  rewrite IH. unfold count_positions.
  assert (Htail : len (filter (Z.testbit n) (map Z.succ (range (Z.of_nat k))))
                  = len (filter (Z.testbit (n / 2)) (range (Z.of_nat k)))).
  { rewrite filter_map_len. unfold len. f_equal. f_equal.
    apply filter_ext_in. intros i Hi. apply in_map_iff in Hi.
    destruct Hi as (j & <- & _).
    rewrite Z.div2_bits by lia. reflexivity. }
  rewrite <- Z.bit0_mod. destruct (Z.testbit n 0).
  - change (len (0 :: ?l)) with (Z.of_nat (S (List.length l))).
    unfold len in *. cbn [List.length Z.b2z]. lia.
  - cbn [Z.b2z]. lia.
Qed.

(** [bin(x).count("1")] is the number of set bits of a number below
    [2^k]. *)
Lemma popcount_bits x k :
  0 <= k -> 0 <= x < 2 ^ k ->
  count 49 (bin x) = count_positions k (Z.testbit x).
Proof.
  intros Hk Hx. rewrite count_bin, Z.abs_eq by lia. unfold digits.
  rewrite count_digits_from by lia. change (count 49 []) with 0.
  rewrite Z.add_0_l, <- (Z2Nat.id k Hk), <- ones_count_positions.
  apply ones_enough; [|rewrite Z2Nat.id by exact Hk; exact Hx].
  split; [lia|]. destruct (Z.eq_dec x 0) as [->|Hne]; [reflexivity|].
  rewrite Nat2Z.inj_succ, Z2Nat.id by apply Z.log2_nonneg.
  apply Z.log2_spec. lia.
Qed.

Lemma filter_len_union {A} (p q r : A -> bool) l :
  (forall x, In x l -> p x = true -> q x = true \/ r x = true) ->
  len (filter p l) <= len (filter q l) + len (filter r l).
Proof.
  unfold len. induction l as [|x l IH]; intros H; [cbn; lia|].
  assert (IH' : Z.of_nat (List.length (filter p l))
                <= Z.of_nat (List.length (filter q l))
                   + Z.of_nat (List.length (filter r l)))
    by (apply IH; intros y Hy; apply H; right; exact Hy).
  cbn [filter]. pose proof (H x (or_introl eq_refl)) as Hx.
  destruct (p x), (q x), (r x); cbn [List.length];
    try lia; destruct (Hx eq_refl); discriminate.
Qed.

Lemma distance_count_positions (a b : Simhash) k :
  0 <= k -> 0 <= hash a < 2 ^ k -> 0 <= hash b < 2 ^ k ->
  hamming_distance a b
  = count_positions k
      (fun i => xorb (Z.testbit (hash a) i) (Z.testbit (hash b) i)).
Proof.
  intros Hk Ha Hb. unfold hamming_distance.
  rewrite (popcount_bits _ k Hk) by (apply lxor_range; assumption).
  unfold count_positions. f_equal. apply filter_ext.
  intros i. apply Z.lxor_spec.
Qed.

(** X1. For two fingerprints whose hashes are numbers of [k] bits,
    [hamming_distance] is the number of bit positions below [k] at which
    the hashes differ. *)
Theorem hamming_distance_differing_bits :
  forall (a b : Simhash) (k : Z),
    0 <= k -> 0 <= hash a < 2 ^ k -> 0 <= hash b < 2 ^ k ->
    hamming_distance a b
    = count_positions k
        (fun i => xorb (Z.testbit (hash a) i) (Z.testbit (hash b) i)).
Proof.
  intros a b k Hk Ha Hb. unfold hamming_distance.
  rewrite (popcount_bits _ k Hk) by (apply lxor_range; assumption).
  unfold count_positions. f_equal. apply filter_ext.
  intros i. apply Z.lxor_spec.
Qed.

(** The theorem at two bytes that differ in three positions. *)
Lemma hamming_distance_differing_bits_witness :
  hamming_distance {| hash := 0xA5; length := 8 |} {| hash := 0xA2; length := 8 |}
  = count_positions 8
      (fun i => xorb (Z.testbit 0xA5 i) (Z.testbit 0xA2 i))
  /\ count_positions 8 (fun i => xorb (Z.testbit 0xA5 i) (Z.testbit 0xA2 i)) = 3.
Proof.
  split; [|reflexivity].
  apply (hamming_distance_differing_bits
           {| hash := 0xA5; length := 8 |} {| hash := 0xA2; length := 8 |} 8);
    cbn [hash]; [lia|split; [lia|reflexivity]|split; [lia|reflexivity]].
Defined.

(** X2. On fingerprints of [k] bits the distance obeys the triangle
    inequality. *)
Theorem hamming_distance_triangle :
  forall (a b c : Simhash) (k : Z),
    0 <= k -> 0 <= hash a < 2 ^ k -> 0 <= hash b < 2 ^ k ->
    0 <= hash c < 2 ^ k ->
    hamming_distance a c <= hamming_distance a b + hamming_distance b c.
Proof.
  intros a b c k Hk Ha Hb Hc.
  rewrite !(distance_count_positions _ _ k) by assumption.
  apply filter_len_union. intros i _.
  destruct (Z.testbit (hash a) i), (Z.testbit (hash b) i),
    (Z.testbit (hash c) i); cbn; auto.
Qed.

Lemma hamming_distance_triangle_witness :
  hamming_distance {| hash := 0xA5; length := 8 |} {| hash := 0x0F; length := 8 |}
  <= hamming_distance {| hash := 0xA5; length := 8 |} {| hash := 0xA2; length := 8 |}
     + hamming_distance {| hash := 0xA2; length := 8 |} {| hash := 0x0F; length := 8 |}.
Proof.
  apply (hamming_distance_triangle _ _ _ 8); cbn [hash];
    [lia|split; [lia|reflexivity]..].
Defined.

(** ** Similarity at its ends *)

(** X3. For a length from 1 to [2^53] [similarity] returns the float of
    [(length - distance) / length]; it is 1.0 exactly when the two hashes
    are equal and 0.0 exactly when the distance is the whole length;
    fingerprints of the same length have the same similarity in both
    directions.  (The bound is needed: see [similarity_rounded_to_one].) *)
Theorem similarity_ends :
  forall a b : Simhash,
    0 < length a <= 2 ^ 53 ->
    exists q,
      similarity a b = Ret q
      /\ q = true_divide (length a - hamming_distance a b) (length a)
      /\ ((q == 1)%Q <-> hash a = hash b)
      /\ ((q == 0)%Q <-> hamming_distance a b = length a)
      /\ (length a = length b -> similarity b a = Ret q).
Proof.
  intros a b HL. unfold similarity.
  replace (length a =? 0) with false by (symmetry; apply Z.eqb_neq; lia).
  eexists. split; [reflexivity|]. split; [reflexivity|].
  assert (Hd : 0 <= hamming_distance a b)
    by (unfold hamming_distance; apply count_bounds).
  destruct (true_divide_ends (length a - hamming_distance a b) (length a)
              HL ltac:(lia)) as [H1 H0].
  split; [|split].
  - rewrite H1, <- hamming_distance_zero. lia.
  - rewrite H0. lia.
  - intros E. rewrite <- E.
    replace (length a =? 0) with false by (symmetry; apply Z.eqb_neq; lia).
    rewrite (hamming_distance_sym b a). reflexivity.
Qed.

(** The theorem at two bytes that differ in every bit. *)
Lemma similarity_ends_witness :
  exists q,
    similarity {| hash := 0xA5; length := 8 |} {| hash := 0x5A; length := 8 |} = Ret q
    /\ q = true_divide
             (8 - hamming_distance {| hash := 0xA5; length := 8 |}
                    {| hash := 0x5A; length := 8 |}) 8
    /\ ((q == 1)%Q <-> 0xA5 = 0x5A)
    /\ ((q == 0)%Q
        <-> hamming_distance {| hash := 0xA5; length := 8 |}
              {| hash := 0x5A; length := 8 |} = 8)
    /\ (8 = 8 ->
        similarity {| hash := 0x5A; length := 8 |} {| hash := 0xA5; length := 8 |}
        = Ret q).
Proof.
  apply (similarity_ends {| hash := 0xA5; length := 8 |}
           {| hash := 0x5A; length := 8 |}).
  cbn [length]. split; [reflexivity|discriminate].
Defined.

(** Beyond 53 bits the float cannot tell the quotient from 1: at the
    length [2^60] the hashes 1 and 3, one bit apart, have the similarity
    1.0. *)
Lemma similarity_rounded_to_one :
  hamming_distance {| hash := 1; length := 2 ^ 60 |}
    {| hash := 3; length := 2 ^ 60 |} = 1
  /\ similarity {| hash := 1; length := 2 ^ 60 |}
       {| hash := 3; length := 2 ^ 60 |} = Ret 1%Q.
Proof. split; vm_compute; reflexivity. Qed.

(** ** What the fingerprint is made of *)


Lemma high_bits_zero x n j :
  0 <= x < 2 ^ n -> n <= j -> Z.testbit x j = false.
Proof.
  intros Hx Hj. destruct (Z_lt_le_dec n 0) as [Hneg|Hn].
  - rewrite Z.pow_neg_r in Hx by exact Hneg. lia.
  - rewrite <- (Z.mod_small x (2 ^ n)) by exact Hx.
    apply Z.mod_pow2_bits_high. lia.
Qed.

(** The bits of [h] below [n], put together again. *)
Lemma bits_value_of_bits n h :
  bits_value n (Z.testbit h) = h mod 2 ^ Z.of_nat n.
Proof.
  pose proof (bits_value_bound n (Z.testbit h)) as Hb.
  apply Z.bits_inj'. intros j Hj.
  destruct (Z_lt_le_dec j (Z.of_nat n)) as [Hlt|Hge].
  - rewrite bits_value_testbit, Z.mod_pow2_bits_low by lia. reflexivity.
  - rewrite (high_bits_zero _ (Z.of_nat n)) by assumption.
    rewrite Z.mod_pow2_bits_high by lia. reflexivity.
Qed.

Section Composition.
Context {U : UnicodeData}.



Lemma token_hash_range t : isalnum t = true -> 0 <= token_hash t < 2 ^ 64.
Proof.
  intros Ht. destruct (_hash_alnum t Ht) as (h & Hh & Hr).
  unfold token_hash. rewrite Hh. exact Hr.
Qed.


Lemma _sample_tokens_some L s :
  exists i, 0 <= i <= 4 /\ _sample_tokens L s = longer_than i (kept_tokens s).
Proof.
  rewrite _sample_tokens_unfold. unfold longer_than. cbn [sample_loop].
  repeat match goal with
    | |- context [L <=? ?x] => destruct (L <=? x)
    end;
    [exists 4|exists 3|exists 2|exists 1|exists 0|exists 0];
    (split; [lia|reflexivity]).
Qed.

Lemma longer_than_len_le i tokens : len (longer_than i tokens) <= len tokens.
Proof. unfold longer_than, len. apply Nat2Z.inj_le, filter_length_le. Qed.

End Composition.


(** X5. When exactly one token is kept and the length is above 2, the
    fingerprint is the sub-hash of that token reduced to the length; at
    length 64 it is the 8-byte digest itself. *)
Theorem create_hash_single_token :
  forall (U : UnicodeData) (L : Z) (s t : pystr),
    2 < L -> kept_tokens s = [t] ->
    _sample_tokens L s = [t]
    /\ create_hash L s = Ret (token_hash t mod 2 ^ L)
    /\ (L = 64 -> _hash t = create_hash L s).
Proof.
  intros U L s t HL Hkept.
  assert (Ht : isalnum t = true).
  { assert (Hin : In t (kept_tokens s)) by (rewrite Hkept; left; reflexivity).
    apply kept_tokens_in in Hin. destruct Hin as (_ & _ & _ & Ht). exact Ht. }
  assert (Hsample : _sample_tokens L s = [t]).
  { rewrite _sample_tokens_unfold, sample_loop_none.
    - rewrite longer_than_0. exact Hkept.
    - intros i _. pose proof (longer_than_len_le i (kept_tokens s)) as H.
      rewrite Hkept in H at 2. change (len [t]) with 1 in H. lia. }
  assert (Hhash : create_hash L s = Ret (token_hash t mod 2 ^ L)).
  { rewrite create_hash_spec, Hsample. f_equal.
    rewrite (bits_value_ext _ _ (Z.testbit (token_hash t))).
    - rewrite bits_value_of_bits, Z2Nat.id by lia. reflexivity.
    - intros i _. unfold aggregate, vote. cbn [map fold_right].
      destruct (Z.testbit (token_hash t) i); reflexivity. }
  split; [exact Hsample|]. split; [exact Hhash|].
  intros ->. rewrite Hhash, Z.mod_small by (apply token_hash_range, Ht).
  apply _hash_token_hash, Ht.
Qed.

(** The theorem at a one-word text; the value is the blake2b digest of
    ["Hello"]. *)
Lemma create_hash_single_token_witness :
  @_sample_tokens latin1 64 (lit "Hello!") = [lit "Hello"]
  /\ @create_hash latin1 64 (lit "Hello!")
     = Ret (token_hash (lit "Hello") mod 2 ^ 64)
  /\ (64 = 64 -> _hash (lit "Hello") = @create_hash latin1 64 (lit "Hello!"))
  /\ _hash (lit "Hello") = Ret 0x3c5c8a1fdb206886.
Proof.
  destruct (create_hash_single_token latin1 64 (lit "Hello!") (lit "Hello"))
    as (H1 & H2 & H3); [lia|vm_compute; reflexivity|].
  split; [exact H1|]. split; [exact H2|]. split; [exact H3|].
  vm_compute. reflexivity.
Defined.



(** ** What the fingerprint does not see *)

(** X7. The fingerprint depends on the kept tokens only, and not on
    their order: two texts whose tokens agree once punctuation is stripped
    and the tokens that are not alphanumeric are dropped, in any order,
    have the same fingerprint. *)
Theorem create_hash_of_kept_tokens :
  forall (U : UnicodeData) (L : Z) (s1 s2 : pystr),
    Permutation (kept_tokens s1) (kept_tokens s2) ->
    Permutation (_sample_tokens L s1) (_sample_tokens L s2)
    /\ create_hash L s1 = create_hash L s2.
Proof.
  intros U L s1 s2 Hperm.
  assert (Hs : Permutation (_sample_tokens L s1) (_sample_tokens L s2)).
  { rewrite !_sample_tokens_unfold.
    apply sample_loop_permutation; [exact Hperm|constructor]. }
  split; [exact Hs|].
  rewrite !create_hash_spec. f_equal. apply bits_value_ext. intros i _.
  f_equal. apply aggregate_permutation, Hs.
Qed.

(** The theorem at two texts that differ in punctuation, white space and
    order. *)
Lemma create_hash_of_kept_tokens_witness :
  @create_hash latin1 64 (lit "Hello, world! -- (again)")
  = @create_hash latin1 64 (lit "  again   world? ...   Hello").
Proof.
  apply (create_hash_of_kept_tokens latin1 64).
  change (@kept_tokens latin1 (lit "Hello, world! -- (again)"))
    with ([lit "Hello"; lit "world"] ++ [lit "again"]).
  change (@kept_tokens latin1 (lit "  again   world? ...   Hello"))
    with ([lit "again"] ++ [lit "world"] ++ [lit "Hello"]).
  etransitivity; [apply Permutation_app_comm|].
  apply Permutation_app_head. apply (perm_swap (lit "world") (lit "Hello") []).
Defined.

(** X8. The sample is always the kept tokens longer than one of the
    thresholds 0 to 4, in their order; it has at least half the length in
    tokens whenever the kept tokens have, and it is the whole list of kept
    tokens when they have not. *)
Theorem _sample_tokens_enough :
  forall (U : UnicodeData) (L : Z) (s : pystr),
    (exists i, 0 <= i <= 4
               /\ _sample_tokens L s = longer_than i (kept_tokens s))
    /\ (forall t, In t (_sample_tokens L s) ->
                  In t (kept_tokens s) /\ isalnum t = true /\ 1 <= len t)
    /\ (L <= 2 * len (kept_tokens s) -> L <= 2 * len (_sample_tokens L s))
    /\ (2 * len (kept_tokens s) < L -> _sample_tokens L s = kept_tokens s).
Proof.
  intros U L s. split; [apply _sample_tokens_some|]. split; [|split].
  - intros t Ht. destruct (_sample_tokens_some L s) as (i & _ & Hi).
    rewrite Hi in Ht. apply longer_than_in in Ht. destruct Ht as [Ht _].
    split; [exact Ht|]. apply kept_tokens_in in Ht.
    destruct Ht as (_ & _ & _ & Ht). split; [exact Ht|].
    apply isalnum_nonempty, Ht.
  - intros Henough. rewrite _sample_tokens_unfold.
    pose proof (longer_than_0 s) as H0. unfold longer_than in H0.
    cbn [sample_loop].
    repeat match goal with
      | |- context [L <=? ?x] => destruct (Z.leb_spec L x); [assumption|]
      end.
    rewrite H0 in *. exfalso. unfold pystr in *. lia.
  - intros Hfew. rewrite _sample_tokens_unfold, sample_loop_none.
    + apply longer_than_0.
    + intros i _. pose proof (longer_than_len_le i (kept_tokens s)). lia.
Qed.

Lemma _sample_tokens_enough_witness :
  2 <= 2 * len (@_sample_tokens latin1 2 (lit "a bc def"))
  /\ @_sample_tokens latin1 64 (lit "a bc def") = @kept_tokens latin1 (lit "a bc def").
Proof.
  destruct (_sample_tokens_enough latin1 2 (lit "a bc def")) as (_ & _ & H & _).
  destruct (_sample_tokens_enough latin1 64 (lit "a bc def")) as (_ & _ & _ & H').
  split; [apply H|apply H']; vm_compute; (reflexivity || discriminate).
Defined.

(** X9. A length of zero or less leaves no bit position: whatever the
    text, the fingerprint is 0, built from the tokens longer than four
    characters only, and the constructor returns it.  The length is one
    that [[0] * self.length] takes, from [-2^63] on: below, the list cannot
    be asked for and Python raises [OverflowError]. *)
Theorem create_hash_without_length :
  forall (U : UnicodeData) (L : Z) (s : pystr),
    - 2 ^ 63 <= L <= 0 ->
    _sample_tokens L s = longer_than 4 (kept_tokens s)
    /\ create_hash L s = Ret 0
    /\ __init__ s L PyNone = Ret {| hash := 0; length := L |}.
Proof.
  intros U L s HL.
  assert (Hh : create_hash L s = Ret 0).
  { rewrite create_hash_spec. replace (Z.to_nat L) with O by lia. reflexivity. }
  split; [|split; [exact Hh|]].
  - rewrite _sample_tokens_unfold. apply sample_loop_first; [lia| |intros j Hj; lia].
    pose proof (len_nonneg (longer_than 4 (kept_tokens s))). lia.
  - rewrite init_fresh, Hh. reflexivity.
Qed.

Lemma create_hash_without_length_witness :
  @create_hash latin1 0 (lit "any text at all") = Ret 0
  /\ @__init__ latin1 (lit "any text at all") 0 PyNone
     = Ret {| hash := 0; length := 0 |}.
Proof.
  destruct (create_hash_without_length latin1 0 (lit "any text at all"))
    as (_ & H1 & H2); [split; [discriminate|reflexivity]|].
  split; [exact H1|exact H2].
Defined.

(** ** Reading a fingerprint back *)

Lemma dval_digit base c : base <= 36 -> is_digit_of base c -> 0 <= dval c < base.
Proof.
  intros Hb Hc. destruct (is_digit_of_value base c Hb Hc) as (d & Hd & Hr).
  unfold dval. rewrite Hd. exact Hr.
Qed.

(** A string of [n] digits is worth less than [base^n]. *)
Lemma value_bound base ds :
  2 <= base <= 36 -> Forall (is_digit_of base) ds ->
  0 <= value base ds < base ^ len ds.
Proof.
  intros Hb Hall. induction Hall as [|c ds Hc Hall IH].
  - unfold value, len. simpl. lia.
  - rewrite value_cons. pose proof (dval_digit base c ltac:(lia) Hc) as Hd.
    replace (len (c :: ds)) with (Z.succ (len ds))
      by (unfold len; cbn [List.length]; lia).
    rewrite Z.pow_succ_r by apply len_nonneg.
    assert (0 < base ^ len ds) by (apply Z.pow_pos_nonneg; [lia|apply len_nonneg]).
    nia.
Qed.


Section ReadingBack.
Context {U : UnicodeData}.

Lemma to_hex_digits (self : Simhash) :
  0 <= hash self -> to_hex self = digits 16 (hash self).
Proof. destruct self as [h L]. apply to_hex_nonneg. Qed.


Lemma validate_not_digits s :
  isdigit s = false -> validate (PyStr s) = Ret (_hash_to_int s).
Proof. intros Hs. cbn [validate]. rewrite Hs. reflexivity. Qed.

End ReadingBack.



(** X11. From 18 to 22 hexadecimal digits the round trip can fail: when
    all of them are decimal digits, [validate] reads the string in base 10
    and returns a smaller number than the hash. *)
Theorem validate_to_hex_misread :
  forall (U : UnicodeData) (self : Simhash),
    0 <= hash self ->
    18 <= len (to_hex self) <= 22 ->
    forallb (in_range 48 57) (to_hex self) = true ->
    isdigit (to_hex self) = true ->
    exists n, validate (PyStr (to_hex self)) = Ret (Some n)
              /\ n = value 10 (to_hex self)
              /\ 0 <= n < hash self.
Proof.
  intros U self H0 Hlen Hdec Hdig.
  assert (Hall : Forall (is_digit_of 10) (to_hex self))
    by (apply ascii_digits_decimal, Hdec).
  assert (Hascii : map to_ascii (to_hex self) = to_hex self).
  { rewrite to_hex_digits by exact H0. apply to_ascii_digits; lia. }
  exists (value 10 (to_hex self)). split; [|split; [reflexivity|]].
  - cbn [validate]. rewrite Hdig.
    replace (18 <=? len (to_hex self)) with true
      by (symmetry; apply Z.leb_le; lia).
    replace (len (to_hex self) <=? 22) with true
      by (symmetry; apply Z.leb_le; lia).
    cbn [andb]. rewrite parse_int_digits, Hascii;
      [reflexivity|lia| |rewrite Hascii; exact Hall].
    intros E. rewrite E in Hlen. unfold len in Hlen. simpl in Hlen. lia.
  - pose proof (value_bound 10 (to_hex self) ltac:(lia) Hall) as Hv.
    split; [lia|]. rewrite to_hex_digits in * by exact H0.
    destruct (digits_spec 16 ltac:(lia) (hash self) H0)
      as (_ & _ & _ & Hlow & _).
    assert (Hpos : 0 < hash self).
    { destruct (Z.eq_dec (hash self) 0) as [E|]; [|lia].
      rewrite E in Hlen. vm_compute in Hlen. destruct Hlen as [Hl _].
      exfalso. apply Hl. reflexivity. }
    specialize (Hlow Hpos).
    assert (Hpow : 10 ^ len (digits 16 (hash self))
                   <= 16 ^ (len (digits 16 (hash self)) - 1)).
    { assert (len (digits 16 (hash self)) = 18
              \/ len (digits 16 (hash self)) = 19
              \/ len (digits 16 (hash self)) = 20
              \/ len (digits 16 (hash self)) = 21
              \/ len (digits 16 (hash self)) = 22) as [E|[E|[E|[E|E]]]] by lia;
        rewrite E; vm_compute; discriminate. }
    lia.
Qed.

(** The theorem at the hash [0x111111111111111111], eighteen ones. *)
Lemma validate_to_hex_misread_witness :
  exists n,
    @validate latin1
      (PyStr (to_hex {| hash := 0x111111111111111111; length := 72 |}))
    = Ret (Some n)
    /\ n = value 10 (to_hex {| hash := 0x111111111111111111; length := 72 |})
    /\ 0 <= n < 0x111111111111111111.
Proof.
  apply (validate_to_hex_misread latin1
           {| hash := 0x111111111111111111; length := 72 |});
    cbn [hash];
    [lia|vm_compute; split; discriminate|reflexivity|reflexivity].
Defined.

Section Prefixed.
Context {U : UnicodeData}.

Lemma digits_cons base n :
  2 <= base <= 16 -> 0 <= n ->
  exists d ds, digits base n = d :: ds
               /\ (48 <= d <= 57 \/ 97 <= d <= 102)
               /\ Forall (is_digit_of base) (d :: ds).
Proof.
  intros Hb Hn. destruct (digits_spec base ltac:(lia) n Hn) as (Hlen & Hall & _).
  destruct (digits base n) as [|d ds].
  - unfold len in Hlen. simpl in Hlen. lia.
  - exists d, ds. split; [reflexivity|]. split; [|exact Hall].
    inversion Hall; subst. eapply digit_char_bounds; [|eassumption]. lia.
Qed.

(** After the prefix [0x] and an optional sign, the digits are read. *)
Lemma parse_int_prefixed n :
  0 <= n ->
  parse_int 16 (lit "0x" ++ digits 16 n) = Some n
  /\ parse_int 16 (lit "-" ++ lit "0x" ++ digits 16 n) = Some (- n).
Proof.
  intros Hn.
  destruct (digits_spec 16 ltac:(lia) n Hn) as (_ & _ & Hval & _).
  pose proof (to_ascii_digits 16 n ltac:(lia) Hn) as Hascii.
  destruct (digits_cons 16 n ltac:(lia) Hn) as (d & ds & Hds & Hd & Hall).
  rewrite Hds in *.
  assert (Hloop : digit_loop 16 false false 0 (d :: ds)
                  = Some (n, true, [])).
  { rewrite (digit_loop_digits 16 (d :: ds)) by (lia || exact Hall).
    fold (value 16 (d :: ds)). rewrite Hval. reflexivity. }
  assert (Hd95 : (d =? 95) = false) by (apply Z.eqb_neq; lia).
  unfold parse_int.
  change (lit "-" ++ lit "0x" ++ d :: ds) with (45 :: 48 :: 120 :: d :: ds).
  change (lit "0x" ++ d :: ds) with (48 :: 120 :: d :: ds).
  cbn [map]. cbn [map] in Hascii. rewrite Hascii.
  change (to_ascii 48) with 48. change (to_ascii 120) with 120.
  change (to_ascii 45) with 45.
  split.
  - change (dropwhile c_isspace (48 :: 120 :: d :: ds)) with (48 :: 120 :: d :: ds).
    change (take_sign (48 :: 120 :: d :: ds)) with (1, 48 :: 120 :: d :: ds).
    cbv beta iota.
    replace (skip_prefix 16 (48 :: 120 :: d :: ds)) with (d :: ds)
      by (unfold skip_prefix; change ((48 =? 48) && (16 =? 16)
             && ((120 =? 120) || (120 =? 88))) with true; cbv iota;
          rewrite Hd95; reflexivity).
    unfold starts_with. rewrite Hd95, Hloop. cbn [dropwhile]. f_equal; lia.
  - change (dropwhile c_isspace (45 :: 48 :: 120 :: d :: ds))
      with (45 :: 48 :: 120 :: d :: ds).
    change (take_sign (45 :: 48 :: 120 :: d :: ds))
      with (-1, 48 :: 120 :: d :: ds).
    cbv beta iota.
    replace (skip_prefix 16 (48 :: 120 :: d :: ds)) with (d :: ds)
      by (unfold skip_prefix; change ((48 =? 48) && (16 =? 16)
             && ((120 =? 120) || (120 =? 88))) with true; cbv iota;
          rewrite Hd95; reflexivity).
    unfold starts_with. rewrite Hd95, Hloop. cbn [dropwhile]. f_equal; lia.
Qed.

Lemma parse_int_hex n : parse_int 16 (hex n) = Some n.
Proof.
  unfold hex, sign_prefix.
  destruct (parse_int_prefixed (Z.abs n) (Z.abs_nonneg n)) as [Hpos Hneg].
  destruct (Z.ltb_spec n 0).
  - rewrite Hneg. f_equal. lia.
  - cbn [app]. rewrite Hpos. f_equal. lia.
Qed.

(** A string that begins with [x] is no number. *)
Lemma parse_int_x s : parse_int 16 (120 :: s) = None.
Proof.
  unfold parse_int. cbn [map]. change (to_ascii 120) with 120.
  set (s' := map to_ascii s).
  change (dropwhile c_isspace (120 :: s')) with (120 :: s').
  change (take_sign (120 :: s')) with (1, 120 :: s'). cbv beta iota.
  replace (skip_prefix 16 (120 :: s')) with (120 :: s')
    by (destruct s'; reflexivity).
  reflexivity.
Qed.

Lemma isdigit_with_x s1 s2 :
  uc_isdigit 120 = false -> isdigit (s1 ++ 120 :: s2) = false.
Proof.
  intros Hx. unfold isdigit. rewrite forallb_app. cbn [forallb].
  rewrite Hx, andb_false_r, andb_false_r. reflexivity.
Qed.

End Prefixed.

(** X12. [validate] reads what [hex] writes, prefix and sign included,
    and the constructor stores that number as it is, a negative one as
    well (the letter [x] is no digit). *)
Theorem validate_hex :
  forall (U : UnicodeData),
    uc_isdigit 120 = false ->
    (forall n, validate (PyStr (hex n)) = Ret (Some n))
    /\ (forall inputstring L n,
           n <> 0 ->
           __init__ inputstring L (PyStr (hex n))
           = Ret {| hash := n; length := L |}).
Proof.
  intros U Hx.
  assert (Hv : forall n, validate (PyStr (hex n)) = Ret (Some n)).
  { intros n. rewrite validate_not_digits.
    - unfold _hash_to_int. rewrite parse_int_hex. reflexivity.
    - unfold hex. change (lit "0x" ++ digits 16 (Z.abs n))
        with ([48] ++ 120 :: digits 16 (Z.abs n)).
      rewrite app_assoc. apply isdigit_with_x, Hx. }
  split; [exact Hv|].
  intros s L n Hn. unfold __init__. rewrite Hv. cbn [bind].
  replace (n =? 0) with false by (symmetry; apply Z.eqb_neq; exact Hn).
  reflexivity.
Qed.

Lemma validate_hex_witness :
  @validate latin1 (PyStr (hex (-255))) = Ret (Some (-255))
  /\ hex (-255) = lit "-0xff"
  /\ @__init__ latin1 (lit "a text") 64 (PyStr (lit "-0xff"))
     = Ret {| hash := -255; length := 64 |}.
Proof.
  destruct (validate_hex latin1 eq_refl) as [H1 H2].
  split; [apply H1|]. split; [reflexivity|].
  apply (H2 (lit "a text") 64 (-255)). discriminate.
Defined.

(** X13. A negative hash does not survive [to_hex]: the sign is cut off
    with the first character of the prefix, the string starts with [x],
    [validate] answers [None] and the constructor computes a fresh
    fingerprint. *)
Theorem to_hex_negative :
  forall (U : UnicodeData) (self : Simhash),
    uc_isdigit 120 = false ->
    hash self < 0 ->
    to_hex self = 120 :: digits 16 (- hash self)
    /\ validate (PyStr (to_hex self)) = Ret None
    /\ forall inputstring L,
         __init__ inputstring L (PyStr (to_hex self))
         = __init__ inputstring L PyNone.
Proof.
  intros U self Hx Hneg.
  assert (Hhex : to_hex self = 120 :: digits 16 (- hash self)).
  { unfold to_hex, hex, sign_prefix.
    replace (hash self <? 0) with true by (symmetry; apply Z.ltb_lt; exact Hneg).
    rewrite Z.abs_neq by lia. reflexivity. }
  assert (Hv : validate (PyStr (to_hex self)) = Ret None).
  { rewrite Hhex, validate_not_digits.
    - unfold _hash_to_int. rewrite parse_int_x. reflexivity.
    - apply (isdigit_with_x []), Hx. }
  split; [exact Hhex|]. split; [exact Hv|].
  intros s L. unfold __init__. rewrite Hv. reflexivity.
Qed.

Lemma to_hex_negative_witness :
  to_hex {| hash := -255; length := 64 |} = 120 :: digits 16 (- -255)
  /\ @validate latin1 (PyStr (to_hex {| hash := -255; length := 64 |})) = Ret None
  /\ forall inputstring L,
       @__init__ latin1 inputstring L (PyStr (to_hex {| hash := -255; length := 64 |}))
       = @__init__ latin1 inputstring L PyNone.
Proof.
  apply (to_hex_negative latin1 {| hash := -255; length := 64 |} eq_refl).
  reflexivity.
Defined.

(** ** A digit that [int] does not read *)

Lemma dropwhile_keeps {A} (p : A -> bool) x l :
  In x l -> p x = false -> In x (dropwhile p l).
Proof.
  intros Hin Hp. induction l as [|a l IH]; [destruct Hin|].
  cbn [dropwhile]. destruct (p a) eqn:Ea; [|exact Hin].
  destruct Hin as [E|Hin]; [congruence|apply IH, Hin].
Qed.

(** A character that is neither a digit nor an underscore is never
    consumed by the digit loop. *)
Lemma digit_loop_blocked base b :
  digit_value b = None -> b <> 95 ->
  forall s prev_us seen acc,
    In b s ->
    match digit_loop base prev_us seen acc s with
    | Some (_, _, rest) => In b rest
    | None => True
    end.
Proof.
  intros Hb H95. induction s as [|c s IH]; intros prev_us seen acc Hin;
    [destruct Hin|].
  cbn [digit_loop]. destruct (c =? 95) eqn:Ec.
  - destruct prev_us; [exact I|]. apply IH.
    destruct Hin as [E|Hin]; [apply Z.eqb_eq in Ec; lia|exact Hin].
  - destruct (digit_value c) as [d|] eqn:Ed.
    + destruct (d <? base).
      * apply IH. destruct Hin as [E|Hin]; [congruence|exact Hin].
      * destruct prev_us; [exact I|exact Hin].
    + destruct prev_us; [exact I|exact Hin].
Qed.

Lemma take_sign_keeps b s :
  In b s -> b <> 43 -> b <> 45 -> In b (snd (take_sign s)).
Proof.
  intros Hin H43 H45. destruct s as [|c s]; [destruct Hin|].
  unfold take_sign.
  destruct (c =? 43) eqn:E1; [|destruct (c =? 45) eqn:E2]; cbn [snd].
  - apply Z.eqb_eq in E1. destruct Hin as [E|Hin]; [lia|exact Hin].
  - apply Z.eqb_eq in E2. destruct Hin as [E|Hin]; [lia|exact Hin].
  - exact Hin.
Qed.

Lemma skip_prefix_keeps base b s :
  In b s -> digit_value b = None -> b <> 95 -> In b (skip_prefix base s).
Proof.
  intros Hin Hb H95. unfold skip_prefix.
  destruct s as [|c [|x s']]; try exact Hin.
  destruct ((c =? 48) && (base =? 16) && ((x =? 120) || (x =? 88))) eqn:E;
    [|exact Hin].
  apply andb_true_iff in E. destruct E as [E Ex].
  apply andb_true_iff in E. destruct E as [Ec _]. apply Z.eqb_eq in Ec.
  assert (Hx : x = 120 \/ x = 88)
    by (apply orb_true_iff in Ex; destruct Ex as [Ex|Ex];
        apply Z.eqb_eq in Ex; auto).
  assert (Hs' : In b s').
  { destruct Hin as [E|[E|Hin]]; [| |exact Hin]; exfalso.
    - rewrite <- E, Ec in Hb. discriminate.
    - rewrite <- E in Hb. destruct Hx as [Hx|Hx]; rewrite Hx in Hb; discriminate. }
  destruct s' as [|u s'']; [exact Hs'|].
  destruct (u =? 95) eqn:Eu; [|exact Hs'].
  apply Z.eqb_eq in Eu. destruct Hs' as [E|Hs']; [lia|exact Hs'].
Qed.

Section Blocked.
Context {U : UnicodeData}.

(** [int(s, base)] fails on a string with a character that is no digit,
    sign, underscore or blank. *)
Lemma parse_int_blocked base s b :
  In b (map to_ascii s) ->
  digit_value b = None -> c_isspace b = false ->
  b <> 43 -> b <> 45 -> b <> 95 ->
  parse_int base s = None.
Proof.
  intros Hin Hb Hsp H43 H45 H95. unfold parse_int.
  pose proof (dropwhile_keeps c_isspace b _ Hin Hsp) as H0.
  pose proof (take_sign_keeps b _ H0 H43 H45) as H1.
  destruct (take_sign (dropwhile c_isspace (map to_ascii s))) as [sign s1].
  cbn [snd] in H1.
  pose proof (skip_prefix_keeps base b s1 H1 Hb H95) as H2.
  destruct (starts_with 95 (skip_prefix base s1)); [reflexivity|].
  pose proof (digit_loop_blocked base b Hb H95 (skip_prefix base s1)
                false false 0 H2) as H3.
  destruct (digit_loop base false false 0 (skip_prefix base s1))
    as [[[v seen] rest]|]; [|reflexivity].
  destruct seen; [|reflexivity].
  pose proof (dropwhile_keeps c_isspace b rest H3 Hsp) as H4.
  destruct (dropwhile c_isspace rest); [destruct H4|reflexivity].
Qed.

(** A character beyond ASCII that is neither white space nor a decimal
    digit becomes a question mark. *)
Lemma to_ascii_other c :
  127 <= c -> uc_isspace c = false -> uc_decimal c = None -> to_ascii c = 63.
Proof.
  intros Hc Hsp Hdec. unfold to_ascii.
  replace (c <? 127) with false by (symmetry; apply Z.ltb_ge; lia).
  rewrite Hsp, Hdec. reflexivity.
Qed.

End Blocked.

(** X14. [str.isdigit] accepts digits that are not decimal (superscripts,
    circled digits), [int] does not: for a string of 18 to 22 digits with
    such a character the [ValueError] of [int] leaves [validate], which
    catches nothing on this branch, and the constructor. *)
Theorem validate_value_error :
  forall (U : UnicodeData) (s : pystr) (c : Z),
    isdigit s = true -> 18 <= len s <= 22 ->
    In c s -> 127 <= c -> uc_isspace c = false -> uc_decimal c = None ->
    validate (PyStr s) = Raise ValueError
    /\ forall inputstring L,
         __init__ inputstring L (PyStr s) = Raise ValueError.
Proof.
  intros U s c Hdig Hlen Hin Hc Hsp Hdec.
  assert (Hv : validate (PyStr s) = Raise ValueError).
  { cbn [validate]. rewrite Hdig.
    replace (18 <=? len s) with true by (symmetry; apply Z.leb_le; lia).
    replace (len s <=? 22) with true by (symmetry; apply Z.leb_le; lia).
    cbn [andb].
    rewrite (parse_int_blocked 10 s 63);
      [reflexivity| |reflexivity|reflexivity|lia|lia|lia].
    rewrite <- (to_ascii_other c Hc Hsp Hdec). apply in_map, Hin. }
  split; [exact Hv|]. intros inputstring L. unfold __init__. rewrite Hv.
  reflexivity.
Qed.

(** The theorem at seventeen decimal digits and a superscript two. *)
Lemma validate_value_error_witness :
  @validate latin1 (PyStr (lit "12345678901234567" ++ [0xB2]))
  = Raise ValueError
  /\ forall inputstring L,
       @__init__ latin1 inputstring L
         (PyStr (lit "12345678901234567" ++ [0xB2]))
       = Raise ValueError.
Proof.
  apply (validate_value_error latin1 (lit "12345678901234567" ++ [0xB2]) 0xB2);
    [reflexivity|vm_compute; split; discriminate
    |apply in_or_app; right; left; reflexivity|lia|reflexivity|reflexivity].
Defined.

(** ** Restoring a stored fingerprint *)

Section Restoring.
Context {U : UnicodeData}.



End Restoring.



(** ** The form of [content_fingerprint] *)

Lemma digits_no_leading_zero n :
  0 < n -> starts_with 48 (digits 16 n) = false.
Proof.
  intros Hn.
  destruct (digits_spec 16 ltac:(lia) n ltac:(lia)) as (_ & Hall & Hval & Hlow & _).
  specialize (Hlow Hn).
  destruct (digits 16 n) as [|d ds] eqn:E.
  - unfold value in Hval. simpl in Hval. lia.
  - cbn [starts_with]. apply Z.eqb_neq. intros Hd.
    rewrite value_cons, Hd in Hval. change (dval 48) with 0 in Hval.
    inversion Hall as [|? ? _ Hds]; subst.
    pose proof (value_bound 16 ds ltac:(lia) Hds) as Hb.
    replace (len (48 :: ds) - 1) with (len ds) in Hlow
      by (unfold len; cbn [List.length]; lia).
    lia.
Qed.

(** X16. [content_fingerprint] returns for every text: the result is the
    hash of length 64 written with 1 to 16 lower-case hexadecimal digits
    and read back by its digits; it is not padded, so that it has 16
    characters only from [2^60] on, and begins with [0] only for the hash
    [0]. *)
Theorem content_fingerprint_format :
  forall (U : UnicodeData) (content : pystr),
    exists h,
      create_hash 64 content = Ret h
      /\ 0 <= h < 2 ^ 64
      /\ content_fingerprint content = Ret (digits 16 h)
      /\ 1 <= len (digits 16 h) <= 16
      /\ forallb (fun c => in_range 48 57 c || in_range 97 102 c) (digits 16 h)
         = true
      /\ value 16 (digits 16 h) = h
      /\ (len (digits 16 h) = 16 <-> 2 ^ 60 <= h)
      /\ starts_with 48 (digits 16 h) = (h =? 0).
Proof.
  intros U content.
  destruct (create_hash_range 64 content ltac:(lia)) as (h & Hh & Hr).
  exists h. split; [exact Hh|]. split; [exact Hr|].
  destruct (digits_spec 16 ltac:(lia) h ltac:(lia))
    as (Hlen & Hall & Hval & _ & _).
  split.
  { unfold content_fingerprint. rewrite init_fresh, Hh. cbn [bind].
    rewrite to_hex_nonneg by lia. reflexivity. }
  split.
  { split; [exact Hlen|].
    apply (digits_len_le 16 h 16); [lia| |lia].
    change (16 ^ 16) with (2 ^ 64). exact Hr. }
  split.
  { apply forallb_forall. intros c Hc.
    rewrite Forall_forall in Hall.
    destruct (digit_char_bounds 16 c ltac:(lia) (Hall c Hc)) as [Hd|Hd];
      unfold in_range; apply orb_true_iff; [left|right];
      apply andb_true_iff; split; apply Z.leb_le; lia. }
  split; [exact Hval|]. split.
  { destruct (Z.eq_dec h 0) as [E|Hne].
    - subst h. split; [vm_compute; discriminate|].
      intros H. exfalso. revert H. vm_compute. intros H. apply H. reflexivity.
    - rewrite (digits_len_iff 16 h 16) by lia.
      change (16 ^ (16 - 1)) with (2 ^ 60). change (16 ^ 16) with (2 ^ 64). lia. }
  destruct (Z.eq_dec h 0) as [E|Hne]; [subst h; reflexivity|].
  rewrite digits_no_leading_zero by lia. symmetry. apply Z.eqb_neq, Hne.
Qed.

(** A fingerprint of fifteen characters: the only token is [nine]. *)
Lemma content_fingerprint_fifteen :
  @content_fingerprint latin1 (lit "nine") = Ret (lit "6249764dd89bb31").
Proof. vm_compute. reflexivity. Qed.

(** ** Short tokens beside enough long ones *)

(** X17. Once a text has [length / 2] tokens of five characters or more,
    the sample is those tokens alone: the shorter tokens have no part in
    the fingerprint, and two texts with the same long tokens get the same
    one. *)
Theorem create_hash_long_tokens_only :
  forall (U : UnicodeData) (L : Z) (s1 s2 : pystr),
    L <= 2 * len (longer_than 4 (kept_tokens s1)) ->
    longer_than 4 (kept_tokens s1) = longer_than 4 (kept_tokens s2) ->
    _sample_tokens L s1 = longer_than 4 (kept_tokens s1)
    /\ _sample_tokens L s2 = longer_than 4 (kept_tokens s1)
    /\ create_hash L s1 = create_hash L s2.
Proof.
  intros U L s1 s2 Hlen Heq.
  assert (H1 : _sample_tokens L s1 = longer_than 4 (kept_tokens s1)).
  { rewrite _sample_tokens_unfold. apply sample_loop_first; [lia|exact Hlen|].
    intros j Hj. lia. }
  assert (H2 : _sample_tokens L s2 = longer_than 4 (kept_tokens s1)).
  { rewrite Heq. rewrite _sample_tokens_unfold.
    apply sample_loop_first; [lia|rewrite <- Heq; exact Hlen|].
    intros j Hj. lia. }
  split; [exact H1|]. split; [exact H2|].
  rewrite !create_hash_spec, H1, H2. reflexivity.
Qed.

(** The theorem at two texts around the tokens [hello] and [world]. *)
Lemma create_hash_long_tokens_only_witness :
  @_sample_tokens latin1 4 (lit "hello, a big world")
  = @longer_than 4 (@kept_tokens latin1 (lit "hello, a big world"))
  /\ @_sample_tokens latin1 4 (lit "(hello) to the world!")
     = @longer_than 4 (@kept_tokens latin1 (lit "hello, a big world"))
  /\ @create_hash latin1 4 (lit "hello, a big world")
     = @create_hash latin1 4 (lit "(hello) to the world!").
Proof.
  apply (create_hash_long_tokens_only latin1 4
           (lit "hello, a big world") (lit "(hello) to the world!"));
    [vm_compute; discriminate|reflexivity].
Defined.

(** ** The domain of [_hash] *)

Lemma encode_surrogate s :
  forallb is_scalar s = false -> encode s = Raise UnicodeEncodeError.
Proof.
  induction s as [|c s IH]; intros H; [discriminate|].
  cbn [forallb] in H. cbn [encode]. destruct (is_scalar c); [|reflexivity].
  cbn [andb] in H. rewrite (IH H). reflexivity.
Qed.

(** X18. [_hash] returns a number of 64 bits for every string that UTF-8
    can encode, the empty one as well, and raises [UnicodeEncodeError] for
    a string with a surrogate; [create_hash] never meets the second case:
    whatever the text, every token it samples (for a length that fits a
    machine word) has a sub-hash. *)
Theorem _hash_domain :
  forall (U : UnicodeData) (s : pystr),
    (forallb is_scalar s = true ->
     exists h, _hash s = Ret h /\ 0 <= h < 2 ^ 64)
    /\ (forallb is_scalar s = false -> _hash s = Raise UnicodeEncodeError)
    /\ (forall L, - 2 ^ 63 <= L < 2 ^ 63 ->
                  Forall (fun t => exists h, _hash t = Ret h /\ 0 <= h < 2 ^ 64)
                    (_sample_tokens L s)).
Proof.
  intros U s. split; [|split].
  - intros Hs. unfold _hash. destruct (encode_scalars s Hs) as (b & Hb).
    destruct (digest_length b 8 ltac:(lia)) as (d & Hd & Hlen).
    rewrite Hb. cbn [bind]. rewrite Hd. cbn [bind].
    eexists. split; [reflexivity|].
    pose proof (from_bytes_big_bound d) as H. rewrite Hlen in H.
    change (256 ^ 8) with (2 ^ 64) in H. exact H.
  - intros Hs. unfold _hash. rewrite (encode_surrogate s Hs). reflexivity.
  - intros L _. eapply Forall_impl; [|apply _sample_tokens_alnum].
    intros t Ht. apply _hash_alnum, Ht.
Qed.

(** The theorem at [Hello], at a lone surrogate and at a text with
    both. *)
Lemma _hash_domain_witness :
  (exists h, _hash (lit "Hello") = Ret h /\ 0 <= h < 2 ^ 64)
  /\ _hash [0xD800] = Raise UnicodeEncodeError
  /\ Forall (fun t => exists h, _hash t = Ret h /\ 0 <= h < 2 ^ 64)
       (@_sample_tokens latin1 64 (lit "Hello " ++ [0xD800]))
  /\ @_sample_tokens latin1 64 (lit "Hello " ++ [0xD800]) = [lit "Hello"].
Proof.
  split; [|split; [|split]].
  - apply (proj1 (_hash_domain latin1 (lit "Hello"))). reflexivity.
  - apply (proj1 (proj2 (_hash_domain latin1 [0xD800]))). reflexivity.
  - apply (proj2 (proj2 (_hash_domain latin1 (lit "Hello " ++ [0xD800])))).
    split; [discriminate|reflexivity].
  - reflexivity.
Defined.

(** ** The hash handed over as a number *)

Section IntegerHash.
Context {U : UnicodeData}.

Lemma validate_int_64 n :
  0 <= n < 2 ^ 64 ->
  validate (PyInt n)
  = Ret (if (10 ^ 15 <=? n) && (n <? 10 ^ 16) then Some n else None).
Proof.
  intros Hn. cbn [validate]. rewrite str_int_small.
  - cbn [bind].
    destruct (Z.eqb_spec (len (sign_prefix n ++ digits 10 (Z.abs n))) 16)
      as [E|E].
    + apply str_text_len_16 in E.
      replace ((10 ^ 15 <=? n) && (n <? 10 ^ 16)) with true; [reflexivity|].
      symmetry. apply andb_true_iff.
      split; [apply Z.leb_le|apply Z.ltb_lt]; lia.
    + replace ((10 ^ 15 <=? n) && (n <? 10 ^ 16)) with false; [reflexivity|].
      symmetry. apply not_true_is_false. intros H.
      apply andb_true_iff in H. destruct H as [H1 H2].
      apply Z.leb_le in H1. apply Z.ltb_lt in H2.
      apply E, str_text_len_16. left. split; assumption.
  - rewrite Z.abs_eq by lia. apply Z.lt_le_trans with (10 ^ 20).
    + apply Z.lt_trans with (2 ^ 64); [lia|reflexivity].
    + apply Z.pow_le_mono_r; unfold int_max_str_digits; lia.
Qed.

End IntegerHash.

(** X19. The hash of a fingerprint handed over as the number it is comes
    back only when it has sixteen decimal digits: of the hashes of 64
    bits the constructor keeps those from [10^15] to [10^16 - 1] and
    drops all others without a word, among them every hash from [2^54]
    on, for which it hashes the text it is given. *)
Theorem init_integer_hash :
  forall (U : UnicodeData) (n : Z) (inputstring : pystr) (L : Z),
    0 <= n < 2 ^ 64 ->
    (10 ^ 15 <= n < 10 ^ 16 ->
     __init__ inputstring L (PyInt n) = Ret {| hash := n; length := L |})
    /\ (n < 10 ^ 15 \/ 10 ^ 16 <= n ->
        __init__ inputstring L (PyInt n) = __init__ inputstring L PyNone)
    /\ (2 ^ 54 <= n ->
        __init__ inputstring L (PyInt n) = __init__ inputstring L PyNone).
Proof.
  intros U n s L Hn.
  assert (Hout : n < 10 ^ 15 \/ 10 ^ 16 <= n ->
                 __init__ s L (PyInt n) = __init__ s L PyNone).
  { intros Hr. unfold __init__. rewrite validate_int_64 by exact Hn.
    replace ((10 ^ 15 <=? n) && (n <? 10 ^ 16)) with false; [reflexivity|].
    symmetry. apply andb_false_iff.
    destruct Hr; [left; apply Z.leb_gt|right; apply Z.ltb_ge]; lia. }
  split; [|split; [exact Hout|]].
  - intros Hr. unfold __init__. rewrite validate_int_64 by exact Hn.
    replace ((10 ^ 15 <=? n) && (n <? 10 ^ 16)) with true
      by (symmetry; apply andb_true_iff;
          split; [apply Z.leb_le|apply Z.ltb_lt]; lia).
    cbn [bind]. replace (n =? 0) with false; [reflexivity|].
    symmetry. apply Z.eqb_neq. lia.
  - intros Hr. apply Hout. right.
    apply Z.le_trans with (2 ^ 54); [vm_compute; discriminate|exact Hr].
Qed.

(** The theorem at the hash of the token [Hello], which has nineteen
    decimal digits, and at a number of sixteen. *)
Lemma init_integer_hash_witness :
  @__init__ latin1 (lit "another text") 64 (PyInt 0x3c5c8a1fdb206886)
  = @__init__ latin1 (lit "another text") 64 PyNone
  /\ @__init__ latin1 (lit "another text") 64 (PyInt 1234567890123456)
     = Ret {| hash := 1234567890123456; length := 64 |}.
Proof.
  split.
  - apply (init_integer_hash latin1 0x3c5c8a1fdb206886 (lit "another text") 64);
      [split; [discriminate|reflexivity]|vm_compute; discriminate].
  - apply (init_integer_hash latin1 1234567890123456 (lit "another text") 64);
      [split; [discriminate|reflexivity]
      |split; [vm_compute; discriminate|reflexivity]].
Defined.

(** ** Two hashes, two strings *)

Lemma to_hex_neg (self : Simhash) :
  hash self < 0 -> to_hex self = 120 :: digits 16 (- hash self).
Proof.
  intros Hneg. unfold to_hex, hex, sign_prefix.
  replace (hash self <? 0) with true by (symmetry; apply Z.ltb_lt; exact Hneg).
  rewrite Z.abs_neq by lia. reflexivity.
Qed.

Lemma digits_value_inj n m :
  0 <= n -> 0 <= m -> digits 16 n = digits 16 m -> n = m.
Proof.
  intros Hn Hm E.
  destruct (digits_spec 16 ltac:(lia) n Hn) as (_ & _ & Vn & _).
  destruct (digits_spec 16 ltac:(lia) m Hm) as (_ & _ & Vm & _).
  rewrite <- Vn, <- Vm, E. reflexivity.
Qed.

Lemma digits_not_x n ds : 0 <= n -> digits 16 n <> 120 :: ds.
Proof.
  intros Hn E.
  destruct (digits_cons 16 n ltac:(lia) Hn) as (d & ds' & Hd & Hr & _).
  rewrite Hd in E. injection E as E _. lia.
Qed.

(** X20. [to_hex] never gives two hashes the same string, negative hashes
    included: equal strings come from equal hashes. *)
Theorem to_hex_injective :
  forall a b : Simhash, to_hex a = to_hex b -> hash a = hash b.
Proof.
  intros a b E.
  destruct (Z.ltb_spec (hash a) 0) as [Ha|Ha];
    destruct (Z.ltb_spec (hash b) 0) as [Hb|Hb].
  - rewrite !to_hex_neg in E by assumption. injection E as E.
    apply digits_value_inj in E; lia.
  - rewrite to_hex_neg, (to_hex_digits b) in E by assumption.
    exfalso. symmetry in E. revert E. apply digits_not_x, Hb.
  - rewrite (to_hex_digits a), to_hex_neg in E by assumption.
    exfalso. revert E. apply digits_not_x, Ha.
  - rewrite !to_hex_digits in E by assumption.
    apply digits_value_inj in E; assumption.
Qed.

(** The theorem at two fingerprints of different lengths. *)
Lemma to_hex_injective_witness :
  to_hex {| hash := 255; length := 64 |} = lit "ff"
  /\ hash {| hash := 255; length := 64 |} = hash {| hash := 255; length := 32 |}.
Proof.
  split; [reflexivity|].
  apply (to_hex_injective {| hash := 255; length := 64 |}
           {| hash := 255; length := 32 |}).
  reflexivity.
Defined.
